(** * The type database of the AngelScript language server

    A shallow embedding of [language-server/src/database.ts]: the entity
    records ([DBProperty], [DBArg], [DBMethod], [DBType]), the global
    [database] map, template instantiation through [GetType], the
    inheritance walk [getCombineTypesList], member lookup, namespace
    classification and removal of the types of a module.

    Conventions of the embedding.
    - A JavaScript string is a [string]; its characters are the code units
      below 256, which covers every character the code tests for.
    - A field the code may leave unassigned or set to [null] is an [option];
      [None] stands for both [undefined] and [null], which the code never
      tells apart (it only tests truthiness, [!= null] and [.length]).
    - [DBType] objects are mutable and compared by identity, so they live
      in a heap (a list, an object's address is its index) and the
      [database] maps a name to an address.
    - A JavaScript [TypeError] is the completion [TypeError]; a loop or a
      recursion that needs fuel returns [None] when the fuel runs out. *)

From Stdlib Require Import String Ascii.
From stdpp Require Import gmap strings list fin_maps.

Local Open Scope string_scope.

(** ** Strings *)

(** White space as [String.prototype.trim] and the regular expression class
    [\s] see it, within the code units below 256: TAB, LF, VT, FF, CR,
    SPACE and NO-BREAK SPACE. *)
Definition is_ws (c : ascii) : bool :=
  let n := nat_of_ascii c in
  ((n =? 9) || (n =? 10) || (n =? 11) || (n =? 12) || (n =? 13)
   || (n =? 32) || (n =? 160))%nat.

(** The class [[A-Za-z_0-9]] of [re_template]. *)
Definition is_word (c : ascii) : bool :=
  let n := nat_of_ascii c in
  (((65 <=? n) && (n <=? 90)) || ((97 <=? n) && (n <=? 122))
   || (n =? 95) || ((48 <=? n) && (n <=? 57)))%nat.

(** The class [[A-Za-z_0-9,\s]] of [re_template]. *)
Definition is_targ (c : ascii) : bool :=
  is_word c || (nat_of_ascii c =? 44)%nat || is_ws c.

Fixpoint trimStart (s : string) : string :=
  match s with
  | EmptyString => EmptyString
  | String c s' => if is_ws c then trimStart s' else s
  end.

Fixpoint trimEnd (s : string) : string :=
  match s with
  | EmptyString => EmptyString
  | String c s' =>
      match trimEnd s' with
      | EmptyString => if is_ws c then EmptyString else String c EmptyString
      | r => String c r
      end
  end.

Definition trim (s : string) : string := trimStart (trimEnd s).

Definition startsWith (p s : string) : bool := String.prefix p s.

(** [s.endsWith(suf)]: some suffix of [s] is [suf]. *)
Fixpoint endsWith (suf s : string) : bool :=
  String.eqb s suf ||
  match s with
  | EmptyString => false
  | String _ s' => endsWith suf s'
  end.

(** [s.substring(n)] *)
Definition substring_from (n : nat) (s : string) : string :=
  String.substring n (String.length s - n) s.

(** [s.substring(0, s.length-1)] *)
Definition drop_last (s : string) : string :=
  String.substring 0 (String.length s - 1) s.

(** [s.indexOf(c) != -1] *)
Fixpoint contains_char (c : ascii) (s : string) : bool :=
  match s with
  | EmptyString => false
  | String d s' => Ascii.eqb c d || contains_char c s'
  end.

(** [s.split(",")] *)
Fixpoint split_comma (s : string) : list string :=
  match s with
  | EmptyString => [EmptyString]
  | String c s' =>
      if Ascii.eqb c "," then EmptyString :: split_comma s'
      else match split_comma s' with
           | h :: t => String c h :: t
           | [] => [String c EmptyString]
           end
  end.

(** The longest prefix of [s] made of characters of the class [p], and the
    rest of [s]. *)
Fixpoint span (p : ascii -> bool) (s : string) : string * string :=
  match s with
  | EmptyString => (EmptyString, EmptyString)
  | String c s' =>
      if p c then let '(a, b) := span p s' in (String c a, b)
      else (EmptyString, s)
  end.

Definition CleanTypeName (typename : string) : string :=
  let typename := trim typename in
  let typename :=
    if startsWith "const " typename then substring_from 6 typename
    else typename in
  let typename :=
    if endsWith "&" typename then trim (drop_last typename) else typename in
  let typename :=
    if endsWith "@" typename then trim (drop_last typename) else typename in
  typename.

(** [ReplaceTemplateType]: the loop over [templateTypes] carries the index
    [i]; the result is [actualTypes[i]] at the first placeholder equal to
    the cleaned name, which is [undefined] ([None]) when [actualTypes] is
    shorter than that index, and the cleaned name when no placeholder
    matches. *)
Fixpoint ReplaceTemplateType_loop (typename : string)
    (templateTypes actualTypes : list string) (i : nat) : option string :=
  match templateTypes with
  | [] => Some typename
  | t :: rest =>
      if String.eqb typename t then actualTypes !! i
      else ReplaceTemplateType_loop typename rest actualTypes (S i)
  end.

Definition ReplaceTemplateType (typename : string)
    (templateTypes actualTypes : list string) : option string :=
  ReplaceTemplateType_loop (CleanTypeName typename) templateTypes actualTypes 0.

(** ** The entity records *)

Module DBProperty.
Record t : Type := mk {
  name : string;
  typename : string;
  documentation : option string;
  isProtected : option bool;
  isPrivate : option bool
}.

(** [new DBProperty()] followed by the two assignments of the source:
    the other three fields stay unassigned. The result is [None] when
    the substituted type name is [undefined]. *)
Definition createTemplateInstance (templateTypes actualTypes : list string)
    (this : t) : option t :=
  tn ← ReplaceTemplateType (typename this) templateTypes actualTypes;
  Some {| name := name this;
          typename := tn;
          documentation := None;
          isProtected := None;
          isPrivate := None |}.
End DBProperty.

Module DBArg.
Record t : Type := mk {
  name : option string;
  typename : string;
  defaultvalue : option string
}.

Definition createTemplateInstance (templateTypes actualTypes : list string)
    (this : t) : option t :=
  tn ← ReplaceTemplateType (typename this) templateTypes actualTypes;
  Some {| name := name this;
          defaultvalue := defaultvalue this;
          typename := tn |}.
End DBArg.

Module DBMethod.
Record t : Type := mk {
  name : string;
  returnType : string;
  args : list DBArg.t;
  argumentStr : option string;
  documentation : option string;
  declaredModule : option string;
  isProtected : bool;
  isPrivate : bool;
  isConstructor : bool;
  isEvent : bool;
  isConst : bool
}.

(** [new DBMethod()] initialises the five flags to [false]; the source
    then assigns the name, the return type, the argument string, the
    documentation and the arguments. *)
Definition createTemplateInstance (templateTypes actualTypes : list string)
    (this : t) : option t :=
  rt ← ReplaceTemplateType (returnType this) templateTypes actualTypes;
  inst_args ← mapM (DBArg.createTemplateInstance templateTypes actualTypes)
                   (args this);
  Some {| name := name this;
          returnType := rt;
          argumentStr := argumentStr this;
          documentation := documentation this;
          args := inst_args;
          declaredModule := None;
          isProtected := false;
          isPrivate := false;
          isConstructor := false;
          isEvent := false;
          isConst := false |}.
End DBMethod.

Module DBType.
Record t : Type := mk {
  typename : string;
  supertype : option string;
  properties : list DBProperty.t;
  methods : list DBMethod.t;
  unrealsuper : option string;
  documentation : option string;
  isStruct : option bool;
  isNS : option bool;
  isEnum : option bool;
  rawName : option string;
  namespaceResolved : option bool;
  shadowedNamespace : option bool;
  isDelegate : bool;
  isEvent : bool;
  isPrimitive : bool;
  declaredModule : option string;
  siblingTypes : option (list string);
  subTypes : option (list string)
}.

Definition set_typename (n : string) (this : t) : t :=
  mk n (supertype this) (properties this) (methods this)
     (unrealsuper this) (documentation this) (isStruct this) (isNS this)
     (isEnum this) (rawName this) (namespaceResolved this)
     (shadowedNamespace this) (isDelegate this) (isEvent this)
     (isPrimitive this) (declaredModule this) (siblingTypes this)
     (subTypes this).

(** [hasExtendTypes]: a non-empty supertype name, or a sibling array
    (an array is truthy even when it is empty). *)
Definition truthy_string (o : option string) : bool :=
  match o with
  | Some s => negb (String.eqb s EmptyString)
  | None => false
  end.

Definition hasExtendTypes (this : t) : bool :=
  if truthy_string (supertype this) then true
  else if siblingTypes this is Some _ then true
  else false.
End DBType.

(** ** The registry: the heap of [DBType] objects and the [database] map *)

(** The address of an object: its index in the heap. *)
Abbreviation addr := nat (only parsing).

Record Registry : Type := mkRegistry {
  heap : list DBType.t;
  database : gmap string addr
}.

Inductive completion (A : Type) : Type :=
  | Normal (a : A)
  | TypeError.
Arguments Normal {A} a.
Arguments TypeError {A}.

(** A computation over the registry; [None] is the end of the fuel. *)
Definition M (A : Type) : Type := Registry → option (completion A * Registry).

Definition ret {A} (a : A) : M A := λ s, Some (Normal a, s).
Definition throw {A} : M A := λ s, Some (TypeError, s).
Definition out_of_fuel {A} : M A := λ _, None.
Definition bind {A B} (m : M A) (k : A → M B) : M B :=
  λ s, match m s with
       | Some (Normal a, s') => k a s'
       | Some (TypeError, s') => Some (TypeError, s')
       | None => None
       end.

Notation "'let*' x := m 'in' k" := (bind m (λ x, k))
  (at level 10, x name, m at level 100, k at level 200).
Notation "m ;;; k" := (bind m (λ _, k))
  (at level 100, k at level 200, right associativity).

(** Reading a field of the object at [a]; an address outside the heap
    stands for [undefined], whose fields cannot be read. *)
Definition deref (a : addr) : M DBType.t :=
  λ s, match heap s !! a with
       | Some o => Some (Normal o, s)
       | None => Some (TypeError, s)
       end.

(** [new DBType()] with its fields assigned. *)
Definition alloc (o : DBType.t) : M addr :=
  λ s, Some (Normal (length (heap s)),
             {| heap := heap s ++ [o]; database := database s |}).

Definition update (a : addr) (f : DBType.t → DBType.t) : M unit :=
  λ s, match heap s !! a with
       | Some o => Some (Normal tt, {| heap := <[a := f o]> (heap s);
                                       database := database s |})
       | None => Some (TypeError, s)
       end.

Definition database_get (k : string) : M (option addr) :=
  λ s, Some (Normal (database s !! k), s).

Definition database_set (k : string) (a : addr) : M unit :=
  λ s, Some (Normal tt, {| heap := heap s; database := <[k := a]> (database s) |}).

(** ** Template instantiation *)

(** The object [createTemplateInstance] builds: [new DBType()], the
    assignments of the source, and the two member arrays. The fields the
    source does not assign keep the value of the constructor. *)
Definition DBType_instance (self : DBType.t) (props : list DBProperty.t)
    (mths : list DBMethod.t) : DBType.t :=
  {| DBType.typename := DBType.typename self;
     DBType.supertype := DBType.supertype self;
     DBType.isNS := DBType.isNS self;
     DBType.isEnum := DBType.isEnum self;
     DBType.rawName := DBType.rawName self;
     DBType.namespaceResolved := DBType.namespaceResolved self;
     DBType.shadowedNamespace := DBType.shadowedNamespace self;
     DBType.declaredModule := DBType.declaredModule self;
     DBType.siblingTypes := DBType.siblingTypes self;
     DBType.subTypes := None;
     DBType.properties := props;
     DBType.methods := mths;
     DBType.unrealsuper := None;
     DBType.documentation := None;
     DBType.isStruct := None;
     DBType.isDelegate := false;
     DBType.isEvent := false;
     DBType.isPrimitive := false |}.

(** [DBType.createTemplateInstance(actualTypes)] on the object at [this].
    Reading [this.subTypes.length] raises when [subTypes] is unset; a
    differing length returns [null]. Past that guard both lists are equally
    long, so no substituted name is [undefined] and the last branch is
    never taken ([createTemplateInstance_members]). *)
Definition DBType_createTemplateInstance (this : addr)
    (actualTypes : list string) : M (option addr) :=
  let* self := deref this in
  match DBType.subTypes self with
  | None => throw
  | Some subTypes =>
      if negb (length actualTypes =? length subTypes)%nat then ret None
      else
        match mapM (DBProperty.createTemplateInstance subTypes actualTypes)
                   (DBType.properties self),
              mapM (DBMethod.createTemplateInstance subTypes actualTypes)
                   (DBType.methods self) with
        | Some props, Some mths =>
            let* inst := alloc (DBType_instance self props mths) in
            ret (Some inst)
        | _, _ => ret None
        end
  end.

(** [re_template = /([A-Za-z_0-9]+)\<([A-Za-z_0-9,\s]+)\>/] tried at the
    head of [s]. Neither class contains the character that has to follow
    it, so giving back characters of a greedy run never helps: the match
    at a position is the longest run of word characters, [<], the longest
    run of argument characters, [>]. *)
Definition re_template_at (s : string) : option (string * string) :=
  let '(w, r) := span is_word s in
  if String.eqb w EmptyString then None
  else match r with
       | String "<" r' =>
           let '(a, r'') := span is_targ r' in
           if String.eqb a EmptyString then None
           else match r'' with
                | String ">" _ => Some (w, a)
                | _ => None
                end
       | _ => None
       end.

(** [typename.match(re_template)]: the leftmost position with a match;
    the result is the pair of the two groups. *)
Fixpoint re_template_match (s : string) : option (string * string) :=
  match re_template_at s with
  | Some m => Some m
  | None =>
      match s with
      | EmptyString => None
      | String _ s' => re_template_match s'
      end
  end.

Fixpoint GetType_fuel (fuel : nat) (typename : string) : M (option addr) :=
  match fuel with
  | O => out_of_fuel
  | S fuel' =>
      let typename := CleanTypeName typename in
      let* foundType := database_get typename in
      match foundType with
      | Some found => ret (Some found)
      | None =>
          if contains_char "<" typename then
            match re_template_match typename with
            | Some (basetype, args) =>
                let subtypes := map trim (split_comma args) in
                let* dbbasetype := GetType_fuel fuel' basetype in
                match dbbasetype with
                | None => ret None
                | Some base =>
                    let* inst := DBType_createTemplateInstance base subtypes in
                    match inst with
                    | None => throw   (* inst.typename = typename, inst null *)
                    | Some i =>
                        update i (DBType.set_typename typename) ;;;
                        database_set typename i ;;;
                        ret (Some i)
                    end
                end
            | None => ret None
            end
          else ret None
      end
  end.

(** The base name of a template is a run of word characters, so the inner
    call never reaches the instantiation branch: two levels are enough. *)
Definition GetType (typename : string) : M (option addr) :=
  GetType_fuel 2 typename.

(** ** The inheritance walk *)

(** [if (db && !extend.includes(db)) extend.push(db)]; [includes] compares
    object identities, that is, addresses. *)
Definition push_unique (extend : list addr) (db : option addr) : list addr :=
  match db with
  | Some a => if bool_decide (a ∈ extend) then extend else extend ++ [a]
  | None => extend
  end.

Definition visit_name (name : string) (extend : list addr) : M (list addr) :=
  let* db := GetType name in
  ret (push_unique extend db).

Fixpoint visit_siblings (siblings : list string) (extend : list addr)
    : M (list addr) :=
  match siblings with
  | [] => ret extend
  | sibling :: rest =>
      let* extend := visit_name sibling extend in
      visit_siblings rest extend
  end.

(** One turn of the [while] loop of [getCombineTypesList] for the object
    [checkType]. Its fields are read once: [GetType] only adds objects to
    the heap and never writes to an existing one ([GetType_extends]). *)
Definition visit_type (checkType : DBType.t) (extend : list addr)
    : M (list addr) :=
  let* extend :=
    match DBType.supertype checkType with
    | Some supertype =>
        if DBType.truthy_string (Some supertype)
        then visit_name supertype extend
        else ret extend
    | None => ret extend
    end in
  match DBType.siblingTypes checkType with
  | Some siblings => visit_siblings siblings extend
  | None => ret extend
  end.

Fixpoint combine_loop (fuel : nat) (extend : list addr) (checkIndex : nat)
    : M (list addr) :=
  match extend !! checkIndex with
  | None => ret extend                  (* checkIndex >= extend.length *)
  | Some this =>
      match fuel with
      | O => out_of_fuel
      | S fuel' =>
          let* checkType := deref this in
          let* extend := visit_type checkType extend in
          combine_loop fuel' extend (S checkIndex)
      end
  end.

(** [DBType.getCombineTypesList()], the [while] loop run for at most
    [fuel] turns. *)
Definition getCombineTypesList (fuel : nat) (this : addr) : M (list addr) :=
  combine_loop fuel [this] 0.

(** ** Member lookup *)

Definition find_method (name : string) (methods : list DBMethod.t)
    : option DBMethod.t :=
  List.find (λ func, String.eqb (DBMethod.name func) name) methods.

(** [getMethod(name, false)]: the loop over the type's own methods. *)
Definition getMethod_own (this : addr) (name : string)
    : M (option DBMethod.t) :=
  let* self := deref this in
  ret (find_method name (DBType.methods self)).

Fixpoint getMethod_search (extend : list addr) (name : string)
    : M (option DBMethod.t) :=
  match extend with
  | [] => ret None
  | e :: rest =>
      let* mth := getMethod_own e name in
      match mth with
      | Some m => ret (Some m)
      | None => getMethod_search rest name
      end
  end.

(** [DBType.getMethod(name, recurse)]; the calls it makes on the members
    of the combination list pass [recurse = false], which is
    [getMethod_own]. *)
Definition getMethod (fuel : nat) (this : addr) (name : string)
    (recurse : bool) : M (option DBMethod.t) :=
  let* self := deref this in
  match find_method name (DBType.methods self) with
  | Some func => ret (Some func)
  | None =>
      if negb recurse then ret None
      else if negb (DBType.hasExtendTypes self) then ret None
      else
        let* extend := getCombineTypesList fuel this in
        getMethod_search extend name
  end.


(** ** Namespaces *)

Definition set_namespace (ns : bool) (shadow : option (bool * string))
    (this : DBType.t) : DBType.t :=
  {| DBType.typename := DBType.typename this;
     DBType.supertype := DBType.supertype this;
     DBType.properties := DBType.properties this;
     DBType.methods := DBType.methods this;
     DBType.unrealsuper := DBType.unrealsuper this;
     DBType.documentation := DBType.documentation this;
     DBType.isStruct := DBType.isStruct this;
     DBType.isNS := Some ns;
     DBType.isEnum := DBType.isEnum this;
     DBType.rawName :=
       match shadow with
       | Some (_, raw) => Some raw
       | None => DBType.rawName this
       end;
     DBType.namespaceResolved := Some true;
     DBType.shadowedNamespace :=
       match shadow with
       | Some (sh, _) => Some sh
       | None => DBType.shadowedNamespace this
       end;
     DBType.isDelegate := DBType.isDelegate this;
     DBType.isEvent := DBType.isEvent this;
     DBType.isPrimitive := DBType.isPrimitive this;
     DBType.declaredModule := DBType.declaredModule this;
     DBType.siblingTypes := DBType.siblingTypes this;
     DBType.subTypes := DBType.subTypes this |}.

(** [resolveNamespace]: [database.get(otherType) != null] is a plain map
    lookup, without cleaning and without template instantiation. *)
Definition resolveNamespace (this : addr) : M unit :=
  let* self := deref this in
  let isNS := startsWith "__" (DBType.typename self) in
  if isNS then
    let otherType := substring_from 2 (DBType.typename self) in
    let* other := database_get otherType in
    update this (set_namespace true (Some (bool_decide (is_Some other), otherType)))
  else
    update this (set_namespace false None).

Definition falsy (b : option bool) : bool :=
  match b with
  | Some true => false
  | _ => true
  end.

(** The JavaScript [a && b] on two flags: [a] when it is falsy, else [b]. *)
Definition js_and (a b : option bool) : option bool :=
  if falsy a then a else b.

Definition isNamespace (this : addr) : M (option bool) :=
  let* self := deref this in
  (if falsy (DBType.namespaceResolved self) then resolveNamespace this
   else ret tt) ;;;
  let* self := deref this in
  ret (DBType.isNS self).

Definition isShadowedNamespace (this : addr) : M (option bool) :=
  let* self := deref this in
  (if falsy (DBType.namespaceResolved self) then resolveNamespace this
   else ret tt) ;;;
  let* self := deref this in
  ret (js_and (DBType.isNS self) (DBType.shadowedNamespace self)).

(** ** Documentation comments *)

Definition is_blank (c : ascii) : bool :=
  ((nat_of_ascii c =? 32) || (nat_of_ascii c =? 9))%nat.
Definition is_newline (c : ascii) : bool :=
  ((nat_of_ascii c =? 13) || (nat_of_ascii c =? 10))%nat.
Definition is_star (c : ascii) : bool := (nat_of_ascii c =? 42)%nat.

(** [re_comment_star_end = /[\r\n]+[ \t]*\*+[ \t]*/] at the head of [s]:
    the number of characters matched. The classes are disjoint, so each
    greedy run is maximal. *)
Definition re_comment_star_end_at (s : string) : option nat :=
  let '(nl, r1) := span is_newline s in
  let '(b1, r2) := span is_blank r1 in
  let '(st, r3) := span is_star r2 in
  let '(b2, _) := span is_blank r3 in
  if String.eqb nl EmptyString || String.eqb st EmptyString then None
  else Some (String.length nl + String.length b1 + String.length st
             + String.length b2).

(** [doc.replace(re_comment_star_end, "\n")]: every match, from left to
    right, becomes one line feed; [skip] counts the characters of the
    current match that are still to be dropped. *)
Fixpoint replace_star_end (skip : nat) (s : string) : string :=
  match s with
  | EmptyString => EmptyString
  | String c s' =>
      match skip with
      | S k => replace_star_end k s'
      | O =>
          match re_comment_star_end_at s with
          | Some n => String "010" (replace_star_end (n - 1) s')
          | None => String c (replace_star_end 0 s')
          end
      end
  end.

(** [doc.replace(re_comment_star_start, " ")] with
    [re_comment_star_start = /^[ \t]*\*+[ \t]*[\r\n]+/]: without the
    multiline flag [^] is the start of the text, so there is at most one
    match. *)
Definition replace_star_start (s : string) : string :=
  let '(_, r1) := span is_blank s in
  let '(st, r2) := span is_star r1 in
  let '(_, r3) := span is_blank r2 in
  let '(nl, r4) := span is_newline r3 in
  if String.eqb st EmptyString || String.eqb nl EmptyString then s
  else String " " r4.

Definition FormatDocumentationComment (doc : string) : string :=
  trim (replace_star_start (replace_star_end 0 doc)).

(** ** Ingestion of the engine's type dump *)

(** The JSON records of the dump, one field per key the code reads; an
    optional key is an [option]. A property is the array
    [[typename, doc?, ...]], here its first element and the rest. *)
Module JSON.
Record arg : Type := mkArg {
  arg_type : string;
  arg_name : option string;
  arg_default : option string
}.
Record method : Type := mkMethod {
  m_name : string;
  m_return : option string;
  m_args : option (list arg);
  m_doc : option string;
  m_isConstructor : option bool;
  m_const : option bool;
  m_event : option bool
}.
Record type : Type := mkType {
  t_properties : list (string * (string * list string));
  t_methods : list (string * method);
  t_subtypes : option (list string);
  t_supertype : option string;
  t_inherits : option string;
  t_doc : option string;
  t_isStruct : option bool;
  t_isEnum : option bool
}.
End JSON.

Definition DBProperty_fromJSON (name : string)
    (input : string * list string) : DBProperty.t :=
  {| DBProperty.name := name;
     DBProperty.typename := fst input;
     DBProperty.isProtected := Some false;
     DBProperty.isPrivate := Some false;
     DBProperty.documentation :=
       match snd input with
       | doc :: _ => Some (FormatDocumentationComment doc)
       | [] => None
       end |}.

Definition DBArg_fromJSON (input : JSON.arg) : DBArg.t :=
  {| DBArg.name := JSON.arg_name input;
     DBArg.typename := JSON.arg_type input;
     DBArg.defaultvalue := JSON.arg_default input |}.

Definition DBMethod_fromJSON (input : JSON.method) : DBMethod.t :=
  {| DBMethod.name := JSON.m_name input;
     DBMethod.returnType := default "void" (JSON.m_return input);
     DBMethod.args := map DBArg_fromJSON (default [] (JSON.m_args input));
     DBMethod.documentation :=
       FormatDocumentationComment <$> JSON.m_doc input;
     DBMethod.isConstructor := default false (JSON.m_isConstructor input);
     DBMethod.isConst := default false (JSON.m_const input);
     DBMethod.isEvent := default false (JSON.m_event input);
     DBMethod.argumentStr := None;
     DBMethod.declaredModule := None;
     DBMethod.isProtected := false;
     DBMethod.isPrivate := false |}.

(** [DBType.fromJSON] on a fresh [new DBType()]: the fields it does not
    assign keep the value the constructor gave them. *)
Definition DBType_fromJSON (name : string) (input : JSON.type) : DBType.t :=
  {| DBType.typename := name;
     DBType.properties :=
       map (λ kv, DBProperty_fromJSON (fst kv) (snd kv))
           (JSON.t_properties input);
     DBType.methods :=
       map (λ kv, DBMethod_fromJSON (snd kv)) (JSON.t_methods input);
     DBType.subTypes := JSON.t_subtypes input;
     DBType.unrealsuper := JSON.t_supertype input;
     DBType.supertype := JSON.t_inherits input;
     DBType.documentation := FormatDocumentationComment <$> JSON.t_doc input;
     DBType.isStruct := Some (default false (JSON.t_isStruct input));
     DBType.isEnum := Some (default false (JSON.t_isEnum input));
     DBType.isNS := None;
     DBType.rawName := None;
     DBType.namespaceResolved := None;
     DBType.shadowedNamespace := None;
     DBType.isDelegate := false;
     DBType.isEvent := false;
     DBType.isPrimitive := false;
     DBType.declaredModule := None;
     DBType.siblingTypes := None |}.

(** [AddTypesFromUnreal(input)]; [input] lists the keys of the dump in the
    order [for ... in] visits them. *)
Fixpoint AddTypesFromUnreal (input : list (string * JSON.type)) : M unit :=
  match input with
  | [] => ret tt
  | (key, desc) :: rest =>
      let* type := alloc (DBType_fromJSON key desc) in
      database_set key type ;;;
      AddTypesFromUnreal rest
  end.

(** ** Removal of a module's types *)

(** [dbtype.declaredModule == module] for the object at [a]; [module] is
    a string, so an unset [declaredModule] is never equal to it. An
    address outside the heap (a well-formed registry has none) counts as
    not declared. *)
Definition declared_in (module : string) (h : list DBType.t) (a : addr)
    : bool :=
  match h !! a with
  | Some dbtype => bool_decide (DBType.declaredModule dbtype = Some module)
  | None => false
  end.

(** [RemoveTypesInModule(module)]: the loop over the entries of the
    [database], deleting as it goes. *)
Definition RemoveTypesInModule (module : string) : M unit :=
  λ s, Some (Normal tt,
             {| heap := heap s;
                database :=
                  map_fold (λ name dbtype db,
                              if declared_in module (heap s) dbtype
                              then delete name db else db)
                           (database s) (database s) |}).

(** ** Well-formed registries *)

(** Every entry of the [database] is an object of the heap. *)
Definition wf (s : Registry) : Prop :=
  ∀ k a, database s !! k = Some a → a < length (heap s).

(** ** The other members of [DBType] *)

(** [new DBType().initEmpty(name)]. *)
Definition DBType_initEmpty (name : string) : DBType.t :=
  {| DBType.typename := name;
     DBType.methods := [];
     DBType.properties := [];
     DBType.supertype := None;
     DBType.unrealsuper := None;
     DBType.documentation := None;
     DBType.isStruct := None;
     DBType.isNS := None;
     DBType.isEnum := None;
     DBType.rawName := None;
     DBType.namespaceResolved := None;
     DBType.shadowedNamespace := None;
     DBType.isDelegate := false;
     DBType.isEvent := false;
     DBType.isPrimitive := false;
     DBType.declaredModule := None;
     DBType.siblingTypes := None;
     DBType.subTypes := None |}.

Definition set_isPrimitive (b : bool) (this : DBType.t) : DBType.t :=
  {| DBType.typename := DBType.typename this;
     DBType.methods := DBType.methods this;
     DBType.properties := DBType.properties this;
     DBType.supertype := DBType.supertype this;
     DBType.unrealsuper := DBType.unrealsuper this;
     DBType.documentation := DBType.documentation this;
     DBType.isStruct := DBType.isStruct this;
     DBType.isNS := DBType.isNS this;
     DBType.isEnum := DBType.isEnum this;
     DBType.rawName := DBType.rawName this;
     DBType.namespaceResolved := DBType.namespaceResolved this;
     DBType.shadowedNamespace := DBType.shadowedNamespace this;
     DBType.isDelegate := DBType.isDelegate this;
     DBType.isEvent := DBType.isEvent this;
     DBType.isPrimitive := b;
     DBType.declaredModule := DBType.declaredModule this;
     DBType.siblingTypes := DBType.siblingTypes this;
     DBType.subTypes := DBType.subTypes this |}.

(** The names [AddPrimitiveTypes] goes through, in its order. *)
Definition primitive_types : list string :=
  ["int"; "int8"; "uint8"; "uint"; "int16"; "uint16"; "int32"; "uint32";
   "int64"; "uint64"; "float"; "double"; "bool"].

Fixpoint AddPrimitiveTypes_loop (names : list string) : M unit :=
  match names with
  | [] => ret tt
  | primtype :: rest =>
      let* dbtype := alloc (set_isPrimitive true (DBType_initEmpty primtype)) in
      database_set primtype dbtype ;;;
      AddPrimitiveTypes_loop rest
  end.

Definition AddPrimitiveTypes : M unit :=
  AddPrimitiveTypes_loop primitive_types.

(** [if (db) extend.push(db)] of [getExtendTypes]: no test for
    duplicates. *)
Definition push_resolved (extend : list addr) (db : option addr) : list addr :=
  match db with
  | Some a => extend ++ [a]
  | None => extend
  end.

Fixpoint getExtendTypes_siblings (siblings : list string) (extend : list addr)
    : M (list addr) :=
  match siblings with
  | [] => ret extend
  | sibling :: rest =>
      let* dbsibling := GetType sibling in
      getExtendTypes_siblings rest (push_resolved extend dbsibling)
  end.

Definition getExtendTypes (this : addr) : M (list addr) :=
  let* self := deref this in
  let* extend :=
    match DBType.supertype self with
    | Some supertype =>
        if DBType.truthy_string (Some supertype)
        then let* dbsuper := GetType supertype in
             ret (push_resolved [] dbsuper)
        else ret []
    | None => ret []
    end in
  match DBType.siblingTypes self with
  | Some siblings => getExtendTypes_siblings siblings extend
  | None => ret extend
  end.

(** [props = props.concat(extend.properties)] over the combination
    list. *)
Fixpoint allProperties_loop (extend : list addr) (props : list DBProperty.t)
    : M (list DBProperty.t) :=
  match extend with
  | [] => ret props
  | e :: rest =>
      let* T := deref e in
      allProperties_loop rest (props ++ DBType.properties T)
  end.

Definition allProperties (fuel : nat) (this : addr) : M (list DBProperty.t) :=
  let* self := deref this in
  if negb (DBType.hasExtendTypes self) then ret (DBType.properties self)
  else
    let* extend := getCombineTypesList fuel this in
    allProperties_loop extend [].

Definition find_property (name : string) (props : list DBProperty.t)
    : option DBProperty.t :=
  List.find (λ prop, String.eqb (DBProperty.name prop) name) props.

(** [getProperty(name, false)] *)
Definition getProperty_own (this : addr) (name : string)
    : M (option DBProperty.t) :=
  let* self := deref this in
  ret (find_property name (DBType.properties self)).

Fixpoint getProperty_search (extend : list addr) (name : string)
    : M (option DBProperty.t) :=
  match extend with
  | [] => ret None
  | e :: rest =>
      let* prop := getProperty_own e name in
      match prop with
      | Some p => ret (Some p)
      | None => getProperty_search rest name
      end
  end.

Definition getProperty (fuel : nat) (this : addr) (name : string)
    (recurse : bool) : M (option DBProperty.t) :=
  let* self := deref this in
  match find_property name (DBType.properties self) with
  | Some prop => ret (Some prop)
  | None =>
      if negb recurse then ret None
      else if negb (DBType.hasExtendTypes self) then ret None
      else
        let* extend := getCombineTypesList fuel this in
        getProperty_search extend name
  end.

(** The inner loop of [allMethods] over the methods of the object at
    [type]; [methodNames] maps a method name to the object that declared
    it, and [declType != type] compares identities. *)
Fixpoint allMethods_type (type : addr) (methods : list DBMethod.t)
    (methodNames : gmap string addr) (outMethods : list DBMethod.t)
    : gmap string addr * list DBMethod.t :=
  match methods with
  | [] => (methodNames, outMethods)
  | mth :: rest =>
      match methodNames !! DBMethod.name mth with
      | Some declType =>
          if bool_decide (declType ≠ type)
          then allMethods_type type rest methodNames outMethods
          else allMethods_type type rest
                 (<[DBMethod.name mth := type]> methodNames)
                 (outMethods ++ [mth])
      | None =>
          allMethods_type type rest
            (<[DBMethod.name mth := type]> methodNames)
            (outMethods ++ [mth])
      end
  end.

Fixpoint allMethods_loop (extend : list addr)
    (methodNames : gmap string addr) (outMethods : list DBMethod.t)
    : M (list DBMethod.t) :=
  match extend with
  | [] => ret outMethods
  | type :: rest =>
      let* T := deref type in
      let '(methodNames, outMethods) :=
        allMethods_type type (DBType.methods T) methodNames outMethods in
      allMethods_loop rest methodNames outMethods
  end.

Definition allMethods (fuel : nat) (this : addr) : M (list DBMethod.t) :=
  let* self := deref this in
  if negb (DBType.hasExtendTypes self) then ret (DBType.methods self)
  else
    let* extend := getCombineTypesList fuel this in
    allMethods_loop extend ∅ [].

(** The name the [while] loop of [inheritsFrom] follows from an object:
    its [supertype] if that is truthy, else its [unrealsuper] if that is
    truthy. *)
Definition inheritsFrom_next (it : DBType.t) : option string :=
  if DBType.truthy_string (DBType.supertype it) then DBType.supertype it
  else if DBType.truthy_string (DBType.unrealsuper it)
       then DBType.unrealsuper it
       else None.

Fixpoint inheritsFrom_loop (fuel : nat) (it : option addr) (dbCheck : addr)
    : M bool :=
  match it with
  | None => ret false                               (* while (it) *)
  | Some i =>
      match fuel with
      | O => out_of_fuel
      | S fuel' =>
          let* itT := deref i in
          let* checkT := deref dbCheck in
          if String.eqb (DBType.typename itT) (DBType.typename checkT)
          then ret true
          else
            match inheritsFrom_next itT with
            | Some name =>
                let* next := GetType name in
                inheritsFrom_loop fuel' next dbCheck
            | None => ret false                     (* break *)
            end
      end
  end.

(** [DBType.inheritsFrom(checktype)], the loop run for at most [fuel]
    turns. *)
Definition inheritsFrom (fuel : nat) (this : addr) (checktype : string)
    : M bool :=
  let* dbCheck := GetType checktype in
  match dbCheck with
  | None => ret false
  | Some c => inheritsFrom_loop fuel (Some this) c
  end.

(** ** Display strings *)

Definition truthy_flag (b : option bool) : bool := negb (falsy b).

(** [DBProperty.format(prefix)]; [None] is the default [null] prefix. *)
Definition DBProperty_format (this : DBProperty.t) (prefix : option string)
    : string :=
  (if truthy_flag (DBProperty.isProtected this) then "protected " else "")
  ++ (if truthy_flag (DBProperty.isPrivate this) then "private " else "")
  ++ DBProperty.typename this
  ++ " "
  ++ (match prefix with
      | Some p => if DBType.truthy_string (Some p) then p else ""
      | None => ""
      end)
  ++ DBProperty.name this.

(** [DBArg.format()] *)
Definition DBArg_format (this : DBArg.t) : string :=
  DBArg.typename this
  ++ (match DBArg.name this with Some n => " " ++ n | None => "" end)
  ++ (match DBArg.defaultvalue this with
      | Some d => " = " ++ d
      | None => ""
      end).

(** [argStr.search(",")] and [argStr.substr(cPos+1)]: what follows the
    first comma, if there is one. *)
Fixpoint after_first_comma (s : string) : option string :=
  match s with
  | EmptyString => None
  | String c s' => if Ascii.eqb c "," then Some s' else after_first_comma s'
  end.

(** The loop of [DBMethod.format] over [this.args], from index [i]. *)
Fixpoint format_args (skipFirstArg : bool) (i : nat) (args : list DBArg.t)
    : string :=
  match args with
  | [] => ""
  | a :: rest =>
      if skipFirstArg && (i =? 0)%nat
      then format_args skipFirstArg (S i) rest
      else (if (0 <? i)%nat || (skipFirstArg && (1 <? i)%nat)
            then ", " else "")
           ++ DBArg_format a
           ++ format_args skipFirstArg (S i) rest
  end.

(** [DBMethod.format(prefix, skipFirstArg, skipReturn, replaceName)]. *)
Definition DBMethod_format (this : DBMethod.t) (prefix : option string)
    (skipFirstArg skipReturn : bool) (replaceName : option string) : string :=
  (if negb skipReturn then DBMethod.returnType this ++ " " else "")
  ++ (match prefix with Some p => p | None => "" end)
  ++ (match replaceName with
      | Some r => if DBType.truthy_string (Some r) then r
                  else DBMethod.name this
      | None => DBMethod.name this
      end)
  ++ "("
  ++ (match DBMethod.argumentStr this with
      | Some argStr =>
          if DBType.truthy_string (Some argStr) then
            if skipFirstArg then
              match after_first_comma argStr with
              | Some rest => trim rest
              | None => ""
              end
            else argStr
          else format_args skipFirstArg 0 (DBMethod.args this)
      | None => format_args skipFirstArg 0 (DBMethod.args this)
      end)
  ++ ")"
  ++ (if DBMethod.isConst this then " const" else "").

(** ** File names *)

(** [pathname.replace(/\\/g, "/")] *)
Fixpoint slashes (s : string) : string :=
  match s with
  | EmptyString => EmptyString
  | String c s' => String (if Ascii.eqb c "\" then "/"%char else c) (slashes s')
  end.

(** [getFileUri(pathname)] of the server. *)
Definition getFileUri (pathname : string) : string :=
  let uri := slashes pathname in
  let uri := if negb (startsWith "/" uri) then "/" ++ uri else uri in
  "file://" ++ uri.

(** ** Specification vocabulary *)

Fixpoint str_all (p : ascii → bool) (s : string) : bool :=
  match s with
  | EmptyString => true
  | String c s' => p c && str_all p s'
  end.

(** An identifier: a non-empty run of word characters. *)
Definition identifier (s : string) : Prop :=
  s ≠ EmptyString ∧ str_all is_word s = true.

(** The object a successful instantiation of the base [B] leaves in the
    heap under the cleaned name [k]. *)
Definition template_instance (B : DBType.t) (actualTypes : list string)
    (k : string) : option DBType.t :=
  subTypes ← DBType.subTypes B;
  props ← mapM (DBProperty.createTemplateInstance subTypes actualTypes)
               (DBType.properties B);
  mths ← mapM (DBMethod.createTemplateInstance subTypes actualTypes)
              (DBType.methods B);
  Some (DBType.set_typename k (DBType_instance B props mths)).

(** The four ways a call of [GetType] ends: the name is in the map; it is
    not and nothing can be instantiated; the instantiation raises; a new
    instance is appended to the heap and entered in the map. *)
Inductive GetType_outcome (name : string) (s : Registry)
    : completion (option addr) → Registry → Prop :=
  | GetType_hit a :
      database s !! CleanTypeName name = Some a →
      GetType_outcome name s (Normal (Some a)) s
  | GetType_miss :
      database s !! CleanTypeName name = None →
      GetType_outcome name s (Normal None) s
  | GetType_raises :
      database s !! CleanTypeName name = None →
      GetType_outcome name s TypeError s
  | GetType_instance base args b B inst :
      database s !! CleanTypeName name = None →
      re_template_match (CleanTypeName name) = Some (base, args) →
      database s !! base = Some b →
      heap s !! b = Some B →
      template_instance B (map trim (split_comma args)) (CleanTypeName name)
        = Some inst →
      GetType_outcome name s (Normal (Some (length (heap s))))
        {| heap := heap s ++ [inst];
           database :=
             <[CleanTypeName name := length (heap s)]> (database s) |}.

(** The name [base<arg>] of a template instance. *)
Definition generic_name (base arg : string) : string :=
  base ++ "<" ++ arg ++ ">".

(** The characters of [base<arg>]: word characters and the two brackets. *)
Definition is_generic_char (c : ascii) : bool :=
  is_word c || Ascii.eqb c "<" || Ascii.eqb c ">".

(** What [ReplaceTemplateType] makes of the type name [t]: the actual type
    at the first placeholder equal to the cleaned name, or the cleaned
    name when there is no such placeholder. *)
Definition substituted (subs actual : list string) (t t' : string) : Prop :=
  let c := CleanTypeName t in
  (∃ i, subs !! i = Some c ∧ (∀ j, j < i → subs !! j ≠ Some c) ∧
        actual !! i = Some t')
  ∨ ((c ∉ subs) ∧ t' = c).

Definition arg_instance (subs actual : list string) (x y : DBArg.t) : Prop :=
  DBArg.name y = DBArg.name x ∧
  DBArg.defaultvalue y = DBArg.defaultvalue x ∧
  substituted subs actual (DBArg.typename x) (DBArg.typename y).

Definition property_instance (subs actual : list string)
    (p q : DBProperty.t) : Prop :=
  DBProperty.name q = DBProperty.name p ∧
  substituted subs actual (DBProperty.typename p) (DBProperty.typename q).

Definition method_instance (subs actual : list string)
    (m m' : DBMethod.t) : Prop :=
  DBMethod.name m' = DBMethod.name m ∧
  DBMethod.argumentStr m' = DBMethod.argumentStr m ∧
  DBMethod.documentation m' = DBMethod.documentation m ∧
  substituted subs actual (DBMethod.returnType m) (DBMethod.returnType m') ∧
  Forall2 (arg_instance subs actual) (DBMethod.args m) (DBMethod.args m').

(** The entry [k] of the registry is an object read from the engine's
    dump. *)
Definition engine_entry (s : Registry) (k : string) : Prop :=
  ∃ a desc, database s !! k = Some a ∧
            heap s !! a = Some (DBType_fromJSON k desc).

(** *** The measure of the inheritance walk *)

(** The names an object refers to, cleaned as [GetType] cleans them. *)
Definition names_of (T : DBType.t) : gset string :=
  list_to_set (CleanTypeName <$>
                 (option_list (DBType.supertype T)
                  ++ default [] (DBType.siblingTypes T))%list).

(** The names the objects of the heap refer to. *)
Definition wanted (s : Registry) : gset string := ⋃ (names_of <$> heap s).

(** The objects of the heap, and the names that could still be
    instantiated: no walk makes the heap longer than this. *)
Definition walk_bound (s : Registry) : nat :=
  length (heap s) + size (wanted s ∖ dom (database s)).

(** The invariant of the [extend] array. *)
Definition walk_inv (s : Registry) (extend : list addr) : Prop :=
  wf s ∧ NoDup extend ∧ ∀ a, a ∈ extend → a < length (heap s).

(** A step of the walk returns; it only adds to the heap and to the
    array, and keeps the measure and the invariant. *)
Definition walk_step (extend : list addr) (m : M (list addr))
    (s : Registry) : Prop :=
  ∃ r s', m s = Some (r, s') ∧
          heap s `prefix_of` heap s' ∧
          wanted s' = wanted s ∧
          (walk_bound s' ≤ walk_bound s)%nat ∧
          wf s' ∧
          ∀ e, r = Normal e → extend `prefix_of` e ∧ walk_inv s' e.

(** A step of the walk only adds to the heap and to the array. *)
Definition only_extends (extend : list addr) (m : M (list addr))
    (s : Registry) : Prop :=
  ∀ r s', m s = Some (r, s') →
          heap s `prefix_of` heap s' ∧
          ∀ e, r = Normal e → extend `prefix_of` e.

(** The lookup of the supertype in a turn of the walk. *)
Definition resolve_supertype (T : DBType.t) : M (option addr) :=
  match DBType.supertype T with
  | Some supertype =>
      if DBType.truthy_string (Some supertype) then GetType supertype
      else ret None
  | None => ret None
  end.

(** The object at [a] names, as its supertype or as a sibling, the entry
    of the object at [b]. *)
Definition refers_to (s : Registry) (a b : addr) : Prop :=
  ∃ T n, heap s !! a = Some T ∧
         n ∈ (option_list (DBType.supertype T)
              ++ default [] (DBType.siblingTypes T))%list ∧
         database s !! CleanTypeName n = Some b.

(** The registry has a reference cycle among supertypes and siblings. *)
Definition reference_cycle (s : Registry) : Prop :=
  ∃ a, tc (refers_to s) a a.

(** One lookup, of any name, takes the registry from [s] to [s']. *)
Definition lookup_step (s s' : Registry) : Prop :=
  ∃ name r, GetType name s = Some (r, s').

(** What [AddTypesFromUnreal] and [AddPrimitiveTypes] both do with the
    objects they make: each one is allocated and entered under its key,
    in order. *)
Fixpoint ingest (entries : list (string * DBType.t)) : M unit :=
  match entries with
  | [] => ret tt
  | (key, o) :: rest =>
      let* a := alloc o in
      database_set key a ;;;
      ingest rest
  end.

Definition dump_entries (input : list (string * JSON.type))
    : list (string * DBType.t) :=
  map (λ kv, (kv.1, DBType_fromJSON kv.1 kv.2)) input.

Definition primitive_entries (names : list string)
    : list (string * DBType.t) :=
  map (λ p, (p, set_isPrimitive true (DBType_initEmpty p))) names.

(** The methods a walk over the objects [Ts] lists: those of each object
    whose name no earlier object has declared; [seen] holds the names
    declared so far. *)
Fixpoint visible_methods (seen : list string) (Ts : list DBType.t)
    : list DBMethod.t :=
  match Ts with
  | [] => []
  | T :: rest =>
      (List.filter (λ m, negb (bool_decide (DBMethod.name m ∈ seen)))
         (DBType.methods T)
       ++ visible_methods (seen ++ (DBMethod.name <$> DBType.methods T)) rest)%list
  end.

(** The object [j] is what the name followed by [inheritsFrom] from the
    object [i] is bound to. *)
Definition parent_of (s : Registry) (i j : addr) : Prop :=
  ∃ T name, heap s !! i = Some T ∧
            inheritsFrom_next T = Some name ∧
            database s !! CleanTypeName name = Some j.

(** Some object reached from [this] along [parent_of] has the [typename]
    of the object the name [checktype] is bound to. *)
Definition has_ancestor_named (s : Registry) (this : addr)
    (checktype : string) : Prop :=
  ∃ c C j T, database s !! CleanTypeName checktype = Some c ∧
             heap s !! c = Some C ∧
             rtc (parent_of s) this j ∧
             heap s !! j = Some T ∧
             DBType.typename T = DBType.typename C.

(** No lookup can bind the cleaned name [k]: it is not in the map, and
    if it names an instance, its base is not in the map either. *)
Definition unresolvable (s : Registry) (k : string) : Prop :=
  database s !! k = None ∧
  match re_template_match k with
  | Some (base, _) => database s !! base = None
  | None => True
  end.

(** The names a turn of the walk of [getCombineTypesList] looks up for an
    object: its supertype if that is not empty, then its siblings. *)
Definition extend_names (T : DBType.t) : list string :=
  ((if DBType.truthy_string (DBType.supertype T)
    then option_list (DBType.supertype T) else [])
   ++ default [] (DBType.siblingTypes T))%list.

(** The object [i] names, as its supertype or as a sibling, what [j] is
    bound to. *)
Definition extends_to (s : Registry) (i j : addr) : Prop :=
  ∃ T name, heap s !! i = Some T ∧
            name ∈ extend_names T ∧
            database s !! CleanTypeName name = Some j.

(** ** Sample registries *)

Module Sample.
(** A type without members, as [initEmpty] makes it. *)
Definition plain (name : string) : DBType.t :=
  {| DBType.typename := name;
     DBType.supertype := None;
     DBType.properties := [];
     DBType.methods := [];
     DBType.unrealsuper := None;
     DBType.documentation := None;
     DBType.isStruct := None;
     DBType.isNS := None;
     DBType.isEnum := None;
     DBType.rawName := None;
     DBType.namespaceResolved := None;
     DBType.shadowedNamespace := None;
     DBType.isDelegate := false;
     DBType.isEvent := false;
     DBType.isPrimitive := false;
     DBType.declaredModule := None;
     DBType.siblingTypes := None;
     DBType.subTypes := None |}.

Definition method (name ret : string) (args : list DBArg.t) : DBMethod.t :=
  {| DBMethod.name := name;
     DBMethod.returnType := ret;
     DBMethod.args := args;
     DBMethod.argumentStr := None;
     DBMethod.documentation := None;
     DBMethod.declaredModule := None;
     DBMethod.isProtected := false;
     DBMethod.isPrivate := false;
     DBMethod.isConstructor := false;
     DBMethod.isEvent := false;
     DBMethod.isConst := false |}.

(** The generic base [Array<T>], a struct declared in a script module. *)
Definition Array_T : DBType.t :=
  {| DBType.typename := "Array";
     DBType.supertype := None;
     DBType.properties :=
       [ {| DBProperty.name := "value";
            DBProperty.typename := "T";
            DBProperty.documentation := Some "The first element.";
            DBProperty.isProtected := Some true;
            DBProperty.isPrivate := Some false |};
         {| DBProperty.name := "owner";
            DBProperty.typename := "const Foo&";
            DBProperty.documentation := None;
            DBProperty.isProtected := Some false;
            DBProperty.isPrivate := Some false |} ];
     DBType.methods :=
       [ {| DBMethod.name := "Add";
            DBMethod.returnType := "void";
            DBMethod.args :=
              [ {| DBArg.name := Some "item";
                   DBArg.typename := "const T&";
                   DBArg.defaultvalue := None |} ];
            DBMethod.argumentStr := Some "const T& item";
            DBMethod.documentation := Some "Appends an item.";
            DBMethod.declaredModule := Some "containers";
            DBMethod.isProtected := true;
            DBMethod.isPrivate := false;
            DBMethod.isConstructor := false;
            DBMethod.isEvent := false;
            DBMethod.isConst := true |} ];
     DBType.unrealsuper := Some "UObject";
     DBType.documentation := Some "A growable array.";
     DBType.isStruct := Some true;
     DBType.isNS := None;
     DBType.isEnum := Some false;
     DBType.rawName := None;
     DBType.namespaceResolved := None;
     DBType.shadowedNamespace := None;
     DBType.isDelegate := false;
     DBType.isEvent := false;
     DBType.isPrimitive := false;
     DBType.declaredModule := Some "containers";
     DBType.siblingTypes := None;
     DBType.subTypes := Some ["T"] |}.

(** [Array] at address 0 and the primitive [int] at address 1. *)
Definition generic : Registry :=
  {| heap := [Array_T; plain "int"];
     database := {[ "Array" := 0; "int" := 1 ]} |}.

(** An engine dump of two types. *)
Definition dump : list (string * JSON.type) :=
  [ ("AActor",
     {| JSON.t_properties := [("Tags", ("TArray<FName>", ["* The tags"]))];
        JSON.t_methods :=
          [("GetName",
            {| JSON.m_name := "GetName";
               JSON.m_return := Some "FString";
               JSON.m_args := None;
               JSON.m_doc := None;
               JSON.m_isConstructor := None;
               JSON.m_const := Some true;
               JSON.m_event := None |})];
        JSON.t_subtypes := None;
        JSON.t_supertype := Some "UObject";
        JSON.t_inherits := None;
        JSON.t_doc := Some "An actor.";
        JSON.t_isStruct := None;
        JSON.t_isEnum := None |});
    ("TArray",
     {| JSON.t_properties := [];
        JSON.t_methods := [];
        JSON.t_subtypes := Some ["T"];
        JSON.t_supertype := None;
        JSON.t_inherits := None;
        JSON.t_doc := None;
        JSON.t_isStruct := Some true;
        JSON.t_isEnum := None |}) ].

(** The namespace [__Math] at address 0, shadowed by the type [Math] at
    address 1, and the namespace [__System] at address 2, which no type
    shadows. *)
Definition namespaces : Registry :=
  {| heap := [plain "__Math"; plain "Math"; plain "__System"];
     database := {[ "__Math" := 0; "Math" := 1; "__System" := 2 ]} |}.

Definition derived (name : string) (supertype : option string)
    (siblings : option (list string)) (methods : list DBMethod.t)
    : DBType.t :=
  {| DBType.typename := name;
     DBType.supertype := supertype;
     DBType.properties := [];
     DBType.methods := methods;
     DBType.unrealsuper := None;
     DBType.documentation := None;
     DBType.isStruct := Some false;
     DBType.isNS := None;
     DBType.isEnum := Some false;
     DBType.rawName := None;
     DBType.namespaceResolved := None;
     DBType.shadowedNamespace := None;
     DBType.isDelegate := false;
     DBType.isEvent := false;
     DBType.isPrimitive := false;
     DBType.declaredModule := None;
     DBType.siblingTypes := siblings;
     DBType.subTypes := None |}.

(** [A] extends [B] and [B] extends [A]; [B] also names itself and [A]
    as siblings. *)
Definition cyclic : Registry :=
  {| heap := [derived "A" (Some "B") None [];
              derived "B" (Some "A") (Some ["B"; "A"]) []];
     database := {[ "A" := 0; "B" := 1 ]} |}.

(** [C] (address 0) has the supertype [S] (address 1) and the siblings
    [X] (address 2) and [Y] (address 3); [X] and [Y] declare [bar], and
    [S] declares the methods given. *)
Definition mixins (S_methods : list DBMethod.t) : Registry :=
  {| heap := [derived "C" (Some "S") (Some ["X"; "Y"])
                [method "foo" "void" []];
              derived "S" None None S_methods;
              derived "X" None None [method "bar" "int" []];
              derived "Y" None None [method "bar" "float" []]];
     database := {[ "C" := 0; "S" := 1; "X" := 2; "Y" := 3 ]} |}.

(** [S] declares no [bar]. *)
Definition mixins_plain : Registry :=
  mixins [method "baz" "void" []].

(** [S] declares [bar] too. *)
Definition mixins_shadowed : Registry :=
  mixins [method "bar" "double" []].


(** [Circle] extends [Shape]; both declare a property [name] and a
    method [Area], [Circle] with two overloads of [Scale]. *)
Definition Circle : DBType.t :=
       {| DBType.typename := "Circle";
            DBType.supertype := Some "Shape";
            DBType.properties :=
              [ {| DBProperty.name := "radius";
                   DBProperty.typename := "float";
                   DBProperty.documentation := None;
                   DBProperty.isProtected := Some false;
                   DBProperty.isPrivate := Some false |};
                {| DBProperty.name := "name";
                   DBProperty.typename := "FString";
                   DBProperty.documentation := None;
                   DBProperty.isProtected := Some false;
                   DBProperty.isPrivate := Some false |} ];
            DBType.methods :=
              [ method "Scale" "void"
                  [ {| DBArg.name := Some "factor";
                       DBArg.typename := "float";
                       DBArg.defaultvalue := None |} ];
                method "Area" "float" [];
                method "Scale" "void"
                  [ {| DBArg.name := Some "x";
                       DBArg.typename := "float";
                       DBArg.defaultvalue := None |};
                    {| DBArg.name := Some "y";
                       DBArg.typename := "float";
                       DBArg.defaultvalue := Some "1.0" |} ] ];
            DBType.unrealsuper := None;
            DBType.documentation := None;
            DBType.isStruct := Some false;
            DBType.isNS := None;
            DBType.isEnum := Some false;
            DBType.rawName := None;
            DBType.namespaceResolved := None;
            DBType.shadowedNamespace := None;
            DBType.isDelegate := false;
            DBType.isEvent := false;
            DBType.isPrimitive := false;
            DBType.declaredModule := Some "geometry";
            DBType.siblingTypes := None;
            DBType.subTypes := None |}.

Definition Shape : DBType.t :=
         {| DBType.typename := "Shape";
            DBType.supertype := None;
            DBType.properties :=
              [ {| DBProperty.name := "name";
                   DBProperty.typename := "FName";
                   DBProperty.documentation := None;
                   DBProperty.isProtected := Some false;
                   DBProperty.isPrivate := Some false |};
                {| DBProperty.name := "id";
                   DBProperty.typename := "int";
                   DBProperty.documentation := None;
                   DBProperty.isProtected := Some false;
                   DBProperty.isPrivate := Some false |} ];
            DBType.methods :=
              [ method "Area" "double" [];
                method "Describe" "FString" [] ];
            DBType.unrealsuper := None;
            DBType.documentation := None;
            DBType.isStruct := Some false;
            DBType.isNS := None;
            DBType.isEnum := Some false;
            DBType.rawName := None;
            DBType.namespaceResolved := None;
            DBType.shadowedNamespace := None;
            DBType.isDelegate := false;
            DBType.isEvent := false;
            DBType.isPrimitive := false;
            DBType.declaredModule := Some "geometry";
            DBType.siblingTypes := None;
            DBType.subTypes := None |}.

(** [Circle] at address 0 and [Shape] at address 1. *)
Definition shapes : Registry :=
  {| heap := [Circle; Shape];
     database := {[ "Circle" := 0; "Shape" := 1 ]} |}.

(** The two types of [cyclic], which extend each other, and a third type
    [Z] (address 2) that neither extends. *)
Definition cyclic_and_other : Registry :=
  {| heap := [derived "A" (Some "B") None [];
              derived "B" (Some "A") (Some ["B"; "A"]) [];
              plain "Z"];
     database := {[ "A" := 0; "B" := 1; "Z" := 2 ]} |}.

(** The description of [AActor] in [dump]. *)
Definition AActor_desc : JSON.type :=
  {| JSON.t_properties := [("Tags", ("TArray<FName>", ["* The tags"]))];
     JSON.t_methods :=
       [("GetName",
         {| JSON.m_name := "GetName";
            JSON.m_return := Some "FString";
            JSON.m_args := None;
            JSON.m_doc := None;
            JSON.m_isConstructor := None;
            JSON.m_const := Some true;
            JSON.m_event := None |})];
     JSON.t_subtypes := None;
     JSON.t_supertype := Some "UObject";
     JSON.t_inherits := None;
     JSON.t_doc := Some "An actor.";
     JSON.t_isStruct := None;
     JSON.t_isEnum := None |}.

(** The registry after the engine's [dump] is ingested into an empty
    one: [AActor] at address 0 and [TArray] at address 1. *)
Definition ingested : Registry :=
  Eval vm_compute in
    match AddTypesFromUnreal dump {| heap := []; database := ∅ |} with
    | Some (_, s') => s'
    | None => {| heap := []; database := ∅ |}
    end.

(** The registry after the first lookup of [Array<int>]: the instance
    is at address 2. *)
Definition instantiated : Registry :=
  Eval vm_compute in
    match GetType "Array<int>" generic with
    | Some (_, s') => s'
    | None => generic
    end.
(** The registry after a second instantiation, of [Array<Array>]: the
    new instance is at address 3. *)
Definition instantiated_twice : Registry :=
  Eval vm_compute in
    match GetType "Array<Array>" instantiated with
    | Some (_, s') => s'
    | None => instantiated
    end.


(** The generic namespace [__X] with one placeholder. *)
Definition generic_namespace : DBType.t :=
  {| DBType.typename := "__X";
     DBType.supertype := None;
     DBType.properties := [];
     DBType.methods := [];
     DBType.unrealsuper := None;
     DBType.documentation := None;
     DBType.isStruct := None;
     DBType.isNS := None;
     DBType.isEnum := None;
     DBType.rawName := None;
     DBType.namespaceResolved := None;
     DBType.shadowedNamespace := None;
     DBType.isDelegate := false;
     DBType.isEvent := false;
     DBType.isPrimitive := false;
     DBType.declaredModule := None;
     DBType.siblingTypes := None;
     DBType.subTypes := Some ["T"] |}.

(** [__X] at address 0, shadowed by the type [X] at address 1. *)
Definition ns_generic : Registry :=
  {| heap := [generic_namespace; plain "X"];
     database := {[ "__X" := 0; "X" := 1 ]} |}.

(** The registry after [__X] has been asked whether it is a shadowed
    namespace. *)
Definition ns_queried : Registry :=
  Eval vm_compute in
    match isShadowedNamespace 0 ns_generic with
    | Some (_, s') => s'
    | None => ns_generic
    end.

(** Then after the lookup of [__X<int>]: the instance is at address 2. *)
Definition ns_instantiated : Registry :=
  Eval vm_compute in
    match GetType "__X<int>" ns_queried with
    | Some (_, s') => s'
    | None => ns_queried
    end.

(** Then after the lookup of [a.__X<int>]: the instance is at address 3. *)
Definition ns_dotted : Registry :=
  Eval vm_compute in
    match GetType "a.__X<int>" ns_instantiated with
    | Some (_, s') => s'
    | None => ns_instantiated
    end.
End Sample.

(** * Properties *)

(** ** Strings *)

Example CleanTypeName_decorated :
  CleanTypeName "  const Array<int> &" = "Array<int>" ∧
  CleanTypeName "AActor@" = "AActor" ∧
  CleanTypeName "const FVector & @ " = "FVector &" ∧
  CleanTypeName "int" = "int".
Proof. by split_and!. Qed.

Example re_template_match_samples :
  re_template_match "Array<int>" = Some ("Array", "int") ∧
  re_template_match "Map< FName , int >" = Some ("Map", " FName , int ") ∧
  re_template_match "Array<Array<int>>" = Some ("Array", "int") ∧
  re_template_match "Outer::Inner<T>" = Some ("Inner", "T") ∧
  re_template_match "Array<int" = None ∧
  re_template_match "Array<>" = None ∧
  re_template_match "<int>" = None.
Proof. by split_and!. Qed.

Example split_comma_samples :
  map trim (split_comma " FName , int ") = ["FName"; "int"] ∧
  map trim (split_comma "int,") = ["int"; ""] ∧
  split_comma "" = [""].
Proof. by split_and!. Qed.

Example FormatDocumentationComment_samples :
  FormatDocumentationComment
    ("*" ++ String "010" " * Hello" ++ String "010" " * World")
  = "Hello" ++ String "010" "World" ∧
  FormatDocumentationComment ("  **  " ++ String "013" (String "010" "Hi  "))
  = "Hi" ∧
  FormatDocumentationComment "  plain text " = "plain text".
Proof. by split_and!. Qed.

(** Facts about one character class [p]. *)
Section CharClass.
Variable p : ascii → bool.

Lemma span_spec s a b :
  span p s = (a, b) → s = a ++ b ∧ str_all p a = true.
Proof.
  revert a b. induction s as [|c s IH]; simpl; intros a b H.
  - by inversion H.
  - destruct (p c) eqn:Hc.
    + destruct (span p s) as [a' b'] eqn:Hs. inversion H; subst.
      destruct (IH _ _ eq_refl) as [-> Ha]. simpl. by rewrite Hc, Ha.
    + by inversion H.
Qed.

Lemma span_all a b :
  str_all p a = true →
  (match b with String c _ => p c = false | EmptyString => True end) →
  span p (a ++ b) = (a, b).
Proof.
  intros Ha Hb. induction a as [|c a IH]; simpl in *.
  - destruct b as [|c b]; simpl; [done|]. by rewrite Hb.
  - apply andb_prop in Ha as [-> Ha]. by rewrite (IH Ha).
Qed.

Lemma str_all_app a b :
  str_all p (a ++ b) = str_all p a && str_all p b.
Proof.
  induction a as [|c a IH]; [done|].
  change (str_all p (String c a ++ b)) with (p c && str_all p (a ++ b)).
  rewrite IH. cbn [str_all]. by rewrite andb_assoc.
Qed.

Lemma prefix_all pre s :
  startsWith pre s = true → str_all p s = true → str_all p pre = true.
Proof.
  unfold startsWith.
  revert s. induction pre as [|c pre IH]; intros [|d s]; simpl; try done.
  destruct (ascii_dec c d) as [->|]; [|done].
  intros Hp [Hd Hs]%andb_prop. rewrite Hd. simpl. eauto.
Qed.

Lemma endsWith_all suf s :
  endsWith suf s = true → str_all p s = true → str_all p suf = true.
Proof.
  induction s as [|c s IH]; cbn [endsWith].
  - rewrite orb_false_r. by intros <-%String.eqb_eq.
  - intros [<-%String.eqb_eq|H]%orb_prop Hs; [done|].
    simpl in Hs. apply andb_prop in Hs as [_ Hs]. eauto.
Qed.

End CharClass.

Lemma str_all_impl (p q : ascii → bool) s :
  (∀ c, p c = true → q c = true) → str_all p s = true → str_all q s = true.
Proof.
  intros Hpq. induction s as [|c s IH]; simpl; [done|].
  intros [Hc Hs]%andb_prop. by rewrite (Hpq _ Hc), IH.
Qed.

Lemma trimEnd_id s :
  str_all (λ c, negb (is_ws c)) s = true → trimEnd s = s.
Proof.
  induction s as [|c s IH]; simpl; [done|].
  intros [Hc Hs]%andb_prop. rewrite (IH Hs).
  destruct s; [|done]. by apply negb_true_iff in Hc as ->.
Qed.

Lemma trimStart_id s :
  str_all (λ c, negb (is_ws c)) s = true → trimStart s = s.
Proof.
  destruct s as [|c s]; simpl; [done|].
  by intros [->%negb_true_iff _]%andb_prop.
Qed.

Lemma is_word_not_ws c : is_word c = true → negb (is_ws c) = true.
Proof. by destruct c as [[] [] [] [] [] [] [] []]. Qed.

Lemma is_word_not_lt c : is_word c = true → Ascii.eqb "<" c = false.
Proof. by destruct c as [[] [] [] [] [] [] [] []]. Qed.

Lemma word_no_lt w : str_all is_word w = true → contains_char "<" w = false.
Proof.
  induction w as [|c w IH]; cbn [contains_char str_all]; [done|].
  intros [Hc Hw]%andb_prop. by rewrite (is_word_not_lt _ Hc), IH.
Qed.

(** Cleaning leaves a run of word characters as it is. *)
Lemma CleanTypeName_word w : str_all is_word w = true → CleanTypeName w = w.
Proof.
  intros Hw. unfold CleanTypeName, trim.
  assert (Hns : str_all (λ c, negb (is_ws c)) w = true)
    by (eapply str_all_impl; [apply is_word_not_ws|done]).
  rewrite (trimEnd_id _ Hns), (trimStart_id _ Hns).
  destruct (startsWith "const " w) eqn:H1.
  { by pose proof (prefix_all is_word _ _ H1 Hw). }
  destruct (endsWith "&" w) eqn:H2.
  { by pose proof (endsWith_all is_word _ _ H2 Hw). }
  destruct (endsWith "@" w) eqn:H3.
  { by pose proof (endsWith_all is_word _ _ H3 Hw). }
  done.
Qed.

Lemma re_template_at_word s w a :
  re_template_at s = Some (w, a) → str_all is_word w = true.
Proof.
  unfold re_template_at. destruct (span is_word s) as [w' r] eqn:Hs.
  apply span_spec in Hs as [_ Hw].
  destruct (String.eqb w' ""); [done|].
  destruct r as [|c r]; [done|].
  destruct (ascii_dec c "<") as [->|Hne].
  - destruct (span is_targ r) as [a' r'']. destruct (String.eqb a' ""); [done|].
    destruct r'' as [|d r'']; [done|].
    destruct (ascii_dec d ">") as [->|Hne]; [by inversion 1; subst|].
    by destruct d as [[] [] [] [] [] [] [] []].
  - by destruct c as [[] [] [] [] [] [] [] []].
Qed.

Lemma re_template_match_word s w a :
  re_template_match s = Some (w, a) → str_all is_word w = true.
Proof.
  induction s as [|c s IH]; cbn [re_template_match];
    (destruct (re_template_at _) as [[??]|] eqn:H;
     [inversion 1; subst; by eapply re_template_at_word|done]).
Qed.

(** ** [GetType] *)

Ltac unfold_M :=
  unfold bind, ret, throw, out_of_fuel, deref, alloc, update,
    database_get, database_set in *.

(** A base name (a run of word characters) is looked up in the map and
    nothing else happens, with any fuel but none. *)
Lemma GetType_fuel_word n w s :
  str_all is_word w = true →
  GetType_fuel (S n) w s = Some (Normal (database s !! w), s).
Proof.
  intros Hw. cbn [GetType_fuel]. rewrite (CleanTypeName_word _ Hw).
  unfold_M. destruct (database s !! w); [done|].
  by rewrite (word_no_lt _ Hw).
Qed.

Lemma GetType_fuel_S n typename :
  GetType_fuel (S n) typename =
  let typename := CleanTypeName typename in
  let* foundType := database_get typename in
  match foundType with
  | Some found => ret (Some found)
  | None =>
      if contains_char "<" typename then
        match re_template_match typename with
        | Some (basetype, args) =>
            let subtypes := map trim (split_comma args) in
            let* dbbasetype := GetType_fuel n basetype in
            match dbbasetype with
            | None => ret None
            | Some base =>
                let* inst := DBType_createTemplateInstance base subtypes in
                match inst with
                | None => throw
                | Some i =>
                    update i (DBType.set_typename typename) ;;;
                    database_set typename i ;;;
                    ret (Some i)
                end
            end
        | None => ret None
        end
      else ret None
  end.
Proof. reflexivity. Qed.

(** [GetType] with its inner call resolved. *)
Lemma GetType_fuel_unfold n name s :
  GetType_fuel (S (S n)) name s =
  let k := CleanTypeName name in
  match database s !! k with
  | Some a => Some (Normal (Some a), s)
  | None =>
      if contains_char "<" k then
        match re_template_match k with
        | Some (base, args) =>
            match database s !! base with
            | None => Some (Normal None, s)
            | Some b =>
                (let* inst := DBType_createTemplateInstance b
                                (map trim (split_comma args)) in
                 match inst with
                 | None => throw
                 | Some i =>
                     update i (DBType.set_typename k) ;;;
                     database_set k i ;;;
                     ret (Some i)
                 end) s
            end
        | None => Some (Normal None, s)
        end
      else Some (Normal None, s)
  end.
Proof.
  rewrite GetType_fuel_S. cbv zeta.
  unfold bind at 1. unfold database_get at 1.
  destruct (database s !! CleanTypeName name); [done|].
  destruct (contains_char "<" (CleanTypeName name)); [|done].
  destruct (re_template_match (CleanTypeName name)) as [[base args]|] eqn:Hm;
    [|done].
  unfold bind at 1.
  rewrite (GetType_fuel_word n base s (re_template_match_word _ _ _ Hm)).
  by destruct (database s !! base).
Qed.

(** More fuel changes nothing. *)
Lemma GetType_fuel_enough n name s :
  GetType_fuel (S (S n)) name s = GetType name s.
Proof. unfold GetType. by rewrite !GetType_fuel_unfold. Qed.

(** ** [createTemplateInstance] *)

Lemma ReplaceTemplateType_loop_defined t (templ actual : list string) i :
  (i + length templ ≤ length actual)%nat →
  is_Some (ReplaceTemplateType_loop t templ actual i).
Proof.
  revert i. induction templ as [|p templ IH]; simpl; intros i Hi; [by eexists|].
  destruct (String.eqb t p).
  - apply lookup_lt_is_Some. lia.
  - apply IH. lia.
Qed.

Lemma ReplaceTemplateType_defined t templ actual :
  length actual = length templ →
  is_Some (ReplaceTemplateType t templ actual).
Proof. intros H. apply ReplaceTemplateType_loop_defined. lia. Qed.

(** Past the length guard every member of the base has an instance. *)
Lemma createTemplateInstance_members subs actual
    (props : list DBProperty.t) (mths : list DBMethod.t) :
  length actual = length subs →
  is_Some (mapM (DBProperty.createTemplateInstance subs actual) props) ∧
  is_Some (mapM (DBMethod.createTemplateInstance subs actual) mths).
Proof.
  intros Hlen. split; apply mapM_is_Some, Forall_forall; intros x _; simpl.
  - unfold DBProperty.createTemplateInstance.
    by destruct (ReplaceTemplateType_defined (DBProperty.typename x) _ _ Hlen)
      as [? ->].
  - unfold DBMethod.createTemplateInstance.
    destruct (ReplaceTemplateType_defined (DBMethod.returnType x) _ _ Hlen)
      as [? ->]; simpl.
    assert (is_Some (mapM (DBArg.createTemplateInstance subs actual)
                          (DBMethod.args x))) as [? ->]; [|done].
    apply mapM_is_Some, Forall_forall. intros a _. simpl.
    unfold DBArg.createTemplateInstance.
    by destruct (ReplaceTemplateType_defined (DBArg.typename a) _ _ Hlen)
      as [? ->].
Qed.

Lemma createTemplateInstance_ok s b B subs actual :
  heap s !! b = Some B →
  DBType.subTypes B = Some subs →
  length actual = length subs →
  ∃ props mths,
    mapM (DBProperty.createTemplateInstance subs actual) (DBType.properties B)
      = Some props ∧
    mapM (DBMethod.createTemplateInstance subs actual) (DBType.methods B)
      = Some mths ∧
    DBType_createTemplateInstance b actual s =
      Some (Normal (Some (length (heap s))),
            {| heap := heap s ++ [DBType_instance B props mths];
               database := database s |}).
Proof.
  intros Hb Hsubs Hlen.
  destruct (createTemplateInstance_members subs actual (DBType.properties B)
              (DBType.methods B) Hlen) as [[props Hp] [mths Hm]].
  exists props, mths. split_and!; [done..|].
  unfold DBType_createTemplateInstance. unfold_M. rewrite Hb, Hsubs, Hp, Hm.
  by rewrite Hlen, Nat.eqb_refl.
Qed.

Lemma createTemplateInstance_mismatch s b B subs actual :
  heap s !! b = Some B →
  DBType.subTypes B = Some subs →
  length actual ≠ length subs →
  DBType_createTemplateInstance b actual s = Some (Normal None, s).
Proof.
  intros Hb Hsubs Hlen.
  unfold DBType_createTemplateInstance. unfold_M. rewrite Hb, Hsubs.
  by apply Nat.eqb_neq in Hlen as ->.
Qed.

Lemma createTemplateInstance_no_subTypes s b B actual :
  heap s !! b = Some B →
  DBType.subTypes B = None →
  DBType_createTemplateInstance b actual s = Some (TypeError, s).
Proof.
  intros Hb Hsubs.
  unfold DBType_createTemplateInstance. unfold_M. by rewrite Hb, Hsubs.
Qed.

(** The state a successful instantiation leaves. *)
Lemma GetType_instantiates name s base args b B subs :
  let k := CleanTypeName name in
  let actual := map trim (split_comma args) in
  database s !! k = None →
  contains_char "<" k = true →
  re_template_match k = Some (base, args) →
  database s !! base = Some b →
  heap s !! b = Some B →
  DBType.subTypes B = Some subs →
  length actual = length subs →
  ∃ inst,
    template_instance B actual k = Some inst ∧
    GetType name s =
      Some (Normal (Some (length (heap s))),
            {| heap := heap s ++ [inst];
               database := <[k := length (heap s)]> (database s) |}).
Proof.
  intros k actual Hk Hlt Hm Hbase Hb Hsubs Hlen. subst actual.
  destruct (createTemplateInstance_ok s b B subs _ Hb Hsubs Hlen)
    as (props & mths & Hp & Hmt & Hc).
  exists (DBType.set_typename k (DBType_instance B props mths)). split.
  { unfold template_instance. rewrite Hsubs. simpl. by rewrite Hp, Hmt. }
  unfold GetType. rewrite GetType_fuel_unfold. cbv zeta. fold k.
  rewrite Hk, Hlt, Hm, Hbase. unfold bind at 1. rewrite Hc.
  unfold_M. cbn [heap database].
  rewrite lookup_app_r, Nat.sub_diag by done. cbn [lookup list_lookup].
  do 3 f_equal. f_equal.
  rewrite insert_app_r_alt, Nat.sub_diag by done. done.
Qed.

Lemma re_template_at_lt s w a :
  re_template_at s = Some (w, a) → contains_char "<" s = true.
Proof.
  unfold re_template_at. destruct (span is_word s) as [w' r] eqn:Hs.
  apply span_spec in Hs as [-> _].
  destruct (String.eqb w' ""); [done|].
  destruct r as [|c r]; [done|].
  destruct (ascii_dec c "<") as [->|Hne].
  - intros _. clear. induction w' as [|d w' IH].
    + done.
    + change (contains_char "<" (String d w' ++ String "<" r))
        with (Ascii.eqb "<" d || contains_char "<" (w' ++ String "<" r)).
      by rewrite IH, orb_true_r.
  - by destruct c as [[] [] [] [] [] [] [] []].
Qed.

Lemma re_template_match_lt s w a :
  re_template_match s = Some (w, a) → contains_char "<" s = true.
Proof.
  induction s as [|c s IH]; cbn [re_template_match];
    (destruct (re_template_at _) as [[??]|] eqn:H;
     [intros _; by eapply re_template_at_lt|]); [done|].
  intros Hm. cbn [contains_char]. by rewrite (IH Hm), orb_true_r.
Qed.

(** [GetType] always returns, in one of the four ways. *)
Lemma GetType_cases name s :
  ∃ r s', GetType name s = Some (r, s') ∧ GetType_outcome name s r s'.
Proof.
  unfold GetType. rewrite GetType_fuel_unfold. cbv zeta.
  destruct (database s !! CleanTypeName name) as [a|] eqn:Hk.
  { eexists _, _. split; [done|]. by constructor. }
  destruct (contains_char "<" (CleanTypeName name)) eqn:Hlt;
    [|eexists _, _; split; [done|by constructor]].
  destruct (re_template_match (CleanTypeName name)) as [[base args]|] eqn:Hm;
    [|eexists _, _; split; [done|by constructor]].
  destruct (database s !! base) as [b|] eqn:Hbase;
    [|eexists _, _; split; [done|by constructor]].
  destruct (heap s !! b) as [B|] eqn:Hb.
  2:{ unfold DBType_createTemplateInstance. unfold_M. rewrite Hb.
      eexists _, _; split; [done|by constructor]. }
  destruct (DBType.subTypes B) as [subs|] eqn:Hsubs.
  2:{ unfold bind at 1.
      rewrite (createTemplateInstance_no_subTypes _ _ _ _ Hb Hsubs).
      eexists _, _; split; [done|by constructor]. }
  destruct (decide (length (map trim (split_comma args)) = length subs))
    as [Hlen|Hlen].
  - destruct (GetType_instantiates name s base args b B subs
                Hk Hlt Hm Hbase Hb Hsubs Hlen) as (inst & Hinst & HG).
    unfold GetType in HG. rewrite GetType_fuel_unfold in HG. cbv zeta in HG.
    rewrite Hk, Hlt, Hm, Hbase in HG. rewrite HG.
    eexists _, _; split; [done|]. by econstructor.
  - unfold bind at 1.
    rewrite (createTemplateInstance_mismatch _ _ _ _ _ Hb Hsubs Hlen).
    eexists _, _; split; [done|by constructor].
Qed.

(** C1: a lookup whose argument count differs from the placeholder count
    of the resolved base type does not return [null]: the assignment
    [inst.typename = typename] comes before the test of [inst] and raises
    a [TypeError]; the registry is as it was. *)
Theorem GetType_count_mismatch_raises name s base args b B subs :
  database s !! CleanTypeName name = None →
  re_template_match (CleanTypeName name) = Some (base, args) →
  database s !! base = Some b →
  heap s !! b = Some B →
  DBType.subTypes B = Some subs →
  length (map trim (split_comma args)) ≠ length subs →
  GetType name s = Some (TypeError, s).
Proof.
  intros Hk Hm Hbase Hb Hsubs Hlen.
  unfold GetType. rewrite GetType_fuel_unfold. cbv zeta.
  rewrite Hk, (re_template_match_lt _ _ _ Hm), Hm, Hbase.
  unfold bind at 1.
  by rewrite (createTemplateInstance_mismatch _ _ _ _ _ Hb Hsubs Hlen).
Qed.

Lemma GetType_count_mismatch_raises_witness :
  database Sample.generic !! CleanTypeName "Array<int,float>" = None ∧
  re_template_match (CleanTypeName "Array<int,float>")
    = Some ("Array", "int,float") ∧
  database Sample.generic !! "Array" = Some 0 ∧
  heap Sample.generic !! 0 = Some Sample.Array_T ∧
  DBType.subTypes Sample.Array_T = Some ["T"] ∧
  length (map trim (split_comma "int,float")) ≠ length ["T"] ∧
  GetType "Array<int,float>" Sample.generic
    = Some (TypeError, Sample.generic).
Proof.
  assert (H1 : database Sample.generic !! CleanTypeName "Array<int,float>"
               = None) by reflexivity.
  assert (H2 : re_template_match (CleanTypeName "Array<int,float>")
               = Some ("Array", "int,float")) by reflexivity.
  assert (H3 : database Sample.generic !! "Array" = Some 0) by reflexivity.
  assert (H4 : heap Sample.generic !! 0 = Some Sample.Array_T) by reflexivity.
  assert (H5 : DBType.subTypes Sample.Array_T = Some ["T"]) by reflexivity.
  assert (H6 : length (map trim (split_comma "int,float")) ≠ length ["T"])
    by (vm_compute; lia).
  split_and!; try assumption.
  exact (GetType_count_mismatch_raises _ _ _ _ _ _ _ H1 H2 H3 H4 H5 H6).
Defined.

(** A lookup that misses the map and still returns an object has
    instantiated a template: the shape of the base and of the new state. *)
Lemma GetType_instantiation_inv name s a s' :
  database s !! CleanTypeName name = None →
  GetType name s = Some (Normal (Some a), s') →
  ∃ base args b B subs props mths,
    let actual := map trim (split_comma args) in
    re_template_match (CleanTypeName name) = Some (base, args) ∧
    database s !! base = Some b ∧
    heap s !! b = Some B ∧
    DBType.subTypes B = Some subs ∧
    mapM (DBProperty.createTemplateInstance subs actual) (DBType.properties B)
      = Some props ∧
    mapM (DBMethod.createTemplateInstance subs actual) (DBType.methods B)
      = Some mths ∧
    a = length (heap s) ∧
    s' = {| heap := heap s ++
              [DBType.set_typename (CleanTypeName name)
                 (DBType_instance B props mths)];
            database := <[CleanTypeName name := a]> (database s) |}.
Proof.
  intros Hk HG.
  destruct (GetType_cases name s) as (r & s1 & HG' & Hout).
  rewrite HG in HG'. inversion HG'; subst r s1; clear HG'.
  inversion Hout as [a' Hhit| | |base args b B inst _ Hm Hbase Hb Hinst];
    subst; [congruence|].
  unfold template_instance in Hinst.
  destruct (DBType.subTypes B) as [subs|] eqn:Hsubs; [|done].
  cbn [mbind option_bind] in Hinst.
  destruct (mapM (DBProperty.createTemplateInstance _ _) _)
    as [props|] eqn:Hp; [|done].
  cbn [mbind option_bind] in Hinst.
  destruct (mapM (DBMethod.createTemplateInstance _ _) _)
    as [mths|] eqn:Hmt; [|done].
  cbn [mbind option_bind] in Hinst. inversion Hinst; subst inst; clear Hinst.
  by exists base, args, b, B, subs, props, mths.
Qed.

(** Lookups never take an entry out of the [database], nor rebind it. *)
Lemma lookup_steps_keep_entry s s2 k a :
  database s !! k = Some a → rtc lookup_step s s2 →
  database s2 !! k = Some a.
Proof.
  intros Hk Hsteps. induction Hsteps as [s|s s1 s2 (name & r & HG) _ IH];
    [done|].
  apply IH. destruct (GetType_cases name s) as (r1 & s1' & HG' & Hout).
  rewrite HG in HG'. inversion HG'; subst r1 s1'; clear HG'.
  inversion Hout as [| | |base args b B inst Hmiss]; subst; try done.
  cbn [database]. rewrite lookup_insert_ne; [done|]. intros <-. congruence.
Qed.

(** C2, as the code has it: when a lookup is answered by template
    instantiation, the new object is a fresh one, it is entered in the
    [database] under the cleaned queried name (the queried name itself
    when cleaning does not change it), and as long as the registry is
    changed by lookups only, of whatever names, a further lookup of the
    same name returns the same object and leaves the registry as it is
    (nothing is instantiated again), with any fuel. *)
Theorem GetType_instance_cached name s a s' :
  database s !! CleanTypeName name = None →
  GetType name s = Some (Normal (Some a), s') →
  a = length (heap s) ∧
  length (heap s') = S (length (heap s)) ∧
  database s' = <[CleanTypeName name := a]> (database s) ∧
  database s' !! CleanTypeName name = Some a ∧
  (CleanTypeName name = name → database s' !! name = Some a) ∧
  ∀ s2, rtc lookup_step s' s2 →
        ∀ n, GetType_fuel (S n) name s2 = Some (Normal (Some a), s2).
Proof.
  intros Hk HG.
  destruct (GetType_instantiation_inv name s a s' Hk HG)
    as (base & args & b & B & subs & props & mths & _ & _ & _ & _ & _ & _
        & -> & ->).
  cbn [heap database]. rewrite length_app. cbn [length].
  split_and!; [done|lia|done|apply lookup_insert_eq| |].
  { intros Heq. rewrite Heq. apply lookup_insert_eq. }
  intros s2 Hsteps n. rewrite GetType_fuel_S. cbv zeta. unfold_M.
  assert (Hkeep : database s2 !! CleanTypeName name = Some (length (heap s))).
  { eapply lookup_steps_keep_entry; [|exact Hsteps].
    cbn [database]. apply lookup_insert_eq. }
  by rewrite Hkeep.
Qed.

Lemma GetType_instance_cached_witness :
  database Sample.generic !! CleanTypeName "Array<int>" = None ∧
  GetType "Array<int>" Sample.generic
    = Some (Normal (Some 2), Sample.instantiated) ∧
  database Sample.instantiated !! "Array<int>" = Some 2 ∧
  GetType "Array<int>" Sample.instantiated
    = Some (Normal (Some 2), Sample.instantiated) ∧
  GetType "Array<Array>" Sample.instantiated
    = Some (Normal (Some 3), Sample.instantiated_twice) ∧
  GetType "Array<int>" Sample.instantiated_twice
    = Some (Normal (Some 2), Sample.instantiated_twice).
Proof.
  assert (H1 : database Sample.generic !! CleanTypeName "Array<int>" = None)
    by reflexivity.
  assert (H2 : GetType "Array<int>" Sample.generic
               = Some (Normal (Some 2), Sample.instantiated))
    by (vm_compute; reflexivity).
  assert (H3 : GetType "Array<Array>" Sample.instantiated
               = Some (Normal (Some 3), Sample.instantiated_twice))
    by (vm_compute; reflexivity).
  pose proof (GetType_instance_cached _ _ _ _ H1 H2)
    as (_ & _ & _ & _ & H5 & H6).
  split_and!; [exact H1|exact H2|exact (H5 eq_refl)| |exact H3|].
  - exact (H6 _ (rtc_refl _ _) 1).
  - refine (H6 Sample.instantiated_twice _ 1).
    apply rtc_once. exists "Array<Array>", (Normal (Some 3)). exact H3.
Defined.

(** C2 as stated fails: the lookup of [const Array<int>&] (the type of a
    parameter, say) instantiates the template, and the registry then has
    no entry under the queried name: the instance is under [Array<int>].
    A second lookup of [const Array<int>&] returns the same object. *)
Lemma instance_not_under_decorated_name :
  ∃ s',
    database Sample.generic !! CleanTypeName "const Array<int>&" = None ∧
    GetType "const Array<int>&" Sample.generic
      = Some (Normal (Some 2), s') ∧
    database s' !! "const Array<int>&" = None ∧
    database s' !! "Array<int>" = Some 2 ∧
    GetType "const Array<int>&" s' = Some (Normal (Some 2), s').
Proof.
  eexists. split; [reflexivity|].
  split; [vm_compute; reflexivity|].
  split; [reflexivity|]. split; [reflexivity|].
  vm_compute. reflexivity.
Qed.

(** A base without a placeholder list raises too, at
    [this.subTypes.length]. *)
Lemma GetType_no_placeholders_raises name s base args b B :
  database s !! CleanTypeName name = None →
  re_template_match (CleanTypeName name) = Some (base, args) →
  database s !! base = Some b →
  heap s !! b = Some B →
  DBType.subTypes B = None →
  GetType name s = Some (TypeError, s).
Proof.
  intros Hk Hm Hbase Hb Hsubs.
  unfold GetType. rewrite GetType_fuel_unfold. cbv zeta.
  rewrite Hk, (re_template_match_lt _ _ _ Hm), Hm, Hbase.
  unfold bind at 1.
  by rewrite (createTemplateInstance_no_subTypes _ _ _ _ Hb Hsubs).
Qed.

Example GetType_int_of_float_raises :
  GetType "int<float>" Sample.generic = Some (TypeError, Sample.generic).
Proof.
  by apply (GetType_no_placeholders_raises _ _ "int" "float" 1
              (Sample.plain "int")).
Qed.

(** ** Names of the form [base<arg>] *)

Lemma generic_name_chars base arg :
  str_all is_word base = true → str_all is_word arg = true →
  str_all is_generic_char (generic_name base arg) = true.
Proof.
  intros Hb Ha. unfold generic_name. rewrite !str_all_app.
  rewrite (str_all_impl is_word is_generic_char base), 
          (str_all_impl is_word is_generic_char arg); try done;
    intros c Hc; unfold is_generic_char; by rewrite Hc.
Qed.

Lemma is_generic_char_not_ws c :
  is_generic_char c = true → negb (is_ws c) = true.
Proof. by destruct c as [[] [] [] [] [] [] [] []]. Qed.

Lemma CleanTypeName_generic_name base arg :
  str_all is_word base = true → str_all is_word arg = true →
  CleanTypeName (generic_name base arg) = generic_name base arg.
Proof.
  intros Hb Ha. pose proof (generic_name_chars _ _ Hb Ha) as Hg.
  set (g := generic_name base arg) in *.
  assert (Hns : str_all (λ c, negb (is_ws c)) g = true)
    by (eapply str_all_impl; [apply is_generic_char_not_ws|done]).
  unfold CleanTypeName, trim.
  rewrite (trimEnd_id _ Hns), (trimStart_id _ Hns).
  destruct (startsWith "const " g) eqn:H1.
  { by pose proof (prefix_all is_generic_char _ _ H1 Hg). }
  destruct (endsWith "&" g) eqn:H2.
  { by pose proof (endsWith_all is_generic_char _ _ H2 Hg). }
  destruct (endsWith "@" g) eqn:H3.
  { by pose proof (endsWith_all is_generic_char _ _ H3 Hg). }
  done.
Qed.

Lemma eqb_empty_false s : s ≠ "" → String.eqb s "" = false.
Proof. intros H. by apply String.eqb_neq. Qed.

Lemma re_template_match_generic_name base arg :
  identifier base → identifier arg →
  re_template_match (generic_name base arg) = Some (base, arg).
Proof.
  intros [Hbne Hb] [Hane Ha].
  assert (Hat : re_template_at (generic_name base arg) = Some (base, arg)).
  { unfold re_template_at, generic_name.
    rewrite (span_all is_word base ("<" ++ arg ++ ">") Hb) by done.
    rewrite (eqb_empty_false _ Hbne).
    change ("<" ++ arg ++ ">") with (String "<" (arg ++ ">")). cbv iota.
    assert (Hta : str_all is_targ arg = true).
    { eapply str_all_impl; [|done]. intros c Hc. unfold is_targ.
      by rewrite Hc. }
    rewrite (span_all is_targ arg ">" Hta) by done.
    by rewrite (eqb_empty_false _ Hane). }
  destruct (generic_name base arg); cbn [re_template_match]; by rewrite Hat.
Qed.

Lemma is_word_not_comma c : is_word c = true → Ascii.eqb c "," = false.
Proof. by destruct c as [[] [] [] [] [] [] [] []]. Qed.

Lemma split_comma_word w : str_all is_word w = true → split_comma w = [w].
Proof.
  induction w as [|c w IH]; [done|]. cbn [str_all split_comma].
  intros [Hc Hw]%andb_prop. by rewrite (is_word_not_comma _ Hc), (IH Hw).
Qed.

Lemma trim_word w : str_all is_word w = true → trim w = w.
Proof.
  intros Hw. unfold trim.
  assert (Hns : str_all (λ c, negb (is_ws c)) w = true)
    by (eapply str_all_impl; [apply is_word_not_ws|done]).
  by rewrite (trimEnd_id _ Hns), (trimStart_id _ Hns).
Qed.

(** Looking up [base<arg>] when [base] is a generic type of one
    placeholder and the name is not in the map yet. *)
Lemma GetType_generic_name s base arg b B T :
  identifier base → identifier arg →
  database s !! generic_name base arg = None →
  database s !! base = Some b →
  heap s !! b = Some B →
  DBType.subTypes B = Some [T] →
  ∃ props mths,
    mapM (DBProperty.createTemplateInstance [T] [arg]) (DBType.properties B)
      = Some props ∧
    mapM (DBMethod.createTemplateInstance [T] [arg]) (DBType.methods B)
      = Some mths ∧
    GetType (generic_name base arg) s =
      Some (Normal (Some (length (heap s))),
            {| heap := heap s ++
                 [DBType.set_typename (generic_name base arg)
                    (DBType_instance B props mths)];
               database :=
                 <[generic_name base arg := length (heap s)]> (database s) |}).
Proof.
  intros Hbase Harg Hk Hdb Hb Hsubs.
  pose proof (CleanTypeName_generic_name base arg
                (proj2 Hbase) (proj2 Harg)) as Hclean.
  pose proof (re_template_match_generic_name base arg Hbase Harg) as Hm.
  destruct (GetType_instantiates (generic_name base arg) s base arg b B [T])
    as (inst & Hinst & HG); rewrite ?Hclean; try done.
  { by eapply re_template_match_lt. }
  { by rewrite (split_comma_word _ (proj2 Harg)). }
  rewrite Hclean in Hinst, HG.
  rewrite (split_comma_word _ (proj2 Harg)) in Hinst.
  cbn [map] in Hinst. rewrite (trim_word _ (proj2 Harg)) in Hinst.
  unfold template_instance in Hinst. rewrite Hsubs in Hinst.
  cbn [mbind option_bind] in Hinst.
  destruct (mapM (DBProperty.createTemplateInstance [T] [arg]) _)
    as [props|]; [|done].
  cbn [mbind option_bind] in Hinst.
  destruct (mapM (DBMethod.createTemplateInstance [T] [arg]) _)
    as [mths|]; [|done].
  cbn [mbind option_bind] in Hinst. inversion Hinst; subst inst.
  by exists props, mths.
Qed.

(** ** Template instances *)

Lemma ReplaceTemplateType_one t T arg :
  ReplaceTemplateType t [T] [arg] =
  Some (if String.eqb (CleanTypeName t) T then arg else CleanTypeName t).
Proof.
  unfold ReplaceTemplateType. cbn [ReplaceTemplateType_loop].
  by destruct (String.eqb (CleanTypeName t) T).
Qed.

(** C3, as the code has it: for identifiers [base] and [arg], looking up
    [base<arg>], when that name is not in the registry yet, for a generic
    base of one placeholder [T] yields a new instance with as many
    properties as the base; a property whose cleaned type name is [T] has
    the type name [arg] in the instance, and any other property has its
    cleaned type name (its own type name when that carries no
    decoration). *)
Theorem instance_property_types s base arg b B T :
  identifier base → identifier arg →
  database s !! generic_name base arg = None →
  database s !! base = Some b →
  heap s !! b = Some B →
  DBType.subTypes B = Some [T] →
  ∃ s' inst,
    GetType (generic_name base arg) s
      = Some (Normal (Some (length (heap s))), s') ∧
    heap s' !! length (heap s) = Some inst ∧
    length (DBType.properties inst) = length (DBType.properties B) ∧
    ∀ i p, DBType.properties B !! i = Some p →
      ∃ q, DBType.properties inst !! i = Some q ∧
           DBProperty.name q = DBProperty.name p ∧
           DBProperty.typename q =
             if String.eqb (CleanTypeName (DBProperty.typename p)) T
             then arg else CleanTypeName (DBProperty.typename p).
Proof.
  intros Hbase Harg Hk Hdb Hb Hsubs.
  destruct (GetType_generic_name s base arg b B T Hbase Harg Hk Hdb Hb Hsubs)
    as (props & mths & Hp & _ & HG).
  eexists _, _. split; [exact HG|]. cbn [heap].
  split; [by rewrite lookup_app_r, Nat.sub_diag by done|].
  apply mapM_Some in Hp. cbn [DBType.set_typename DBType.properties
                              DBType_instance].
  split; [symmetry; by eapply Forall2_length|].
  intros i p Hi.
  destruct (Forall2_lookup_l _ _ _ _ _ Hp Hi) as (q & Hq & Hpq).
  exists q. split; [done|].
  unfold DBProperty.createTemplateInstance in Hpq.
  rewrite ReplaceTemplateType_one in Hpq. cbn in Hpq.
  by inversion Hpq.
Qed.

Lemma instance_property_types_witness :
  ∃ s' inst q,
    GetType (generic_name "Array" "int") Sample.generic
      = Some (Normal (Some 2), s') ∧
    heap s' !! 2 = Some inst ∧
    DBType.properties inst !! 0 = Some q ∧
    DBProperty.name q = "value" ∧ DBProperty.typename q = "int".
Proof.
  destruct (instance_property_types Sample.generic "Array" "int" 0
              Sample.Array_T "T")
    as (s' & inst & HG & Hh & _ & Hprops); try done.
  destruct (Hprops 0 _ eq_refl) as (q & Hq & Hn & Ht).
  by exists s', inst, q.
Defined.

(** C3 as stated fails: the property [owner] of the sample [Array<T>] has
    the type name [const Foo&], which matches no placeholder (neither as
    written nor cleaned), yet the instance has [Foo]. *)
Lemma unmatched_type_name_is_cleaned :
  ∃ s' inst p q,
    GetType "Array<int>" Sample.generic = Some (Normal (Some 2), s') ∧
    heap s' !! 2 = Some inst ∧
    DBType.properties Sample.Array_T !! 1 = Some p ∧
    DBType.properties inst !! 1 = Some q ∧
    DBProperty.typename p ≠ "T" ∧
    CleanTypeName (DBProperty.typename p) ≠ "T" ∧
    DBProperty.typename p = "const Foo&" ∧
    DBProperty.typename q = "Foo" ∧
    DBProperty.typename q ≠ DBProperty.typename p.
Proof.
  eexists _, _, _, _.
  split; [vm_compute; reflexivity|].
  split; [reflexivity|].
  split; [reflexivity|].
  split; [reflexivity|].
  split; [done|].
  split; [done|].
  done.
Qed.

(** The argument has to be an identifier: the pattern takes the leftmost
    [word<arguments>], so [Array<Array<int>>] is instantiated with the
    argument [int], and [Array<Foo@>] is not instantiated at all. *)
Example instance_of_nested_argument :
  (∃ s' inst q,
     GetType "Array<Array<int>>" Sample.generic = Some (Normal (Some 2), s') ∧
     database s' !! "Array<Array<int>>" = Some 2 ∧
     heap s' !! 2 = Some inst ∧
     DBType.properties inst !! 0 = Some q ∧
     DBProperty.name q = "value" ∧ DBProperty.typename q = "int") ∧
  GetType "Array<Foo@>" Sample.generic = Some (Normal None, Sample.generic).
Proof.
  split; [|vm_compute; reflexivity].
  eexists _, _, _. split; [vm_compute; reflexivity|].
  split_and!; reflexivity.
Qed.

Lemma ReplaceTemplateType_loop_spec c (templ actual : list string) i t' :
  ReplaceTemplateType_loop c templ actual i = Some t' →
  (∃ j, templ !! j = Some c ∧ (∀ j', j' < j → templ !! j' ≠ Some c) ∧
        actual !! (i + j) = Some t')
  ∨ ((c ∉ templ) ∧ t' = c).
Proof.
  revert i. induction templ as [|p templ IH]; cbn [ReplaceTemplateType_loop];
    intros i H.
  - right. split; [apply not_elem_of_nil|congruence].
  - destruct (String.eqb c p) eqn:Hcp.
    + apply String.eqb_eq in Hcp as <-. left. exists 0.
      rewrite Nat.add_0_r. split_and!; [done|lia|done].
    + apply String.eqb_neq in Hcp.
      destruct (IH _ H) as [(j & Hj & Hfirst & Ha)|[Hnot ->]].
      * left. exists (S j). split_and!; [done| |by rewrite <- Nat.add_succ_comm].
        intros [|j'] Hlt; cbn; [congruence|]. apply Hfirst. lia.
      * right. split; [|done]. rewrite not_elem_of_cons. done.
Qed.

Lemma ReplaceTemplateType_spec t subs actual t' :
  ReplaceTemplateType t subs actual = Some t' → substituted subs actual t t'.
Proof. intros H. by apply ReplaceTemplateType_loop_spec in H. Qed.

Lemma DBProperty_instance_spec subs actual p q :
  DBProperty.createTemplateInstance subs actual p = Some q →
  property_instance subs actual p q ∧
  DBProperty.documentation q = None ∧
  DBProperty.isProtected q = None ∧ DBProperty.isPrivate q = None.
Proof.
  unfold DBProperty.createTemplateInstance.
  destruct (ReplaceTemplateType _ _ _) as [tn|] eqn:Ht; [|done].
  cbn. intros [= <-]. split_and!; try done.
  split; [done|]. by apply ReplaceTemplateType_spec.
Qed.

Lemma DBArg_instance_spec subs actual x y :
  DBArg.createTemplateInstance subs actual x = Some y →
  arg_instance subs actual x y.
Proof.
  unfold DBArg.createTemplateInstance.
  destruct (ReplaceTemplateType _ _ _) as [tn|] eqn:Ht; [|done].
  cbn. intros [= <-]. split_and!; try done.
  by apply ReplaceTemplateType_spec.
Qed.

Lemma DBMethod_instance_spec subs actual m m' :
  DBMethod.createTemplateInstance subs actual m = Some m' →
  method_instance subs actual m m' ∧
  DBMethod.declaredModule m' = None ∧
  DBMethod.isProtected m' = false ∧ DBMethod.isPrivate m' = false ∧
  DBMethod.isConstructor m' = false ∧ DBMethod.isEvent m' = false ∧
  DBMethod.isConst m' = false.
Proof.
  unfold DBMethod.createTemplateInstance.
  destruct (ReplaceTemplateType _ _ _) as [rt|] eqn:Ht; [|done]. cbn.
  destruct (mapM _ _) as [args'|] eqn:Ha; [|done]. cbn.
  intros [= <-]. split_and!; try done.
  split_and!; try done; cbn.
  - by apply ReplaceTemplateType_spec.
  - apply mapM_Some in Ha. eapply Forall2_impl; [exact Ha|].
    intros x y. apply DBArg_instance_spec.
Qed.

(** C4, as the code has it: the object a successful instantiation creates
    has the cleaned queried name as its [typename], no placeholders, and
    the base's [supertype], [siblingTypes], [isEnum], [declaredModule] and
    namespace fields; its properties and methods are those of the base,
    in order, with the same names (and, for a method, the same argument
    string and documentation, and for an argument the same name and
    default value), every type name being the one [ReplaceTemplateType]
    returns. *)
Theorem instance_copies_base name s a s' :
  database s !! CleanTypeName name = None →
  GetType name s = Some (Normal (Some a), s') →
  ∃ base args b B subs inst,
    let actual := map trim (split_comma args) in
    re_template_match (CleanTypeName name) = Some (base, args) ∧
    database s !! base = Some b ∧
    heap s !! b = Some B ∧
    DBType.subTypes B = Some subs ∧
    heap s' !! a = Some inst ∧
    DBType.typename inst = CleanTypeName name ∧
    DBType.subTypes inst = None ∧
    DBType.supertype inst = DBType.supertype B ∧
    DBType.siblingTypes inst = DBType.siblingTypes B ∧
    DBType.isEnum inst = DBType.isEnum B ∧
    DBType.declaredModule inst = DBType.declaredModule B ∧
    DBType.isNS inst = DBType.isNS B ∧
    DBType.rawName inst = DBType.rawName B ∧
    DBType.namespaceResolved inst = DBType.namespaceResolved B ∧
    DBType.shadowedNamespace inst = DBType.shadowedNamespace B ∧
    Forall2 (property_instance subs actual)
      (DBType.properties B) (DBType.properties inst) ∧
    Forall2 (method_instance subs actual)
      (DBType.methods B) (DBType.methods inst).
Proof.
  intros Hk HG.
  destruct (GetType_instantiation_inv name s a s' Hk HG)
    as (base & args & b & B & subs & props & mths & Hm & Hbase & Hb & Hsubs
        & Hp & Hmt & -> & ->).
  exists base, args, b, B, subs,
    (DBType.set_typename (CleanTypeName name) (DBType_instance B props mths)).
  cbv zeta. cbn [heap].
  split_and!; try done.
  - by rewrite lookup_app_r, Nat.sub_diag by done.
  - apply mapM_Some in Hp. eapply Forall2_impl; [exact Hp|].
    intros p q Hpq. by apply DBProperty_instance_spec in Hpq as [? _].
  - apply mapM_Some in Hmt. eapply Forall2_impl; [exact Hmt|].
    intros m m' Hmm. by apply DBMethod_instance_spec in Hmm as [? _].
Qed.

Lemma instance_copies_base_witness :
  database Sample.generic !! CleanTypeName "Array<int>" = None ∧
  GetType "Array<int>" Sample.generic
    = Some (Normal (Some 2), Sample.instantiated) ∧
  ∃ inst,
    heap Sample.instantiated !! 2 = Some inst ∧
    DBType.typename inst = "Array<int>" ∧
    DBType.declaredModule inst = Some "containers" ∧
    DBType.isEnum inst = Some false.
Proof.
  assert (H1 : database Sample.generic !! CleanTypeName "Array<int>" = None)
    by reflexivity.
  assert (H2 : GetType "Array<int>" Sample.generic
               = Some (Normal (Some 2), Sample.instantiated))
    by (vm_compute; reflexivity).
  split; [exact H1|]. split; [exact H2|].
  destruct (instance_copies_base _ _ _ _ H1 H2)
    as (base & args & b & B & subs & inst & Hm & Hdb & Hb & _ & Hi & Hn & _
        & _ & _ & He & Hd & _).
  exists inst.
  assert (base = "Array") as -> by (vm_compute in Hm; congruence).
  assert (b = 0) as -> by (vm_compute in Hdb; congruence).
  assert (B = Sample.Array_T) as -> by (cbn in Hb; congruence).
  split_and!; [exact Hi|exact Hn|exact Hd|exact He].
Defined.

(** C4 as stated fails: the instance of the sample [Array<T>] has its own
    [typename] and none of the base's [isStruct], [documentation] and
    engine superclass; its property [value] has lost its documentation and
    protection flag, its property [owner] has a type name that matched no
    placeholder and changed all the same, and its method has lost its
    protection and [const] flags. *)
Lemma instance_drops_attributes :
  ∃ inst p q p1 q1 m m',
    GetType "Array<int>" Sample.generic
      = Some (Normal (Some 2), Sample.instantiated) ∧
    heap Sample.instantiated !! 2 = Some inst ∧
    (DBType.typename Sample.Array_T = "Array" ∧
     DBType.typename inst = "Array<int>") ∧
    (DBType.isStruct Sample.Array_T = Some true ∧
     DBType.isStruct inst = None) ∧
    (DBType.documentation Sample.Array_T = Some "A growable array." ∧
     DBType.documentation inst = None) ∧
    (DBType.unrealsuper Sample.Array_T = Some "UObject" ∧
     DBType.unrealsuper inst = None) ∧
    DBType.properties Sample.Array_T !! 0 = Some p ∧
    DBType.properties inst !! 0 = Some q ∧
    (DBProperty.documentation p = Some "The first element." ∧
     DBProperty.documentation q = None) ∧
    (DBProperty.isProtected p = Some true ∧
     DBProperty.isProtected q = None) ∧
    DBType.properties Sample.Array_T !! 1 = Some p1 ∧
    DBType.properties inst !! 1 = Some q1 ∧
    (DBProperty.typename p1 = "const Foo&" ∧
     DBProperty.typename q1 = "Foo") ∧
    DBType.methods Sample.Array_T !! 0 = Some m ∧
    DBType.methods inst !! 0 = Some m' ∧
    (DBMethod.isProtected m = true ∧ DBMethod.isProtected m' = false) ∧
    (DBMethod.isConst m = true ∧ DBMethod.isConst m' = false).
Proof.
  eexists _, _, _, _, _, _, _.
  split; [vm_compute; reflexivity|].
  split_and!; reflexivity.
Qed.

(** ** Removal of a module's types *)

Lemma remove_fold_lookup module (h : list DBType.t)
    (db0 m : gmap string addr) k :
  map_fold (λ name dbtype db,
              if declared_in module h dbtype then delete name db else db)
           db0 m !! k =
  match m !! k with
  | Some a => if declared_in module h a then None else db0 !! k
  | None => db0 !! k
  end.
Proof.
  revert k.
  apply (map_fold_weak_ind (λ (r m : gmap string addr),
           ∀ k, r !! k = match m !! k with
                         | Some a => if declared_in module h a
                                     then None else db0 !! k
                         | None => db0 !! k
                         end)).
  - intros k. by rewrite lookup_empty.
  - intros i x m' r Hi IH k.
    destruct (decide (i = k)) as [->|Hne].
    + rewrite lookup_insert_eq.
      destruct (declared_in module h x).
      * by rewrite lookup_delete_eq.
      * by rewrite IH, Hi.
    + rewrite lookup_insert_ne by done.
      destruct (declared_in module h x).
      * by rewrite lookup_delete_ne, IH.
      * by rewrite IH.
Qed.

(** The entries [RemoveTypesInModule] leaves: those whose object is not
    declared in the module. *)
Lemma RemoveTypesInModule_lookup module s :
  ∃ s', RemoveTypesInModule module s = Some (Normal tt, s') ∧
        heap s' = heap s ∧
        ∀ k, database s' !! k =
             match database s !! k with
             | Some a =>
                 if declared_in module (heap s) a then None else Some a
             | None => None
             end.
Proof.
  eexists. split; [reflexivity|]. cbn [heap database]. split; [done|].
  intros k. rewrite remove_fold_lookup. by destruct (database s !! k).
Qed.

(** An instance is declared in a module exactly when its base is. *)
Lemma instance_declared_in module name s a s' :
  database s !! CleanTypeName name = None →
  GetType name s = Some (Normal (Some a), s') →
  ∃ base args b,
    re_template_match (CleanTypeName name) = Some (base, args) ∧
    database s !! base = Some b ∧
    database s' !! CleanTypeName name = Some a ∧
    declared_in module (heap s') a = declared_in module (heap s) b.
Proof.
  intros Hk HG.
  destruct (GetType_instantiation_inv name s a s' Hk HG)
    as (base & args & b & B & subs & props & mths & Hm & Hbase & Hb & _
        & _ & _ & -> & ->).
  exists base, args, b. cbn [heap database].
  split_and!; [done|done|apply lookup_insert_eq|].
  unfold declared_in. by rewrite lookup_app_r, Nat.sub_diag, Hb by done.
Qed.

(** C6, as the code has it: [RemoveTypesInModule(m)] deletes exactly the
    entries whose object has [declaredModule] equal to [m] and leaves
    every other entry, and the heap, as they are. A template instance has
    the [declaredModule] of its base, so the instances of a base declared
    in [m] are deleted as well. *)
Theorem RemoveTypesInModule_exact module s :
  ∃ s', RemoveTypesInModule module s = Some (Normal tt, s') ∧
    heap s' = heap s ∧
    (∀ k a, database s !! k = Some a →
            declared_in module (heap s) a = true →
            database s' !! k = None) ∧
    (∀ k a, database s !! k = Some a →
            declared_in module (heap s) a = false →
            database s' !! k = Some a) ∧
    (∀ k, database s !! k = None → database s' !! k = None) ∧
    (∀ s0 name a,
       database s0 !! CleanTypeName name = None →
       GetType name s0 = Some (Normal (Some a), s) →
       ∃ base args b,
         re_template_match (CleanTypeName name) = Some (base, args) ∧
         database s0 !! base = Some b ∧
         declared_in module (heap s) a = declared_in module (heap s0) b ∧
         (declared_in module (heap s0) b = true →
          database s' !! CleanTypeName name = None)).
Proof.
  destruct (RemoveTypesInModule_lookup module s) as (s' & HR & Hh & Hl).
  exists s'. split_and!; [done|done|..].
  - intros k a Hk Hd. by rewrite Hl, Hk, Hd.
  - intros k a Hk Hd. by rewrite Hl, Hk, Hd.
  - intros k Hk. by rewrite Hl, Hk.
  - intros s0 name a Hk HG.
    destruct (instance_declared_in module name s0 a s Hk HG)
      as (base & args & b & Hm & Hbase & Hka & Hd).
    exists base, args, b. split_and!; [done..|].
    intros Hb. by rewrite Hl, Hka, Hd, Hb.
Qed.

Lemma RemoveTypesInModule_exact_witness :
  ∃ s',
    RemoveTypesInModule "containers" Sample.instantiated
      = Some (Normal tt, s') ∧
    database Sample.instantiated !! "Array" = Some 0 ∧
    declared_in "containers" (heap Sample.instantiated) 0 = true ∧
    database s' !! "Array" = None ∧
    database Sample.instantiated !! "int" = Some 1 ∧
    declared_in "containers" (heap Sample.instantiated) 1 = false ∧
    database s' !! "int" = Some 1 ∧
    database Sample.instantiated !! "float" = None ∧
    database s' !! "float" = None ∧
    database Sample.generic !! CleanTypeName "Array<int>" = None ∧
    GetType "Array<int>" Sample.generic
      = Some (Normal (Some 2), Sample.instantiated) ∧
    declared_in "containers" (heap Sample.generic) 0 = true ∧
    database s' !! CleanTypeName "Array<int>" = None.
Proof.
  destruct (RemoveTypesInModule_exact "containers" Sample.instantiated)
    as (s' & HR & _ & Hdel & Hkeep & Hnone & Hinst).
  exists s'.
  assert (H1 : database Sample.instantiated !! "Array" = Some 0)
    by reflexivity.
  assert (H2 : declared_in "containers" (heap Sample.instantiated) 0 = true)
    by reflexivity.
  assert (H3 : database Sample.instantiated !! "int" = Some 1)
    by reflexivity.
  assert (H4 : declared_in "containers" (heap Sample.instantiated) 1 = false)
    by reflexivity.
  assert (H5 : database Sample.instantiated !! "float" = None)
    by reflexivity.
  assert (H6 : database Sample.generic !! CleanTypeName "Array<int>" = None)
    by reflexivity.
  assert (H7 : GetType "Array<int>" Sample.generic
               = Some (Normal (Some 2), Sample.instantiated))
    by (vm_compute; reflexivity).
  assert (H8 : declared_in "containers" (heap Sample.generic) 0 = true)
    by reflexivity.
  destruct (Hinst _ _ _ H6 H7) as (base & args & b & Hm & Hb & _ & Hrm).
  assert (b = 0) as ->.
  { assert (base = "Array") as -> by (vm_compute in Hm; congruence).
    vm_compute in Hb. congruence. }
  split_and!; eauto.
Defined.

(** C6 as stated fails: the sample base [Array<T>] is declared in the
    module [containers]; its instance [Array<int>] is in the registry
    before the module is removed and is gone afterwards. *)
Lemma RemoveTypesInModule_removes_instance :
  ∃ s',
    DBType.declaredModule Sample.Array_T = Some "containers" ∧
    GetType "Array<int>" Sample.generic
      = Some (Normal (Some 2), Sample.instantiated) ∧
    database Sample.instantiated !! "Array<int>" = Some 2 ∧
    RemoveTypesInModule "containers" Sample.instantiated
      = Some (Normal tt, s') ∧
    database s' !! "Array<int>" = None ∧
    GetType "Array<int>" s' = Some (Normal None, s').
Proof.
  eexists. split; [reflexivity|].
  split; [vm_compute; reflexivity|].
  split; [reflexivity|].
  split; [vm_compute; reflexivity|].
  split; [reflexivity|]. vm_compute. reflexivity.
Qed.

(** ** Engine types *)

Lemma DBType_fromJSON_declaredModule key desc :
  DBType.declaredModule (DBType_fromJSON key desc) = None.
Proof. reflexivity. Qed.

Lemma AddTypesFromUnreal_entries input s :
  ∃ s', AddTypesFromUnreal input s = Some (Normal tt, s') ∧
        ∀ k, k ∈ input.*1 ∨ engine_entry s k → engine_entry s' k.
Proof.
  revert s. induction input as [|[key desc] rest IH]; intros s.
  - exists s. split; [done|]. intros k [Hk|Hk]; [|done].
    by apply elem_of_nil in Hk.
  - cbn [AddTypesFromUnreal]. unfold_M.
    set (s1 := {| heap := heap s ++ [DBType_fromJSON key desc];
                  database := <[key := length (heap s)]> (database s) |}).
    destruct (IH s1) as (s' & HA & Hent). exists s'. split; [exact HA|].
    intros k Hk. apply Hent.
    destruct (decide (k = key)) as [->|Hne].
    + right. exists (length (heap s)), desc. unfold s1. cbn [heap database].
      split; [apply lookup_insert_eq|].
      by rewrite lookup_app_r, Nat.sub_diag by done.
    + destruct Hk as [Hk|(a & d & Ha & Ho)].
      * left. cbn [fmap list_fmap fst] in Hk.
        apply elem_of_cons in Hk as [?|?]; [done|done].
      * right. exists a, d. unfold s1. cbn [heap database].
        split; [by rewrite lookup_insert_ne|].
        by apply lookup_app_l_Some.
Qed.

(** C10: every type [AddTypesFromUnreal] reads from a dump is entered in
    the registry as an object without [declaredModule], and
    [RemoveTypesInModule(m)] keeps that entry for every module name [m].
    In any registry, an entry that [RemoveTypesInModule(m)] deletes has
    [declaredModule] equal to [m]. *)
Theorem engine_types_survive_removal input s :
  ∃ s', AddTypesFromUnreal input s = Some (Normal tt, s') ∧
    (∀ key, key ∈ input.*1 →
       ∃ a desc,
         database s' !! key = Some a ∧
         heap s' !! a = Some (DBType_fromJSON key desc) ∧
         DBType.declaredModule (DBType_fromJSON key desc) = None ∧
         ∀ module, ∃ s'',
           RemoveTypesInModule module s' = Some (Normal tt, s'') ∧
           database s'' !! key = Some a) ∧
    (∀ module r k a, database r !! k = Some a →
       ∃ r', RemoveTypesInModule module r = Some (Normal tt, r') ∧
             (database r' !! k = None →
              ∃ o, heap r !! a = Some o ∧
                   DBType.declaredModule o = Some module)).
Proof.
  destruct (AddTypesFromUnreal_entries input s) as (s' & HA & Hent).
  exists s'. split_and!; [done|..].
  - intros key Hkey. destruct (Hent key (or_introl Hkey)) as (a & d & Ha & Ho).
    exists a, d. split_and!; [done..|].
    intros module.
    destruct (RemoveTypesInModule_lookup module s') as (s'' & HR & _ & Hl).
    exists s''. split; [done|]. rewrite Hl, Ha.
    unfold declared_in. rewrite Ho. by rewrite bool_decide_eq_false_2.
  - intros module r k a Hk.
    destruct (RemoveTypesInModule_lookup module r) as (r' & HR & _ & Hl).
    exists r'. split; [done|]. rewrite Hl, Hk. unfold declared_in.
    destruct (heap r !! a) as [o|]; [|done].
    case_bool_decide; [|done]. intros _. by exists o.
Qed.

Lemma engine_types_survive_removal_witness :
  ∃ s' s'' a,
    AddTypesFromUnreal Sample.dump Sample.generic = Some (Normal tt, s') ∧
    "AActor" ∈ Sample.dump.*1 ∧
    database s' !! "AActor" = Some a ∧
    RemoveTypesInModule "containers" s' = Some (Normal tt, s'') ∧
    database s'' !! "AActor" = Some a ∧
    database s' !! "Array" = Some 0 ∧
    database s'' !! "Array" = None ∧
    DBType.declaredModule <$> heap s' !! 0 = Some (Some "containers").
Proof.
  destruct (engine_types_survive_removal Sample.dump Sample.generic)
    as (s' & HA & Hkeep & Honly).
  assert (Hin : "AActor" ∈ Sample.dump.*1) by (cbn; set_solver).
  destruct (Hkeep _ Hin) as (a & desc & Ha & _ & _ & Hrm).
  destruct (Hrm "containers") as (s'' & HR & Ha'').
  exists s', s'', a.
  assert (Hs' : s' = {| heap := heap Sample.generic ++
                          map (λ kv, DBType_fromJSON kv.1 kv.2) Sample.dump;
                        database := <["TArray" := 3]> (<["AActor" := 2]>
                                      (database Sample.generic)) |}).
  { cbn in HA. by inversion HA. }
  assert (Hdb : database s' !! "Array" = Some 0) by (by rewrite Hs').
  destruct (Honly "containers" s' "Array" 0 Hdb) as (r' & HR' & _).
  rewrite HR in HR'. inversion HR'; subst r'.
  split_and!; try done.
  - rewrite Hs' in HR. vm_compute in HR. inversion HR. reflexivity.
  - by rewrite Hs'.
Defined.

(** ** Namespaces *)

(** C9, as the code has it: the query of the namespace status of a type
    whose [namespaceResolved] flag is not set yet (no query has set it,
    and the type is not an instance of a template that had it set)
    classifies it as a namespace
    exactly when its [typename] starts with the two characters [__]; its
    [isShadowedNamespace()] is then true exactly when it is a namespace and
    the [database] of that moment has an entry under the [typename] without
    its first two characters. Either query stores the answer in the
    object: later queries return it whatever the registry has become, and
    a type that is not a namespace is never a shadowed namespace. *)
Theorem namespace_first_query s this T :
  heap s !! this = Some T →
  falsy (DBType.namespaceResolved T) = true →
  let ns := startsWith "__" (DBType.typename T) in
  let shadowed :=
    ns && bool_decide
            (is_Some (database s !! substring_from 2 (DBType.typename T))) in
  ∃ s1,
    isNamespace this s = Some (Normal (Some ns), s1) ∧
    isShadowedNamespace this s = Some (Normal (Some shadowed), s1) ∧
    database s1 = database s ∧
    (ns = false → shadowed = false) ∧
    ∀ s2, heap s2 !! this = heap s1 !! this →
      isNamespace this s2 = Some (Normal (Some ns), s2) ∧
      isShadowedNamespace this s2 = Some (Normal (Some shadowed), s2).
Proof.
  intros HT Hres ns shadowed.
  pose proof (lookup_lt_Some _ _ _ HT) as Hlt.
  set (other := database s !! substring_from 2 (DBType.typename T)) in *.
  set (T' := if ns
             then set_namespace true
                    (Some (bool_decide (is_Some other),
                           substring_from 2 (DBType.typename T))) T
             else set_namespace false None T).
  exists {| heap := <[this := T']> (heap s); database := database s |}.
  assert (Hrun : resolveNamespace this s
                 = Some (Normal tt, {| heap := <[this := T']> (heap s);
                                       database := database s |})).
  { unfold resolveNamespace. unfold_M. rewrite HT. fold ns. unfold T'.
    destruct ns; by rewrite HT. }
  assert (HT' : <[this := T']> (heap s) !! this = Some T')
    by (by apply list_lookup_insert_eq).
  assert (Hns : DBType.isNS T' = Some ns) by (unfold T'; by destruct ns).
  assert (Hsh : js_and (DBType.isNS T') (DBType.shadowedNamespace T')
                = Some shadowed).
  { unfold T', shadowed. by destruct ns. }
  assert (Hnr : DBType.namespaceResolved T' = Some true)
    by (unfold T'; by destruct ns).
  split_and!.
  - unfold isNamespace. unfold bind at 1. unfold deref at 1. rewrite HT, Hres.
    unfold bind at 1. rewrite Hrun. unfold_M. cbn [heap].
    by rewrite HT', Hns.
  - unfold isShadowedNamespace. unfold bind at 1. unfold deref at 1.
    rewrite HT, Hres. unfold bind at 1. rewrite Hrun. unfold_M. cbn [heap].
    by rewrite HT', Hsh.
  - done.
  - unfold shadowed. by intros ->.
  - intros s2 Hs2. cbn [heap] in Hs2. rewrite HT' in Hs2.
    unfold isNamespace, isShadowedNamespace. unfold_M.
    rewrite Hs2, Hnr. cbn [falsy]. by rewrite Hs2, Hsh, Hns.
Qed.

Lemma namespace_first_query_witness :
  ∃ s1 s2 s3,
    isNamespace 0 Sample.namespaces = Some (Normal (Some true), s1) ∧
    isShadowedNamespace 0 Sample.namespaces = Some (Normal (Some true), s1) ∧
    isShadowedNamespace 2 Sample.namespaces
      = Some (Normal (Some false), s2) ∧
    isNamespace 1 Sample.namespaces = Some (Normal (Some false), s3) ∧
    isShadowedNamespace 1 Sample.namespaces
      = Some (Normal (Some false), s3).
Proof.
  destruct (namespace_first_query Sample.namespaces 0 (Sample.plain "__Math")
              eq_refl eq_refl) as (s1 & H1 & H2 & _).
  destruct (namespace_first_query Sample.namespaces 2
              (Sample.plain "__System") eq_refl eq_refl)
    as (s2 & _ & H3 & _).
  destruct (namespace_first_query Sample.namespaces 1 (Sample.plain "Math")
              eq_refl eq_refl) as (s3 & H4 & H5 & _).
  by exists s1, s2, s3.
Defined.

(** C9 as stated fails for a template instance, which copies the
    namespace fields of its base: once [__X] has been found to be a
    shadowed namespace, the instance [__X<int>] answers, to the first
    query it gets, that it is shadowed, although the registry has no
    entry [X<int>]; and the instance [a.__X<int>] of the same base
    answers that it is a namespace, although its [typename] does not
    start with [__]. *)
Lemma instance_inherits_namespace_status :
  isShadowedNamespace 0 Sample.ns_generic =
    Some (Normal (Some true), Sample.ns_queried) ∧
  GetType "__X<int>" Sample.ns_queried =
    Some (Normal (Some 2), Sample.ns_instantiated) ∧
  (DBType.typename <$> heap Sample.ns_instantiated !! 2) = Some "__X<int>" ∧
  database Sample.ns_instantiated !! substring_from 2 "__X<int>" = None ∧
  isShadowedNamespace 2 Sample.ns_instantiated =
    Some (Normal (Some true), Sample.ns_instantiated) ∧
  GetType "a.__X<int>" Sample.ns_instantiated =
    Some (Normal (Some 3), Sample.ns_dotted) ∧
  (DBType.typename <$> heap Sample.ns_dotted !! 3) = Some "a.__X<int>" ∧
  startsWith "__" "a.__X<int>" = false ∧
  isNamespace 3 Sample.ns_dotted =
    Some (Normal (Some true), Sample.ns_dotted).
Proof. split_and!; vm_compute; reflexivity. Qed.

(** ** The inheritance walk *)

(** [GetType] only adds: the objects of the heap stay where and what they
    are, and so do the entries of the map. *)
Lemma GetType_extends name s r s' :
  GetType name s = Some (r, s') →
  heap s `prefix_of` heap s' ∧ database s ⊆ database s'.
Proof.
  intros HG. destruct (GetType_cases name s) as (r1 & s1 & HG' & Hout).
  rewrite HG in HG'. inversion HG'; subst r1 s1; clear HG'.
  inversion Hout; subst; try done. cbn [heap database]. split.
  - by apply prefix_app_r.
  - by apply insert_subseteq.
Qed.

Lemma wanted_elem s a T name :
  heap s !! a = Some T →
  name ∈ (option_list (DBType.supertype T)
          ++ default [] (DBType.siblingTypes T))%list →
  CleanTypeName name ∈ wanted s.
Proof.
  intros Ha Hn. unfold wanted. apply elem_of_union_list.
  exists (names_of T). split.
  - apply list_elem_of_fmap. exists T. split; [done|].
    by eapply list_elem_of_lookup_2.
  - unfold names_of. apply elem_of_list_to_set, list_elem_of_fmap. eauto.
Qed.

Lemma GetType_walk name s r s' :
  wf s →
  CleanTypeName name ∈ wanted s →
  GetType name s = Some (r, s') →
  wf s' ∧ wanted s' = wanted s ∧ (walk_bound s' ≤ walk_bound s)%nat ∧
  ∀ a, r = Normal (Some a) → a < length (heap s').
Proof.
  intros Hwf Hname HG.
  destruct (GetType_cases name s) as (r1 & s1 & HG' & Hout).
  rewrite HG in HG'. inversion HG'; subst r1 s1; clear HG'.
  inversion Hout as [a Hhit| | |base args b B inst Hk Hm Hbase Hb Hinst];
    subst; try (split_and!; [done|done|done|by intros ? [=]]).
  { split_and!; [done..|]. intros ? [= <-]. by eapply Hwf. }
  assert (Hnames : names_of inst = names_of B).
  { unfold template_instance in Hinst.
    destruct (DBType.subTypes B); [|done]. cbn [mbind option_bind] in Hinst.
    destruct (mapM (DBProperty.createTemplateInstance _ _) _); [|done].
    cbn [mbind option_bind] in Hinst.
    destruct (mapM (DBMethod.createTemplateInstance _ _) _); [|done].
    cbn [mbind option_bind] in Hinst. by inversion Hinst. }
  assert (Hsub : names_of B ⊆ wanted s).
  { intros x Hx. unfold wanted. apply elem_of_union_list.
    exists (names_of B). split; [|done]. apply list_elem_of_fmap.
    exists B. split; [done|]. by eapply list_elem_of_lookup_2. }
  assert (Hw : wanted {| heap := heap s ++ [inst];
                         database := <[CleanTypeName name := length (heap s)]>
                                       (database s) |} = wanted s).
  { unfold wanted. cbn [heap]. rewrite fmap_app, union_list_app_L.
    change (names_of <$> [inst]) with [names_of inst].
    rewrite union_list_singleton_L, Hnames.
    fold (wanted s). apply set_eq. intros x. rewrite elem_of_union.
    specialize (Hsub x). tauto. }
  split_and!.
  - intros k a. cbn [heap database]. rewrite length_app. cbn [length].
    destruct (decide (CleanTypeName name = k)) as [->|Hne].
    + rewrite lookup_insert_eq. intros [= <-]. lia.
    + rewrite lookup_insert_ne by done. intros Hka%Hwf. lia.
  - done.
  - unfold walk_bound. rewrite Hw. cbn [heap database].
    rewrite length_app, dom_insert_L. cbn [length].
    assert (Hin : CleanTypeName name ∈ wanted s ∖ dom (database s)).
    { apply elem_of_difference. split; [done|]. by apply not_elem_of_dom. }
    assert (Heq : wanted s ∖ dom (database s)
                  = {[CleanTypeName name]}
                    ∪ wanted s ∖ ({[CleanTypeName name]} ∪ dom (database s))).
    { apply set_eq. intros x. rewrite elem_of_union, !elem_of_difference,
        elem_of_union, elem_of_singleton.
      apply elem_of_difference in Hin.
      destruct (decide (x = CleanTypeName name)) as [->|]; tauto. }
    assert (Hdisj : ({[CleanTypeName name]} : gset string)
                    ## wanted s ∖ ({[CleanTypeName name]} ∪ dom (database s))).
    { apply elem_of_disjoint. intros x Hx1 Hx2.
      apply elem_of_difference in Hx2 as [_ Hx2]. apply Hx2.
      apply elem_of_union. by left. }
    rewrite Heq. rewrite (size_union _ _ Hdisj), size_singleton. lia.
  - intros a [= <-]. cbn [heap]. rewrite length_app. cbn [length]. lia.
Qed.

Lemma walk_inv_mono s s' extend :
  walk_inv s extend → heap s `prefix_of` heap s' → wf s' → walk_inv s' extend.
Proof.
  intros (_ & Hnd & Hlt) Hpre Hwf. split_and!; [done..|].
  intros a Ha%Hlt. apply prefix_length in Hpre. lia.
Qed.

Lemma push_unique_inv s extend db :
  walk_inv s extend →
  (∀ a, db = Some a → a < length (heap s)) →
  extend `prefix_of` push_unique extend db ∧
  walk_inv s (push_unique extend db).
Proof.
  intros Hinv Hdb. unfold push_unique. destruct db as [a|]; [|done].
  case_bool_decide as Hin; [done|]. split; [by apply prefix_app_r|].
  destruct Hinv as (Hwf & Hnd & Hlt). split_and!; [done| |].
  - apply NoDup_app. split_and!; [done| |apply NoDup_singleton].
    intros x Hx ->%list_elem_of_singleton. done.
  - intros x [Hx| ->%list_elem_of_singleton]%elem_of_app; eauto.
Qed.

Lemma walk_step_ret s extend :
  walk_inv s extend → walk_step extend (ret extend) s.
Proof.
  intros Hinv. exists (Normal extend), s.
  split_and!; [done|done|done|done|by destruct Hinv|].
  by intros e [= <-].
Qed.

Lemma walk_step_bind extend m k s :
  walk_step extend m s →
  (∀ e s', extend `prefix_of` e → walk_inv s' e → wanted s' = wanted s →
           walk_step e (k e) s') →
  walk_step extend (let* e := m in k e) s.
Proof.
  intros (r & s1 & Hm & Hpre & Hw & Hb & Hwf & Hr) Hk.
  unfold walk_step, bind. rewrite Hm. destruct r as [e|].
  - destruct (Hr e eq_refl) as [Hpe Hinv].
    destruct (Hk e s1 Hpe Hinv Hw)
      as (r2 & s2 & Hk2 & Hpre2 & Hw2 & Hb2 & Hwf2 & Hr2).
    exists r2, s2. split_and!; [done| | | |done|].
    + by etrans.
    + congruence.
    + lia.
    + intros e2 He2. destruct (Hr2 e2 He2). split; [by etrans|done].
  - exists TypeError, s1. split_and!; try done.
Qed.

Lemma visit_name_step name extend s :
  walk_inv s extend →
  CleanTypeName name ∈ wanted s →
  walk_step extend (visit_name name extend) s.
Proof.
  intros Hinv Hname. unfold walk_step, visit_name, bind, ret.
  destruct (GetType_cases name s) as (r & s' & HG & _). rewrite HG.
  destruct (GetType_extends _ _ _ _ HG) as [Hpre _].
  destruct (GetType_walk name s r s' (proj1 Hinv) Hname HG)
    as (Hwf & Hw & Hb & Ha).
  destruct r as [db|].
  - exists (Normal (push_unique extend db)), s'.
    split_and!; [done..|]. intros e [= <-].
    apply push_unique_inv; [by eapply walk_inv_mono|].
    intros a ->. by apply Ha.
  - exists TypeError, s'. split_and!; try done.
Qed.

Lemma visit_siblings_step siblings extend s :
  walk_inv s extend →
  Forall (λ n, CleanTypeName n ∈ wanted s) siblings →
  walk_step extend (visit_siblings siblings extend) s.
Proof.
  revert extend s. induction siblings as [|n rest IH]; intros extend s Hinv Hn.
  - by apply walk_step_ret.
  - apply Forall_cons in Hn as [Hn Hrest]. cbn [visit_siblings].
    apply walk_step_bind; [by apply visit_name_step|].
    intros e s' _ Hinv' Hw. apply IH; [done|]. by rewrite Hw.
Qed.

Lemma visit_type_step s this checkType extend :
  walk_inv s extend →
  heap s !! this = Some checkType →
  walk_step extend (visit_type checkType extend) s.
Proof.
  intros Hinv Hthis. unfold visit_type. apply walk_step_bind.
  - destruct (DBType.supertype checkType) as [sup|] eqn:Hsup;
      [|by apply walk_step_ret].
    destruct (DBType.truthy_string (Some sup)); [|by apply walk_step_ret].
    apply visit_name_step; [done|].
    eapply wanted_elem; [done|]. rewrite Hsup. apply list_elem_of_here.
  - intros e s' _ Hinv' Hw.
    destruct (DBType.siblingTypes checkType) as [siblings|] eqn:Hsib;
      [|by apply walk_step_ret].
    apply visit_siblings_step; [done|]. rewrite Hw.
    apply Forall_forall. intros n Hn. eapply wanted_elem; [done|].
    rewrite Hsib. apply elem_of_app. by right.
Qed.

Lemma walk_inv_length s extend :
  walk_inv s extend → (length extend ≤ length (heap s))%nat.
Proof.
  intros (_ & Hnd & Hlt).
  trans (length (seq 0 (length (heap s)))); [|by rewrite length_seq].
  apply submseteq_length, NoDup_submseteq; [done|].
  intros a Ha%Hlt. apply elem_of_seq. lia.
Qed.

(** The loop of [getCombineTypesList] ends within [walk_bound] turns. *)
Lemma combine_loop_terminates fuel extend i s :
  walk_inv s extend →
  (walk_bound s - i < fuel)%nat →
  ∃ r s', combine_loop fuel extend i s = Some (r, s') ∧
          heap s `prefix_of` heap s' ∧
          (walk_bound s' ≤ walk_bound s)%nat ∧
          ∀ e, r = Normal e → extend `prefix_of` e ∧ walk_inv s' e.
Proof.
  revert extend i s. induction fuel as [|fuel IH]; intros extend i s Hinv Hf;
    [lia|].
  cbn [combine_loop]. destruct (extend !! i) as [this|] eqn:Hi.
  2:{ exists (Normal extend), s. split_and!; [done..|]. by intros e [= <-]. }
  pose proof (lookup_lt_Some _ _ _ Hi) as Hlen.
  pose proof (walk_inv_length _ _ Hinv) as Hle.
  assert (Hthis : this < length (heap s)).
  { destruct Hinv as (_ & _ & Hlt). apply Hlt.
    by eapply list_elem_of_lookup_2. }
  apply lookup_lt_is_Some in Hthis as [checkType Hc].
  unfold bind at 1. unfold deref. rewrite Hc.
  destruct (visit_type_step s this checkType extend Hinv Hc)
    as (r & s1 & Hv & Hpre & Hw & Hb & Hwf & Hr).
  unfold bind. rewrite Hv. destruct r as [e|].
  - destruct (Hr e eq_refl) as [Hpe Hinv1].
    destruct (IH e (S i) s1 Hinv1) as (r2 & s2 & Hl & Hpre2 & Hb2 & Hr2).
    { unfold walk_bound in *. lia. }
    exists r2, s2. split_and!; [done|by etrans|lia|].
    intros e2 He2. destruct (Hr2 e2 He2). split; [by etrans|done].
  - exists TypeError, s1. split_and!; try done.
Qed.

(** More fuel does not change the result of a loop that has ended. *)
Lemma combine_loop_fuel_mono fuel fuel' extend i s x :
  combine_loop fuel extend i s = Some x →
  (fuel ≤ fuel')%nat →
  combine_loop fuel' extend i s = Some x.
Proof.
  revert fuel' extend i s.
  induction fuel as [|fuel IH]; intros fuel' extend i s Hl Hle.
  - destruct fuel'; [done|]. cbn [combine_loop] in *.
    by destruct (extend !! i).
  - destruct fuel' as [|fuel']; [lia|]. cbn [combine_loop] in *.
    destruct (extend !! i) as [this|]; [|done].
    unfold bind in *. destruct (deref this s) as [[[c|] s0]|]; [|done..].
    destruct (visit_type c extend s0) as [[[e|] s1]|]; [|done..].
    apply IH; [done|lia].
Qed.

Lemma getCombineTypesList_ends s this fuel :
  wf s → this < length (heap s) → (walk_bound s < fuel)%nat →
  ∃ r s', getCombineTypesList fuel this s = Some (r, s') ∧
          heap s `prefix_of` heap s' ∧
          (walk_bound s' ≤ walk_bound s)%nat ∧
          ∀ e, r = Normal e → [this] `prefix_of` e ∧ walk_inv s' e.
Proof.
  intros Hwf Hthis Hfuel. apply combine_loop_terminates; [|lia].
  split_and!; [done|apply NoDup_singleton|].
  by intros a ->%list_elem_of_singleton.
Qed.

(** C5, as the code has it: [getCombineTypesList] ends in every registry,
    cyclic or not. A resolved type is appended only when [extend] does not
    include it yet, so [extend] never holds an object twice and cannot
    outgrow the heap, and the heap cannot outgrow [walk_bound]: with more
    fuel than that the loop returns (or raises), with [this] first and no
    duplicates. *)
Theorem getCombineTypesList_terminates s this fuel :
  wf s → this < length (heap s) → (walk_bound s < fuel)%nat →
  ∃ r s', getCombineTypesList fuel this s = Some (r, s') ∧
          ∀ e, r = Normal e →
               NoDup e ∧ e !! 0 = Some this ∧
               (length e ≤ length (heap s'))%nat ∧
               (length (heap s') ≤ walk_bound s)%nat.
Proof.
  intros Hwf Hthis Hfuel.
  destruct (getCombineTypesList_ends s this fuel Hwf Hthis Hfuel)
    as (r & s' & Hrun & _ & Hb & Hr).
  exists r, s'. split; [done|]. intros e He.
  destruct (Hr e He) as [[k ->] Hinv].
  split_and!; [by destruct Hinv as (_ & ? & _)|done|
               by apply walk_inv_length|].
  unfold walk_bound in *. lia.
Qed.

Lemma wf_sample_cyclic : wf Sample.cyclic.
Proof.
  intros k a. cbn [Sample.cyclic database heap length].
  rewrite lookup_insert. case_decide; [intros [= <-]; lia|].
  rewrite lookup_singleton. case_decide; [intros [= <-]; lia|done].
Qed.

Lemma reference_cycle_sample_cyclic : reference_cycle Sample.cyclic.
Proof.
  exists 0. eapply tc_l; [|apply tc_once].
  - exists (Sample.derived "A" (Some "B") None []), "B".
    split_and!; [done|apply list_elem_of_here|done].
  - exists (Sample.derived "B" (Some "A") (Some ["B"; "A"]) []), "A".
    split_and!; [done|apply list_elem_of_here|done].
Qed.

Lemma getCombineTypesList_terminates_witness :
  reference_cycle Sample.cyclic ∧
  wf Sample.cyclic ∧
  0 < length (heap Sample.cyclic) ∧
  (walk_bound Sample.cyclic < 3)%nat ∧
  getCombineTypesList 3 0 Sample.cyclic
    = Some (Normal [0; 1], Sample.cyclic).
Proof.
  assert (H1 : 0 < length (heap Sample.cyclic)) by (cbn; lia).
  assert (H2 : (walk_bound Sample.cyclic < 3)%nat) by (vm_compute; lia).
  split_and!;
    [exact reference_cycle_sample_cyclic|exact wf_sample_cyclic|exact H1
    |exact H2|].
  destruct (getCombineTypesList_terminates Sample.cyclic 0 3
              wf_sample_cyclic H1 H2) as (r & s' & Hrun & _).
  vm_compute in Hrun. vm_compute. exact eq_refl.
Defined.

(** C5 as stated fails: no registry, with or without a reference cycle,
    makes [getCombineTypesList] run for ever. *)
Lemma getCombineTypesList_never_diverges :
  ¬ ∃ s this,
      wf s ∧ this < length (heap s) ∧ reference_cycle s ∧
      ∀ fuel, getCombineTypesList fuel this s = None.
Proof.
  intros (s & this & Hwf & Hthis & _ & Hdiv).
  destruct (getCombineTypesList_ends s this (S (walk_bound s)) Hwf Hthis)
    as (r & s' & Hrun & _); [lia|].
  by rewrite Hdiv in Hrun.
Qed.

(** ** Member lookup *)

Lemma only_extends_ret extend s : only_extends extend (ret extend) s.
Proof. intros r s' [= <- <-]. split; [done|]. by intros e [= <-]. Qed.

Lemma only_extends_bind extend m k s :
  only_extends extend m s →
  (∀ e s', extend `prefix_of` e → only_extends e (k e) s') →
  only_extends extend (let* e := m in k e) s.
Proof.
  intros Hm Hk r s'. unfold bind.
  destruct (m s) as [[[e|] s1]|] eqn:Hms; [| |done].
  - destruct (Hm _ _ Hms) as [Hpre He]. specialize (He e eq_refl).
    intros Hks. destruct (Hk e s1 He _ _ Hks) as [Hpre2 He2].
    split; [by etrans|]. intros e2 ->. etrans; [done|]. by apply He2.
  - intros [= <- <-]. destruct (Hm _ _ Hms) as [Hpre _]. done.
Qed.

Lemma push_unique_prefix extend db : extend `prefix_of` push_unique extend db.
Proof.
  unfold push_unique. destruct db; [|done].
  case_bool_decide; [done|]. by apply prefix_app_r.
Qed.

Lemma visit_name_extends name extend s :
  only_extends extend (visit_name name extend) s.
Proof.
  intros r s'. unfold visit_name, bind, ret.
  destruct (GetType name s) as [[[db|] s1]|] eqn:HG; [| |done].
  - intros [= <- <-]. split; [by eapply GetType_extends|].
    intros e [= <-]. apply push_unique_prefix.
  - intros [= <- <-]. split; [by eapply GetType_extends|done].
Qed.

Lemma visit_siblings_extends siblings extend s :
  only_extends extend (visit_siblings siblings extend) s.
Proof.
  revert extend s. induction siblings as [|n rest IH]; intros extend s.
  - apply only_extends_ret.
  - cbn [visit_siblings]. apply only_extends_bind;
      [apply visit_name_extends|]. intros e s' _. apply IH.
Qed.

Lemma visit_type_extends checkType extend s :
  only_extends extend (visit_type checkType extend) s.
Proof.
  unfold visit_type. apply only_extends_bind.
  - destruct (DBType.supertype checkType) as [sup|];
      [|apply only_extends_ret].
    destruct (DBType.truthy_string (Some sup)); [|apply only_extends_ret].
    apply visit_name_extends.
  - intros e s' _. destruct (DBType.siblingTypes checkType);
      [apply visit_siblings_extends|apply only_extends_ret].
Qed.

Lemma combine_loop_extends fuel extend i s :
  only_extends extend (combine_loop fuel extend i) s.
Proof.
  revert extend i s. induction fuel as [|fuel IH]; intros extend i s;
    cbn [combine_loop]; (destruct (extend !! i) as [this|];
                         [|apply only_extends_ret]).
  - by intros r s'.
  - intros r s'. unfold bind at 1. unfold deref.
    destruct (heap s !! this) as [checkType|].
    + apply only_extends_bind; [apply visit_type_extends|].
      intros e s1 _. apply IH.
    + intros [= <- <-]. done.
Qed.

(** The first turn of the walk that starts at [this]. *)
Lemma getCombineTypesList_first_turn fuel this T s :
  heap s !! this = Some T →
  getCombineTypesList (S fuel) this s =
  (let* dbsuper := resolve_supertype T in
   let* extend :=
     match DBType.siblingTypes T with
     | Some siblings =>
         visit_siblings siblings (push_unique [this] dbsuper)
     | None => ret (push_unique [this] dbsuper)
     end in
   combine_loop fuel extend 1) s.
Proof.
  intros HT. unfold getCombineTypesList. cbn [combine_loop lookup list_lookup].
  unfold bind at 1. unfold deref. rewrite HT.
  unfold visit_type, resolve_supertype, visit_name.
  destruct (DBType.supertype T) as [sup|]; [|done].
  destruct (DBType.truthy_string (Some sup)); [|done].
  unfold bind, ret. by destruct (GetType sup s) as [[[?|] ?]|].
Qed.

(** A search that passes objects without a method of the name and
    reaches an object that has one returns the first such method. *)
Lemma getMethod_search_found name s pre x rest TX mx :
  (∀ a, a ∈ pre →
        ∃ T, heap s !! a = Some T ∧
             find_method name (DBType.methods T) = None) →
  heap s !! x = Some TX →
  find_method name (DBType.methods TX) = Some mx →
  getMethod_search (pre ++ x :: rest) name s = Some (Normal (Some mx), s).
Proof.
  intros Hpre Hx Hmx. induction pre as [|a pre IH].
  - cbn [app getMethod_search]. unfold getMethod_own. unfold_M.
    by rewrite Hx, Hmx.
  - destruct (Hpre a) as (T & HT & Hnone); [apply list_elem_of_here|].
    cbn [app getMethod_search]. unfold bind at 1. unfold getMethod_own.
    unfold bind at 1. unfold deref, ret. rewrite HT, Hnone.
    apply IH. intros b Hb. apply Hpre. by apply list_elem_of_further.
Qed.

Lemma getMethod_search_ends name extend s :
  (∀ a, a ∈ extend → a < length (heap s)) →
  ∃ r, getMethod_search extend name s = Some (Normal r, s).
Proof.
  induction extend as [|a extend IH]; intros Hlt.
  - by exists None.
  - cbn [getMethod_search]. unfold bind at 1. unfold getMethod_own.
    unfold bind at 1. unfold deref, ret.
    destruct (lookup_lt_is_Some_2 (heap s) a) as [T ->];
      [apply Hlt, list_elem_of_here|].
    destruct (find_method name (DBType.methods T)) as [m|]; [by exists (Some m)|].
    apply IH. intros b Hb. apply Hlt. by apply list_elem_of_further.
Qed.

(** With more fuel than [walk_bound], [getMethod] returns or raises. *)
Lemma getMethod_ends fuel this name recurse s :
  wf s → this < length (heap s) → (walk_bound s < fuel)%nat →
  ∃ r s', getMethod fuel this name recurse s = Some (r, s') ∧
          ∀ v, r = Normal v →
               wf s' ∧ this < length (heap s') ∧
               (walk_bound s' ≤ walk_bound s)%nat.
Proof.
  intros Hwf Hthis Hfuel. unfold getMethod. unfold bind at 1. unfold deref.
  destruct (lookup_lt_is_Some_2 (heap s) this Hthis) as [T ->].
  destruct (find_method name (DBType.methods T)) as [m|];
    [by eexists _, _|].
  destruct (negb recurse); [by eexists _, _|].
  destruct (negb (DBType.hasExtendTypes T)); [by eexists _, _|].
  destruct (getCombineTypesList_ends s this fuel Hwf Hthis Hfuel)
    as (r & s1 & Hrun & Hpre & Hb & Hr).
  unfold bind. rewrite Hrun. destruct r as [e|]; [|by eexists _, _].
  destruct (Hr e eq_refl) as [_ (Hwf1 & _ & Hlt)].
  destruct (getMethod_search_ends name e s1 Hlt) as [v ->].
  eexists _, _. split; [done|]. intros _ _. split_and!; [done| |done].
  apply prefix_length in Hpre. lia.
Qed.


Lemma resolve_supertype_extends T s r s' :
  resolve_supertype T s = Some (r, s') → heap s `prefix_of` heap s'.
Proof.
  unfold resolve_supertype. destruct (DBType.supertype T) as [sup|];
    [|by intros [= <- <-]].
  destruct (DBType.truthy_string (Some sup)); [|by intros [= <- <-]].
  intros HG. by eapply GetType_extends.
Qed.

(** C7, as the code has it. A type that declares a method of the name
    itself returns its own (first) declaration, whatever its bases. A type
    [C] that does not, whose siblings are [X] and [Y], both resolving to
    types that declare the method, and whose supertype, if there is one,
    resolves to nothing or to a type that does not declare the method
    itself, returns the declaration of [X], provided the walk over the
    bases does not raise. In a well-formed registry, with more fuel than
    [walk_bound], the call always returns or raises. *)
Theorem getMethod_precedence :
  (∀ fuel s c C name m recurse,
     heap s !! c = Some C →
     find_method name (DBType.methods C) = Some m →
     getMethod fuel c name recurse s = Some (Normal (Some m), s))
  ∧
  (∀ fuel s c C name X Y dbsuper s0 x TX mx s1 y TY my s2 e s',
     heap s !! c = Some C →
     find_method name (DBType.methods C) = None →
     DBType.siblingTypes C = Some [X; Y] →
     resolve_supertype C s = Some (Normal dbsuper, s0) →
     (∀ a, dbsuper = Some a →
           ∃ T, heap s0 !! a = Some T ∧
                find_method name (DBType.methods T) = None) →
     GetType X s0 = Some (Normal (Some x), s1) →
     heap s1 !! x = Some TX →
     find_method name (DBType.methods TX) = Some mx →
     GetType Y s1 = Some (Normal (Some y), s2) →
     heap s2 !! y = Some TY →
     find_method name (DBType.methods TY) = Some my →
     getCombineTypesList fuel c s = Some (Normal e, s') →
     getMethod fuel c name true s = Some (Normal (Some mx), s'))
  ∧
  (∀ fuel s c name recurse,
     wf s → c < length (heap s) → (walk_bound s < fuel)%nat →
     ∃ r s', getMethod fuel c name recurse s = Some (r, s')).
Proof.
  split_and!.
  { intros fuel s c C name m recurse Hc Hm.
    unfold getMethod. unfold_M. by rewrite Hc, Hm. }
  2:{ intros fuel s c name recurse Hwf Hc Hfuel.
      destruct (getMethod_ends fuel c name recurse s Hwf Hc Hfuel)
        as (r & s' & Hrun & _). by exists r, s'. }
  intros fuel s c C name X Y dbsuper s0 x TX mx s1 y TY my s2 e s'
    Hc Hown Hsib Hsup Hsupm HX HTX Hmx HY HTY Hmy Hwalk.
  destruct fuel as [|fuel]; [done|].
  pose proof Hwalk as Hwalk'.
  rewrite (getCombineTypesList_first_turn fuel c C s Hc) in Hwalk'.
  unfold bind at 1 in Hwalk'. rewrite Hsup, Hsib in Hwalk'.
  unfold bind at 1 in Hwalk'. cbn [visit_siblings] in Hwalk'.
  unfold visit_name in Hwalk'. unfold bind at 1 2 in Hwalk'.
  rewrite HX in Hwalk'. unfold ret at 1 in Hwalk'.
  unfold bind at 1 2 in Hwalk'. rewrite HY in Hwalk'.
  unfold ret at 1 2 in Hwalk'.
  set (e1 := push_unique [c] dbsuper) in *.
  destruct (combine_loop_extends _ _ _ _ _ _ Hwalk') as [Hp2 He].
  specialize (He e eq_refl).
  pose proof (resolve_supertype_extends _ _ _ _ Hsup) as Hp0.
  destruct (GetType_extends _ _ _ _ HX) as [Hp1 _].
  destruct (GetType_extends _ _ _ _ HY) as [Hp12 _].
  assert (Hpre : ∀ a, a ∈ e1 →
            ∃ T, heap s0 !! a = Some T ∧
                 find_method name (DBType.methods T) = None).
  { intros a Ha. unfold e1, push_unique in Ha.
    assert (Hcase : a = c ∨ dbsuper = Some a).
    { destruct dbsuper as [a'|].
      - case_bool_decide.
        + apply list_elem_of_singleton in Ha. by left.
        + apply elem_of_app in Ha as [Ha|Ha];
            apply list_elem_of_singleton in Ha; subst; eauto.
      - apply list_elem_of_singleton in Ha. by left. }
    destruct Hcase as [->|Hs]; [|by apply Hsupm].
    exists C. split; [|done]. by eapply prefix_lookup_Some. }
  assert (Hx : x ∉ e1).
  { intros Hin. destruct (Hpre x Hin) as (T & HT & Hnone).
    pose proof (prefix_lookup_Some _ _ _ _ HT Hp1) as HT1. congruence. }
  assert (Hpe : (e1 ++ [x])%list `prefix_of` e).
  { etrans; [|exact He]. etrans; [|apply push_unique_prefix].
    unfold push_unique. by rewrite bool_decide_eq_false_2. }
  destruct Hpe as [rest ->]. rewrite <- app_assoc in Hwalk. cbn [app] in Hwalk.
  unfold getMethod. unfold bind at 1. unfold deref. rewrite Hc, Hown.
  cbn [negb]. unfold DBType.hasExtendTypes. rewrite Hsib.
  destruct (DBType.truthy_string (DBType.supertype C)); cbn [negb];
    unfold bind; rewrite Hwalk;
    (eapply getMethod_search_found; [|by do 2 (eapply prefix_lookup_Some;
                                                 [|eassumption])|done]);
    intros a Ha; destruct (Hpre a Ha) as (T & HT & Hnone); exists T;
    (split; [|done]);
    do 3 (eapply prefix_lookup_Some; [|eassumption]); done.
Qed.

Lemma getMethod_precedence_witness :
  getMethod 4 0 "foo" true Sample.mixins_plain
    = Some (Normal (Some (Sample.method "foo" "void" [])),
            Sample.mixins_plain) ∧
  resolve_supertype (Sample.derived "C" (Some "S") (Some ["X"; "Y"])
                       [Sample.method "foo" "void" []]) Sample.mixins_plain
    = Some (Normal (Some 1), Sample.mixins_plain) ∧
  GetType "X" Sample.mixins_plain
    = Some (Normal (Some 2), Sample.mixins_plain) ∧
  GetType "Y" Sample.mixins_plain
    = Some (Normal (Some 3), Sample.mixins_plain) ∧
  getCombineTypesList 4 0 Sample.mixins_plain
    = Some (Normal [0; 1; 2; 3], Sample.mixins_plain) ∧
  getMethod 4 0 "bar" true Sample.mixins_plain
    = Some (Normal (Some (Sample.method "bar" "int" [])),
            Sample.mixins_plain).
Proof.
  set (s := Sample.mixins_plain).
  destruct getMethod_precedence as (Hown & Hsib & _).
  assert (Hc : heap s !! 0 = Some (Sample.derived "C" (Some "S")
                 (Some ["X"; "Y"]) [Sample.method "foo" "void" []]))
    by reflexivity.
  assert (Hsup : resolve_supertype (Sample.derived "C" (Some "S")
                   (Some ["X"; "Y"]) [Sample.method "foo" "void" []]) s
                 = Some (Normal (Some 1), s)) by (vm_compute; reflexivity).
  assert (HX : GetType "X" s = Some (Normal (Some 2), s))
    by (vm_compute; reflexivity).
  assert (HY : GetType "Y" s = Some (Normal (Some 3), s))
    by (vm_compute; reflexivity).
  assert (Hw : getCombineTypesList 4 0 s = Some (Normal [0; 1; 2; 3], s))
    by (vm_compute; reflexivity).
  split_and!; try assumption.
  - exact (Hown 4 s 0 _ "foo" _ true Hc eq_refl).
  - refine (Hsib 4 s 0 _ "bar" "X" "Y" (Some 1) s 2
              (Sample.derived "X" None None [Sample.method "bar" "int" []])
              _ s 3
              (Sample.derived "Y" None None [Sample.method "bar" "float" []])
              (Sample.method "bar" "float" []) s _ s
              Hc eq_refl eq_refl Hsup _ HX eq_refl eq_refl HY eq_refl eq_refl
              Hw).
    intros a [= <-]. by eexists.
Defined.

(** C7 as stated fails: [C] declares no [bar], its siblings [X] and [Y]
    both resolve and declare [bar], but its supertype [S] declares [bar]
    too and comes first in the combination list: [getMethod] returns the
    declaration of [S], not that of [X]. *)
Lemma getMethod_supertype_before_siblings :
  ∃ C,
    heap Sample.mixins_shadowed !! 0 = Some C ∧
    find_method "bar" (DBType.methods C) = None ∧
    DBType.siblingTypes C = Some ["X"; "Y"] ∧
    GetType "X" Sample.mixins_shadowed
      = Some (Normal (Some 2), Sample.mixins_shadowed) ∧
    GetType "Y" Sample.mixins_shadowed
      = Some (Normal (Some 3), Sample.mixins_shadowed) ∧
    getMethod 4 2 "bar" true Sample.mixins_shadowed
      = Some (Normal (Some (Sample.method "bar" "int" [])),
              Sample.mixins_shadowed) ∧
    getMethod 4 3 "bar" true Sample.mixins_shadowed
      = Some (Normal (Some (Sample.method "bar" "float" [])),
              Sample.mixins_shadowed) ∧
    getCombineTypesList 4 0 Sample.mixins_shadowed
      = Some (Normal [0; 1; 2; 3], Sample.mixins_shadowed) ∧
    getMethod 4 0 "bar" true Sample.mixins_shadowed
      = Some (Normal (Some (Sample.method "bar" "double" [])),
              Sample.mixins_shadowed) ∧
    Sample.method "bar" "double" [] ≠ Sample.method "bar" "int" [].
Proof.
  eexists. split; [reflexivity|].
  split_and!; try (vm_compute; reflexivity). done.
Qed.

(** ** Property accessors *)




(** * Further properties *)

(** ** Cleaning of type names *)

Lemma string_app_cons c a b : String c a ++ b = String c (a ++ b).
Proof. reflexivity. Qed.

Lemma string_app_nil_l b : "" ++ b = b.
Proof. reflexivity. Qed.

Lemma string_app_nil_r a : a ++ "" = a.
Proof.
  induction a as [|c a IH]; [done|]. by rewrite string_app_cons, IH.
Qed.

Lemma string_app_assoc a b c : (a ++ b) ++ c = a ++ (b ++ c).
Proof.
  induction a as [|d a IH]; [done|]. by rewrite !string_app_cons, IH.
Qed.

Lemma string_length_app a b :
  String.length (a ++ b) = (String.length a + String.length b)%nat.
Proof.
  induction a as [|c a IH]; [done|].
  rewrite string_app_cons. cbn [String.length]. by rewrite IH.
Qed.

Lemma trimEnd_last a c :
  is_ws c = false → trimEnd (a ++ String c "") = a ++ String c "".
Proof.
  intros Hc. induction a as [|d a IH].
  - rewrite string_app_nil_l. cbn [trimEnd]. by rewrite Hc.
  - rewrite string_app_cons. cbn [trimEnd]. rewrite IH.
    destruct a; [by rewrite string_app_nil_l|by rewrite string_app_cons].
Qed.

Lemma trimEnd_app_ws a w :
  str_all is_ws w = true → trimEnd (a ++ w) = trimEnd a.
Proof.
  intros Hw.
  assert (Hnil : trimEnd w = "").
  { induction w as [|c w IH]; [done|]. cbn [str_all] in Hw.
    apply andb_prop in Hw as [Hc Hw]. cbn [trimEnd]. by rewrite (IH Hw), Hc. }
  induction a as [|d a IH]; [done|].
  rewrite string_app_cons. cbn [trimEnd]. by rewrite IH.
Qed.

Lemma substring_0_app a b : String.substring 0 (String.length a) (a ++ b) = a.
Proof.
  induction a as [|c a IH].
  - rewrite string_app_nil_l. by destruct b.
  - rewrite string_app_cons. cbn [String.length String.substring].
    by rewrite IH.
Qed.

Lemma drop_last_app a c : drop_last (a ++ String c "") = a.
Proof.
  unfold drop_last. rewrite string_length_app. cbn [String.length].
  replace (String.length a + 1 - 1)%nat with (String.length a) by lia.
  apply substring_0_app.
Qed.

Lemma endsWith_app a suf : endsWith suf (a ++ suf) = true.
Proof.
  induction a as [|c a IH].
  - rewrite string_app_nil_l. destruct suf; cbn [endsWith];
      by rewrite String.eqb_refl.
  - rewrite string_app_cons. cbn [endsWith]. by rewrite IH, orb_true_r.
Qed.

Lemma substring_from_const x : substring_from 6 ("const " ++ x) = x.
Proof.
  unfold substring_from. rewrite string_length_app.
  change (String.length "const " + String.length x - 6)%nat
    with (String.length x - 0)%nat.
  rewrite Nat.sub_0_r.
  change (String.substring 6 (String.length x) ("const " ++ x))
    with (String.substring 0 (String.length x) x).
  rewrite <- (string_app_nil_r x) at 2. rewrite substring_0_app. done.
Qed.

Lemma startsWith_app p x : startsWith p (p ++ x) = true.
Proof.
  unfold startsWith. induction p as [|c p IH].
  - by destruct x.
  - rewrite string_app_cons. cbn [String.prefix].
    destruct (ascii_dec c c); [done|congruence].
Qed.

(** Cleaning leaves a name made of word characters and angle brackets as
    it is. *)
Lemma CleanTypeName_generic_chars g :
  str_all is_generic_char g = true → CleanTypeName g = g.
Proof.
  intros Hg.
  assert (Hns : str_all (λ c, negb (is_ws c)) g = true)
    by (eapply str_all_impl; [apply is_generic_char_not_ws|done]).
  unfold CleanTypeName, trim.
  rewrite (trimEnd_id _ Hns), (trimStart_id _ Hns).
  destruct (startsWith "const " g) eqn:H1.
  { by pose proof (prefix_all is_generic_char _ _ H1 Hg). }
  destruct (endsWith "&" g) eqn:H2.
  { by pose proof (endsWith_all is_generic_char _ _ H2 Hg). }
  destruct (endsWith "@" g) eqn:H3.
  { by pose proof (endsWith_all is_generic_char _ _ H3 Hg). }
  done.
Qed.

Lemma trimEnd_app_solid a b :
  str_all (λ c, negb (is_ws c)) b = true → b ≠ "" →
  trimEnd (a ++ b) = a ++ b.
Proof.
  intros Hb Hne. induction a as [|d a IH].
  - rewrite string_app_nil_l. by apply trimEnd_id.
  - rewrite string_app_cons. cbn [trimEnd]. rewrite IH.
    destruct (a ++ b) eqn:Hab; [|done].
    destruct a; [by rewrite string_app_nil_l in Hab|done].
Qed.

Lemma trimStart_solid c s : is_ws c = false → trimStart (String c s) = String c s.
Proof. intros Hc. cbn [trimStart]. by rewrite Hc. Qed.

Lemma generic_chars_solid g :
  str_all is_generic_char g = true →
  str_all (λ c, negb (is_ws c)) g = true.
Proof. apply str_all_impl, is_generic_char_not_ws. Qed.

Lemma trim_generic_chars g : str_all is_generic_char g = true → trim g = g.
Proof.
  intros Hg%generic_chars_solid. unfold trim.
  by rewrite (trimEnd_id _ Hg), (trimStart_id _ Hg).
Qed.

Lemma no_const_prefix g :
  str_all is_generic_char g = true → startsWith "const " g = false.
Proof.
  intros Hg. destruct (startsWith "const " g) eqn:H; [|done].
  by pose proof (prefix_all is_generic_char _ _ H Hg).
Qed.

Lemma no_handle_suffix g :
  str_all is_generic_char g = true →
  endsWith "&" g = false ∧ endsWith "@" g = false.
Proof.
  intros Hg. split.
  - destruct (endsWith "&" g) eqn:H; [|done].
    by pose proof (endsWith_all is_generic_char _ _ H Hg).
  - destruct (endsWith "@" g) eqn:H; [|done].
    by pose proof (endsWith_all is_generic_char _ _ H Hg).
Qed.

Lemma endsWith_last_ne a c d :
  c ≠ d → endsWith (String d "") (a ++ String c "") = false.
Proof.
  intros Hne. induction a as [|e a IH].
  - rewrite string_app_nil_l. cbn [endsWith].
    rewrite orb_false_r. apply String.eqb_neq. congruence.
  - rewrite string_app_cons. cbn [endsWith]. rewrite IH, orb_false_r.
    apply String.eqb_neq. intros [= -> Heq].
    destruct a; [by rewrite string_app_nil_l in Heq
                |by rewrite string_app_cons in Heq].
Qed.

Lemma CleanTypeName_marks g :
  g ≠ "" → str_all is_generic_char g = true →
  CleanTypeName ("const " ++ g) = g ∧
  CleanTypeName (g ++ "&") = g ∧
  CleanTypeName (g ++ "@") = g ∧
  CleanTypeName ("const " ++ g ++ " &") = g ∧
  CleanTypeName (g ++ "&@") = g ++ "&" ∧
  CleanTypeName (g ++ "@&") = g.
Proof.
  intros Hne Hg.
  pose proof (generic_chars_solid _ Hg) as Hs.
  pose proof (no_const_prefix _ Hg) as Hc.
  destruct (no_handle_suffix _ Hg) as [Hr Hh].
  pose proof (trim_generic_chars _ Hg) as Ht.
  destruct g as [|c0 g0] eqn:Hgeq; [done|]. rewrite <- Hgeq in *.
  assert (Hc0 : is_ws c0 = false).
  { rewrite Hgeq in Hs. cbn [str_all] in Hs.
    by apply andb_prop in Hs as [?%negb_true_iff _]. }
  assert (Hts : ∀ x, trimStart (g ++ x) = g ++ x).
  { intros x. rewrite Hgeq, string_app_cons. by apply trimStart_solid. }
  split_and!.
  - unfold CleanTypeName, trim.
    rewrite (trimEnd_app_solid "const " g Hs Hne).
    change (trimStart ("const " ++ g)) with ("const " ++ g).
    rewrite startsWith_app, substring_from_const. by rewrite Hr, Hh.
  - unfold CleanTypeName, trim.
    rewrite (trimEnd_app_solid g "&") by done. rewrite Hts.
    assert (startsWith "const " (g ++ "&") = false) as ->.
    { destruct (startsWith "const " (g ++ "&")) eqn:H; [|done].
      assert (str_all (λ c, negb (is_ws c)) (g ++ "&") = true)
        by (by rewrite str_all_app, Hs).
      by pose proof (prefix_all _ _ _ H H0). }
    rewrite endsWith_app, drop_last_app. fold (trim g). by rewrite Ht, Hh.
  - unfold CleanTypeName, trim.
    rewrite (trimEnd_app_solid g "@") by done. rewrite Hts.
    assert (startsWith "const " (g ++ "@") = false) as ->.
    { destruct (startsWith "const " (g ++ "@")) eqn:H; [|done].
      assert (str_all (λ c, negb (is_ws c)) (g ++ "@") = true)
        by (by rewrite str_all_app, Hs).
      by pose proof (prefix_all _ _ _ H H0). }
    rewrite (endsWith_last_ne g "@" "&") by done.
    rewrite endsWith_app, drop_last_app. fold (trim g). by rewrite Ht.
  - unfold CleanTypeName, trim.
    replace ("const " ++ g ++ " &") with (("const " ++ g ++ " ") ++ "&")
      by (by rewrite !string_app_assoc).
    rewrite (trimEnd_app_solid _ "&") by done.
    change (trimStart (("const " ++ g ++ " ") ++ "&"))
      with (("const " ++ g ++ " ") ++ "&").
    rewrite !string_app_assoc. rewrite startsWith_app, substring_from_const.
    replace (g ++ " " ++ "&") with ((g ++ " ") ++ "&")
      by (by rewrite !string_app_assoc).
    rewrite endsWith_app, drop_last_app.
    rewrite (trimEnd_app_ws g " ") by done. fold (trim g). by rewrite Ht, Hh.
  - unfold CleanTypeName, trim.
    replace (g ++ "&@") with ((g ++ "&") ++ "@")
      by (by rewrite !string_app_assoc).
    rewrite (trimEnd_app_solid _ "@") by done.
    rewrite string_app_assoc, Hts.
    assert (startsWith "const " (g ++ "&" ++ "@") = false) as ->.
    { destruct (startsWith "const " (g ++ "&" ++ "@")) eqn:H; [|done].
      assert (str_all (λ c, negb (is_ws c)) (g ++ "&" ++ "@") = true)
        by (by rewrite str_all_app, Hs).
      by pose proof (prefix_all _ _ _ H H0). }
    replace (g ++ "&" ++ "@") with ((g ++ "&") ++ "@")
      by (by rewrite !string_app_assoc).
    rewrite (endsWith_last_ne (g ++ "&") "@" "&") by done.
    rewrite endsWith_app, drop_last_app.
    unfold trim. rewrite (trimEnd_app_solid g "&") by done. by rewrite Hts.
  - unfold CleanTypeName, trim.
    replace (g ++ "@&") with ((g ++ "@") ++ "&")
      by (by rewrite !string_app_assoc).
    rewrite (trimEnd_app_solid _ "&") by done.
    rewrite string_app_assoc, Hts.
    assert (startsWith "const " (g ++ "@" ++ "&") = false) as ->.
    { destruct (startsWith "const " (g ++ "@" ++ "&")) eqn:H; [|done].
      assert (str_all (λ c, negb (is_ws c)) (g ++ "@" ++ "&") = true)
        by (by rewrite str_all_app, Hs).
      by pose proof (prefix_all _ _ _ H H0). }
    replace (g ++ "@" ++ "&") with ((g ++ "@") ++ "&")
      by (by rewrite !string_app_assoc).
    rewrite endsWith_app, drop_last_app.
    unfold trim. rewrite (trimEnd_app_solid g "@") by done. rewrite Hts.
    rewrite endsWith_app, drop_last_app.
    fold (trim g). by rewrite Ht.
Qed.

Lemma GetType_clean_eq n1 n2 s :
  CleanTypeName n1 = CleanTypeName n2 → GetType n1 s = GetType n2 s.
Proof.
  intros H. unfold GetType. rewrite !GetType_fuel_S. cbv zeta. by rewrite H.
Qed.

(** X1: cleaning strips one [const ] prefix, a trailing reference mark
    [&] and a trailing handle mark [@] (with the white space before them)
    from a name made of word characters and angle brackets, so a lookup
    of the decorated name is the lookup of the name. The reference mark
    is tested first: in [T@&] both marks go, in [T&@] only the handle
    mark does, and the name looked up is [T&]. *)
Theorem CleanTypeName_strips_decoration g :
  g ≠ "" → str_all is_generic_char g = true →
  CleanTypeName g = g ∧
  CleanTypeName ("const " ++ g ++ " &") = g ∧
  CleanTypeName (g ++ "@") = g ∧
  CleanTypeName (g ++ "@&") = g ∧
  CleanTypeName (g ++ "&@") = g ++ "&" ∧
  ∀ s, GetType ("const " ++ g ++ " &") s = GetType g s ∧
       GetType (g ++ "@") s = GetType g s ∧
       GetType (g ++ "@&") s = GetType g s.
Proof.
  intros Hne Hg.
  destruct (CleanTypeName_marks g Hne Hg) as (_ & _ & H3 & H4 & H5 & H6).
  pose proof (CleanTypeName_generic_chars g Hg) as H0.
  split_and!; try done.
  intros s. split_and!; apply GetType_clean_eq; congruence.
Qed.

Lemma CleanTypeName_strips_decoration_witness :
  CleanTypeName "const Array<int> &" = "Array<int>" ∧
  CleanTypeName "Array<int>&@" = "Array<int>&" ∧
  GetType "const Array<int> &" Sample.instantiated
    = Some (Normal (Some 2), Sample.instantiated).
Proof.
  destruct (CleanTypeName_strips_decoration "Array<int>")
    as (_ & H1 & _ & _ & H2 & H3); [done|done|].
  destruct (H3 Sample.instantiated) as (H4 & _).
  split_and!; [exact H1|exact H2|].
  etrans; [exact H4|]. vm_compute. reflexivity.
Defined.

(** ** Lookups keep the registry *)

Lemma GetType_of_hit name s a :
  database s !! CleanTypeName name = Some a →
  GetType name s = Some (Normal (Some a), s).
Proof.
  intros H. unfold GetType. rewrite GetType_fuel_unfold. cbv zeta.
  by rewrite H.
Qed.

Lemma GetType_hit_after name s a s' :
  GetType name s = Some (Normal (Some a), s') →
  database s' !! CleanTypeName name = Some a.
Proof.
  intros HG. destruct (GetType_cases name s) as (r & s1 & HG' & Hout).
  rewrite HG in HG'. inversion HG'; subst r s1; clear HG'.
  inversion Hout; subst; [done|]. cbn [database]. apply lookup_insert_eq.
Qed.

Lemma GetType_wf name s r s' :
  wf s → GetType name s = Some (r, s') →
  wf s' ∧ (length (heap s') ≤ S (length (heap s)))%nat ∧
  (∀ a, r = Normal (Some a) → a < length (heap s')) ∧
  (r = TypeError ∨ r = Normal None → s' = s).
Proof.
  intros Hwf HG. destruct (GetType_cases name s) as (r1 & s1 & HG' & Hout).
  rewrite HG in HG'. inversion HG'; subst r1 s1; clear HG'.
  inversion Hout as [a Hhit| | |base args b B inst Hk Hm Hbase Hb Hinst];
    subst.
  - split_and!; [done|lia| |by intros [|]]. intros ? [= <-]. by eapply Hwf.
  - split_and!; [done|lia|by intros ? [=]|done].
  - split_and!; [done|lia|by intros ? [=]|done].
  - cbn [heap database]. rewrite length_app. cbn [length].
    split_and!; [|lia| |by intros [|]].
    + intros k a. cbn [heap database]. rewrite length_app. cbn [length].
      destruct (decide (CleanTypeName name = k)) as [->|Hne].
      * rewrite lookup_insert_eq. intros [= <-]. lia.
      * rewrite lookup_insert_ne by done. intros Hka%Hwf. lia.
    + intros a [= <-]. lia.
Qed.

(** X2: a lookup never removes or changes anything: the objects of the
    heap stay where and what they are, the entries of the map stay, at
    most one object is added, and a well-formed registry stays
    well-formed. An object it returns is in the heap and is entered under
    the cleaned name; a lookup that returns nothing or raises leaves the
    registry exactly as it was. *)
Theorem GetType_preserves_registry name s r s' :
  wf s → GetType name s = Some (r, s') →
  wf s' ∧
  heap s `prefix_of` heap s' ∧
  database s ⊆ database s' ∧
  (length (heap s') ≤ S (length (heap s)))%nat ∧
  (∀ a, r = Normal (Some a) →
        is_Some (heap s' !! a) ∧
        database s' !! CleanTypeName name = Some a) ∧
  (r = TypeError ∨ r = Normal None → s' = s).
Proof.
  intros Hwf HG.
  destruct (GetType_wf name s r s' Hwf HG) as (Hwf' & Hlen & Ha & Hsame).
  destruct (GetType_extends name s r s' HG) as [Hpre Hsub].
  split_and!; try done.
  intros a ->. split; [by apply lookup_lt_is_Some, Ha|].
  by eapply GetType_hit_after.
Qed.

Lemma GetType_preserves_registry_witness :
  wf Sample.generic ∧
  GetType "Array<int>" Sample.generic
    = Some (Normal (Some 2), Sample.instantiated) ∧
  wf Sample.instantiated ∧
  database Sample.instantiated !! "Array" = Some 0 ∧
  is_Some (heap Sample.instantiated !! 2).
Proof.
  assert (Hwf : wf Sample.generic).
  { intros k a. cbn [Sample.generic database heap length].
    rewrite lookup_insert. case_decide; [intros [= <-]; lia|].
    rewrite lookup_singleton. case_decide; [intros [= <-]; lia|done]. }
  assert (HG : GetType "Array<int>" Sample.generic
               = Some (Normal (Some 2), Sample.instantiated))
    by (vm_compute; reflexivity).
  destruct (GetType_preserves_registry _ _ _ _ Hwf HG)
    as (Hwf' & _ & Hsub & _ & Ha & _).
  split_and!; [done|done|done| |by apply (Ha 2)].
  eapply lookup_weaken; [|exact Hsub]. reflexivity.
Defined.

Lemma lookup_steps_extend s s' :
  rtc lookup_step s s' →
  heap s `prefix_of` heap s' ∧ database s ⊆ database s'.
Proof.
  induction 1 as [s|s s1 s2 (name & r & HG) _ [IH1 IH2]]; [done|].
  destruct (GetType_extends _ _ _ _ HG) as [H1 H2].
  split; by etrans.
Qed.

(** X3: once a name has been resolved to an object, every later lookup of
    it returns that same object without changing the registry, whatever
    other names have been looked up in between. *)
Theorem GetType_resolution_is_stable name s a s1 s2 :
  GetType name s = Some (Normal (Some a), s1) →
  rtc lookup_step s1 s2 →
  GetType name s2 = Some (Normal (Some a), s2).
Proof.
  intros HG Hsteps. apply GetType_of_hit.
  destruct (lookup_steps_extend _ _ Hsteps) as [_ Hsub].
  eapply lookup_weaken; [|exact Hsub]. by eapply GetType_hit_after.
Qed.

Lemma GetType_resolution_is_stable_witness :
  ∃ s2,
    GetType "Array<int>" Sample.generic
      = Some (Normal (Some 2), Sample.instantiated) ∧
    GetType "Array<float>" Sample.instantiated = Some (Normal (Some 3), s2) ∧
    GetType "Array<int>" s2 = Some (Normal (Some 2), s2).
Proof.
  eexists.
  assert (H1 : GetType "Array<int>" Sample.generic
               = Some (Normal (Some 2), Sample.instantiated))
    by (vm_compute; reflexivity).
  split; [exact H1|]. split; [vm_compute; reflexivity|].
  eapply (GetType_resolution_is_stable _ _ _ _ _ H1).
  apply rtc_once. exists "Array<float>", (Normal (Some 3)).
  vm_compute. reflexivity.
Defined.

Lemma GetType_base_present name s base args b s' :
  database s !! CleanTypeName name = None →
  re_template_match (CleanTypeName name) = Some (base, args) →
  database s !! base = Some b →
  GetType name s ≠ Some (Normal None, s').
Proof.
  intros Hk Hm Hbase. unfold GetType. rewrite GetType_fuel_unfold. cbv zeta.
  rewrite Hk, (re_template_match_lt _ _ _ Hm), Hm, Hbase.
  destruct (heap s !! b) as [B|] eqn:Hb.
  2:{ unfold DBType_createTemplateInstance. unfold_M. by rewrite Hb. }
  destruct (DBType.subTypes B) as [subs|] eqn:Hsubs.
  2:{ unfold bind at 1.
      by rewrite (createTemplateInstance_no_subTypes _ _ _ _ Hb Hsubs). }
  destruct (decide (length (map trim (split_comma args)) = length subs))
    as [Hlen|Hlen].
  - destruct (createTemplateInstance_ok s b B subs _ Hb Hsubs Hlen)
      as (props & mths & _ & _ & Hc).
    unfold bind at 1. rewrite Hc. unfold_M. cbn [heap].
    by rewrite lookup_app_r, Nat.sub_diag by done.
  - unfold bind at 1.
    by rewrite (createTemplateInstance_mismatch _ _ _ _ _ Hb Hsubs Hlen).
Qed.

(** X4: a lookup returns nothing exactly when the cleaned name is not in
    the map and either it has no generic marker the pattern accepts (a
    plain unknown name, or unbalanced brackets) or the base name before
    the marker is not in the map; the registry is then as it was. *)
Theorem GetType_none_iff name s s' :
  GetType name s = Some (Normal None, s') ↔
  s' = s ∧
  database s !! CleanTypeName name = None ∧
  (re_template_match (CleanTypeName name) = None ∨
   ∃ base args,
     re_template_match (CleanTypeName name) = Some (base, args) ∧
     database s !! base = None).
Proof.
  split.
  - intros HG.
    destruct (database s !! CleanTypeName name) as [a|] eqn:Hk.
    { by rewrite (GetType_of_hit _ _ _ Hk) in HG. }
    destruct (re_template_match (CleanTypeName name)) as [[base args]|] eqn:Hm.
    + destruct (database s !! base) as [b|] eqn:Hbase.
      { by destruct (GetType_base_present _ _ _ _ _ s' Hk Hm Hbase). }
      unfold GetType in HG. rewrite GetType_fuel_unfold in HG. cbv zeta in HG.
      rewrite Hk, (re_template_match_lt _ _ _ Hm), Hm, Hbase in HG.
      inversion HG; subst. split_and!; [done|done|].
      right. by exists base, args.
    + unfold GetType in HG. rewrite GetType_fuel_unfold in HG. cbv zeta in HG.
      rewrite Hk, Hm in HG.
      assert (s' = s)
        by (destruct (contains_char "<" (CleanTypeName name));
            by inversion HG).
      split_and!; [done|done|by left].
  - intros (-> & Hk & Hcase).
    unfold GetType. rewrite GetType_fuel_unfold. cbv zeta. rewrite Hk.
    destruct Hcase as [Hm|(base & args & Hm & Hbase)].
    + rewrite Hm. by destruct (contains_char "<" (CleanTypeName name)).
    + by rewrite (re_template_match_lt _ _ _ Hm), Hm, Hbase.
Qed.

Lemma GetType_none_iff_witness :
  GetType "Actor" Sample.generic = Some (Normal None, Sample.generic) ∧
  GetType "Array<int" Sample.generic = Some (Normal None, Sample.generic) ∧
  GetType "Map<int>" Sample.generic = Some (Normal None, Sample.generic).
Proof.
  split_and!; apply GetType_none_iff; (split; [done|split; [done|]]).
  - by left.
  - by left.
  - right. by exists "Map", "int".
Defined.

(** ** Substitution of placeholders *)

Lemma ReplaceTemplateType_loop_no_match c (templ actual : list string) i :
  c ∉ templ → ReplaceTemplateType_loop c templ actual i = Some c.
Proof.
  revert i. induction templ as [|p templ IH]; intros i Hc; [done|].
  cbn [ReplaceTemplateType_loop]. apply not_elem_of_cons in Hc as [Hne Hc].
  apply String.eqb_neq in Hne as ->. by apply IH.
Qed.

Lemma ReplaceTemplateType_loop_same c (templ actual : list string) i :
  (∀ j, templ !! j = Some c → actual !! (i + j)%nat = Some c) →
  ReplaceTemplateType_loop c templ actual i = Some c.
Proof.
  revert i. induction templ as [|p templ IH]; intros i H; [done|].
  cbn [ReplaceTemplateType_loop]. destruct (String.eqb c p) eqn:Hcp.
  - apply String.eqb_eq in Hcp as <-. specialize (H 0 eq_refl).
    by rewrite Nat.add_0_r in H.
  - apply IH. intros j Hj. specialize (H (S j) Hj).
    by rewrite <- Nat.add_succ_comm in H.
Qed.

(** X5: substitution is by whole names only. A type name that, once
    cleaned, contains a generic marker is never changed by placeholders
    that are plain names: a member of type [TArray<T>] keeps the [T] in
    every instance. *)
Theorem ReplaceTemplateType_whole_names_only t subs actual :
  contains_char "<" (CleanTypeName t) = true →
  Forall (λ p, contains_char "<" p = false) subs →
  ReplaceTemplateType t subs actual = Some (CleanTypeName t).
Proof.
  intros Hlt Hsubs. apply ReplaceTemplateType_loop_no_match.
  intros Hin. rewrite Forall_forall in Hsubs. specialize (Hsubs _ Hin).
  congruence.
Qed.

Lemma ReplaceTemplateType_whole_names_only_witness :
  ReplaceTemplateType "const TArray<T>&" ["T"] ["int"] = Some "TArray<T>".
Proof.
  apply (ReplaceTemplateType_whole_names_only "const TArray<T>&" ["T"] ["int"]).
  - reflexivity.
  - by repeat constructor.
Defined.

(** X6: instantiating a template with its own placeholder names changes
    no type name beyond cleaning it. *)
Theorem ReplaceTemplateType_identity t subs :
  ReplaceTemplateType t subs subs = Some (CleanTypeName t).
Proof. apply ReplaceTemplateType_loop_same. by intros j. Qed.

(** ** Removal and ingestion *)

Lemma registry_eq s1 s2 :
  heap s1 = heap s2 →
  (∀ k, database s1 !! k = database s2 !! k) →
  s1 = s2.
Proof.
  destruct s1 as [h1 d1], s2 as [h2 d2]. cbn. intros -> Hl.
  f_equal. by apply map_eq.
Qed.

(** X7: removing the types of a module a second time changes nothing, and
    removals of two modules give the same registry in either order. *)
Theorem RemoveTypesInModule_idempotent_commutes m1 m2 s :
  ∃ s1 s2 s12,
    RemoveTypesInModule m1 s = Some (Normal tt, s1) ∧
    RemoveTypesInModule m1 s1 = Some (Normal tt, s1) ∧
    RemoveTypesInModule m2 s = Some (Normal tt, s2) ∧
    RemoveTypesInModule m2 s1 = Some (Normal tt, s12) ∧
    RemoveTypesInModule m1 s2 = Some (Normal tt, s12).
Proof.
  destruct (RemoveTypesInModule_lookup m1 s) as (s1 & H1 & Hh1 & Hl1).
  destruct (RemoveTypesInModule_lookup m2 s) as (s2 & H2 & Hh2 & Hl2).
  destruct (RemoveTypesInModule_lookup m1 s1) as (s11 & H11 & Hh11 & Hl11).
  destruct (RemoveTypesInModule_lookup m2 s1) as (s12 & H12 & Hh12 & Hl12).
  destruct (RemoveTypesInModule_lookup m1 s2) as (s21 & H21 & Hh21 & Hl21).
  exists s1, s2, s12. split_and!; [done| |done|done|].
  - rewrite H11. do 2 f_equal. apply registry_eq; [congruence|].
    intros k. rewrite Hl11, Hl1, Hh1.
    destruct (database s !! k) as [a|]; [|done].
    destruct (declared_in m1 (heap s) a) eqn:Hd; [done|]. by rewrite Hd.
  - rewrite H21. do 2 f_equal. apply registry_eq; [congruence|].
    intros k. rewrite Hl21, Hl12, Hl1, Hl2, Hh1, Hh2.
    destruct (database s !! k) as [a|]; [|done].
    destruct (declared_in m1 (heap s) a) eqn:Hd1,
             (declared_in m2 (heap s) a) eqn:Hd2; by rewrite ?Hd1, ?Hd2.
Qed.

Lemma RemoveTypesInModule_wf m s s' :
  wf s → RemoveTypesInModule m s = Some (Normal tt, s') → wf s'.
Proof.
  intros Hwf HR.
  destruct (RemoveTypesInModule_lookup m s) as (s1 & H1 & Hh1 & Hl1).
  rewrite HR in H1. inversion H1; subst s1. intros k a. rewrite Hl1, Hh1.
  destruct (database s !! k) as [b|] eqn:Hk; [|done].
  destruct (declared_in m (heap s) b); [done|]. intros [= <-]. by eapply Hwf.
Qed.

(** X8: after the types of a module are removed, the lookup of a plain
    name that was declared in the module returns nothing, and the lookup
    of a plain name that was not returns the object it returned before;
    a well-formed registry stays well-formed. *)
Theorem GetType_after_removal m s s' name a :
  RemoveTypesInModule m s = Some (Normal tt, s') →
  str_all is_word name = true →
  database s !! name = Some a →
  (declared_in m (heap s) a = true →
   GetType name s' = Some (Normal None, s')) ∧
  (declared_in m (heap s) a = false →
   GetType name s' = Some (Normal (Some a), s')) ∧
  (wf s → wf s').
Proof.
  intros HR Hw Hk.
  destruct (RemoveTypesInModule_lookup m s) as (s1 & H1 & Hh1 & Hl1).
  rewrite HR in H1. inversion H1; subst s1.
  pose proof (GetType_fuel_word 1 name s' Hw) as HG. fold (GetType name) in HG.
  rewrite HG, Hl1, Hk. split_and!.
  - by intros ->.
  - by intros ->.
  - intros Hwf. by eapply RemoveTypesInModule_wf.
Qed.

Lemma GetType_after_removal_witness :
  ∃ s',
    RemoveTypesInModule "containers" Sample.generic = Some (Normal tt, s') ∧
    GetType "Array" s' = Some (Normal None, s') ∧
    GetType "int" s' = Some (Normal (Some 1), s').
Proof.
  destruct (RemoveTypesInModule_lookup "containers" Sample.generic)
    as (s' & HR & _ & _).
  exists s'. split; [exact HR|]. split.
  - by apply (GetType_after_removal _ _ _ "Array" 0 HR).
  - by apply (GetType_after_removal _ _ _ "int" 1 HR).
Defined.

Lemma AddTypesFromUnreal_ingest input :
  AddTypesFromUnreal input = ingest (dump_entries input).
Proof.
  induction input as [|[key desc] rest IH]; [done|].
  cbn [AddTypesFromUnreal dump_entries map ingest fst snd].
  by rewrite IH.
Qed.

Lemma AddPrimitiveTypes_loop_ingest names :
  AddPrimitiveTypes_loop names = ingest (primitive_entries names).
Proof.
  induction names as [|p rest IH]; [done|].
  cbn [AddPrimitiveTypes_loop primitive_entries map ingest]. by rewrite IH.
Qed.

Lemma ingest_spec entries s :
  ∃ s', ingest entries s = Some (Normal tt, s') ∧
        heap s' = (heap s ++ entries.*2)%list ∧
        (∀ k, k ∉ entries.*1 → database s' !! k = database s !! k) ∧
        (∀ pre k o post,
           entries = (pre ++ (k, o) :: post)%list → k ∉ post.*1 →
           database s' !! k = Some (length (heap s) + length pre)) ∧
        (∀ k, k ∈ entries.*1 → ∃ a, database s' !! k = Some a ∧
                                     (length (heap s) ≤ a)%nat) ∧
        (wf s → wf s').
Proof.
  revert s. induction entries as [|[key o] rest IH]; intros s.
  - exists s. split_and!; [done|by rewrite app_nil_r|done| | |done].
    + intros [|??] ???; discriminate.
    + intros k Hk. by apply elem_of_nil in Hk.
  - cbn [ingest]. unfold_M.
    set (s1 := {| heap := heap s ++ [o];
                  database := <[key := length (heap s)]> (database s) |}).
    destruct (IH s1) as (s' & HI & Hh & Hfr & Hlast & Hnew & Hwf).
    exists s'. split; [exact HI|].
    assert (Hlen1 : length (heap s1) = S (length (heap s))).
    { unfold s1. cbn [heap]. rewrite length_app. cbn [length]. lia. }
    split_and!.
    + rewrite Hh. unfold s1. cbn [heap fmap list_fmap snd].
      by rewrite <- app_assoc.
    + intros k Hk. cbn [fmap list_fmap fst] in Hk.
      apply not_elem_of_cons in Hk as [Hne Hk].
      rewrite (Hfr k Hk). unfold s1. cbn [database].
      by apply lookup_insert_ne.
    + intros pre k o' post Heq Hk. destruct pre as [|x pre].
      * cbn [app] in Heq. inversion Heq; subst key o' post.
        rewrite (Hfr k Hk). unfold s1. cbn [database length].
        rewrite Nat.add_0_r. apply lookup_insert_eq.
      * cbn [app] in Heq. inversion Heq; subst x rest.
        rewrite (Hlast pre k o' post eq_refl Hk), Hlen1. cbn [length].
        f_equal. lia.
    + intros k Hk. cbn [fmap list_fmap fst] in Hk.
      destruct (decide (k ∈ rest.*1)) as [Hin|Hnin].
      * destruct (Hnew k Hin) as (a & Ha & Hle). exists a. split; [done|lia].
      * apply elem_of_cons in Hk as [->|Hk]; [|done].
        exists (length (heap s)). split; [|done].
        rewrite (Hfr key Hnin). unfold s1. cbn [database].
        apply lookup_insert_eq.
    + intros Hwfs. apply Hwf. intros k a. unfold s1. cbn [heap database].
      rewrite length_app. cbn [length].
      destruct (decide (k = key)) as [->|Hne].
      * rewrite lookup_insert_eq. intros [= <-]. lia.
      * rewrite lookup_insert_ne by done. intros Hk.
        pose proof (Hwfs k a Hk). lia.
Qed.

(** X9: ingesting a dump makes one new object per entry, in order, behind
    the objects already there; a key is bound to the object of its last
    entry in the dump, which every name that cleans to the key then
    resolves to; keys that are not in the dump keep their binding; a
    well-formed registry stays well-formed. *)
Theorem AddTypesFromUnreal_last_entry_wins input s :
  ∃ s',
    AddTypesFromUnreal input s = Some (Normal tt, s') ∧
    heap s' = (heap s ++ map (λ kv, DBType_fromJSON kv.1 kv.2) input)%list ∧
    (∀ pre key desc post,
       input = (pre ++ (key, desc) :: post)%list → key ∉ post.*1 →
       database s' !! key = Some (length (heap s) + length pre) ∧
       heap s' !! (length (heap s) + length pre) =
         Some (DBType_fromJSON key desc) ∧
       ∀ name, CleanTypeName name = key →
         GetType name s' =
           Some (Normal (Some (length (heap s) + length pre)), s')) ∧
    (∀ k, k ∉ input.*1 → database s' !! k = database s !! k) ∧
    (wf s → wf s').
Proof.
  destruct (ingest_spec (dump_entries input) s)
    as (s' & HI & Hh & Hfr & Hlast & _ & Hwf).
  assert (H1 : (dump_entries input).*1 = input.*1).
  { unfold dump_entries. rewrite <- list_fmap_compose. done. }
  assert (H2 : (dump_entries input).*2 =
               map (λ kv, DBType_fromJSON kv.1 kv.2) input).
  { unfold dump_entries. rewrite <- list_fmap_compose. done. }
  exists s'. rewrite AddTypesFromUnreal_ingest. split; [exact HI|].
  rewrite H1 in Hfr. rewrite H2 in Hh.
  split_and!; [done| |done|done].
  intros pre key desc post Heq Hk.
  assert (Hdb : database s' !! key = Some (length (heap s) + length pre)).
  { replace (length pre) with (length (dump_entries pre))
      by (unfold dump_entries; by rewrite length_map).
    apply (Hlast (dump_entries pre) key (DBType_fromJSON key desc)
             (dump_entries post)).
    - rewrite Heq. unfold dump_entries. by rewrite map_app.
    - assert (Hp : (dump_entries post).*1 = post.*1).
      { unfold dump_entries. rewrite <- list_fmap_compose. done. }
      by rewrite Hp. }
  split_and!; [done| |].
  - rewrite Hh, Heq, map_app. cbn [map fst snd].
    rewrite lookup_app_r by lia.
    replace (length (heap s) + length pre - length (heap s)) with
      (length (map (λ kv, DBType_fromJSON kv.1 kv.2) pre) + 0)
      by (rewrite length_map; lia).
    by rewrite lookup_app_r, Nat.add_comm, Nat.add_sub by lia.
  - intros name Hn. apply GetType_of_hit. by rewrite Hn.
Qed.

(** X10: seeding the primitive types makes thirteen new objects behind
    the ones already there; each primitive name is then bound to a new,
    empty type marked as primitive, whatever was bound to it before, and
    its lookup returns that object; every other name keeps its binding;
    a well-formed registry stays well-formed. *)
Theorem AddPrimitiveTypes_seeds s :
  ∃ s',
    AddPrimitiveTypes s = Some (Normal tt, s') ∧
    heap s' =
      (heap s ++
       map (λ p, set_isPrimitive true (DBType_initEmpty p)) primitive_types)%list ∧
    (∀ p, p ∈ primitive_types →
       ∃ a, database s' !! p = Some a ∧
            (length (heap s) ≤ a)%nat ∧
            heap s' !! a = Some (set_isPrimitive true (DBType_initEmpty p)) ∧
            GetType p s' = Some (Normal (Some a), s')) ∧
    (∀ k, k ∉ primitive_types → database s' !! k = database s !! k) ∧
    (wf s → wf s').
Proof.
  destruct (ingest_spec (primitive_entries primitive_types) s)
    as (s' & HI & Hh & Hfr & Hlast & _ & Hwf).
  assert (H1 : ∀ l, (primitive_entries l).*1 = l).
  { intros l. unfold primitive_entries. rewrite <- list_fmap_compose.
    apply list_fmap_id. }
  assert (H2 : ∀ l, (primitive_entries l).*2 =
               map (λ p, set_isPrimitive true (DBType_initEmpty p)) l).
  { intros l. unfold primitive_entries. rewrite <- list_fmap_compose. done. }
  exists s'. unfold AddPrimitiveTypes. rewrite AddPrimitiveTypes_loop_ingest.
  split; [exact HI|]. rewrite H1 in Hfr. rewrite H2 in Hh.
  split_and!; [done| |done|done].
  intros p Hp. destruct (list_elem_of_split_r _ _ Hp) as (pre & post & Heq & Hk).
  exists (length (heap s) + length pre).
  assert (Hdb : database s' !! p = Some (length (heap s) + length pre)).
  { replace (length pre) with (length (primitive_entries pre))
      by (unfold primitive_entries; by rewrite length_map).
    apply (Hlast (primitive_entries pre) p
             (set_isPrimitive true (DBType_initEmpty p))
             (primitive_entries post)).
    - rewrite Heq. unfold primitive_entries. by rewrite map_app.
    - by rewrite H1. }
  split_and!; [done|lia| |].
  - rewrite Hh, Heq, map_app. cbn [map].
    rewrite lookup_app_r by lia.
    replace (length (heap s) + length pre - length (heap s)) with
      (length (map (λ p, set_isPrimitive true (DBType_initEmpty p)) pre) + 0)
      by (rewrite length_map; lia).
    by rewrite lookup_app_r, Nat.add_comm, Nat.add_sub by lia.
  - apply GetType_of_hit. rewrite CleanTypeName_word; [done|].
    clear -Hp. unfold primitive_types in Hp.
    repeat (apply elem_of_cons in Hp as [->|Hp]; [reflexivity|]).
    by apply elem_of_nil in Hp.
Qed.

(** ** Members through the combination list *)

Lemma find_app_first {A} (f : A → bool) (l1 l2 : list A) :
  List.find f (l1 ++ l2)%list =
  match List.find f l1 with
  | Some x => Some x
  | None => List.find f l2
  end.
Proof.
  induction l1 as [|x l1 IH]; [done|]. cbn [app List.find].
  by destruct (f x).
Qed.

(** The objects at the addresses of a list. *)
Lemma allProperties_loop_spec extend acc s r s1 :
  allProperties_loop extend acc s = Some (Normal r, s1) →
  s1 = s ∧
  ∃ Ts, Forall2 (λ a T, heap s !! a = Some T) extend Ts ∧
        r = (acc ++ concat (map DBType.properties Ts))%list.
Proof.
  revert acc. induction extend as [|e rest IH]; intros acc.
  - intros [= <- <-]. split; [done|]. exists []. split; [constructor|].
    by rewrite app_nil_r.
  - cbn [allProperties_loop]. unfold bind at 1. unfold deref.
    destruct (heap s !! e) as [T|] eqn:HT; [|done].
    intros H. destruct (IH _ H) as (-> & Ts & HF & ->).
    split; [done|]. exists (T :: Ts). split; [by constructor|].
    cbn [map concat]. by rewrite app_assoc.
Qed.

Lemma getProperty_search_spec name extend Ts s :
  Forall2 (λ a T, heap s !! a = Some T) extend Ts →
  getProperty_search extend name s =
  Some (Normal (find_property name (concat (map DBType.properties Ts))), s).
Proof.
  induction 1 as [|a T extend Ts HT HF IH]; [done|].
  cbn [getProperty_search map concat]. unfold find_property in *.
  rewrite find_app_first. unfold getProperty_own, find_property.
  unfold_M. rewrite HT.
  by destruct (List.find _ (DBType.properties T)).
Qed.

Lemma getCombineTypesList_head fuel this self s extend s' :
  heap s !! this = Some self →
  getCombineTypesList fuel this s = Some (Normal extend, s') →
  ∃ rest, extend = this :: rest ∧ heap s' !! this = Some self.
Proof.
  intros HT HC.
  destruct (combine_loop_extends fuel [this] 0 s _ _ HC) as [Hpre Hext].
  destruct (Hext extend eq_refl) as [rest ->]. exists rest. split; [done|].
  destruct Hpre as [k ->]. by apply lookup_app_l_Some.
Qed.

(** X11: when the list of all properties of a type can be built, a
    property looked up by name is the first property of that name in the
    list. *)
Theorem getProperty_first_of_allProperties fuel this name s props s1 :
  allProperties fuel this s = Some (Normal props, s1) →
  ∃ s2, getProperty fuel this name true s =
          Some (Normal (find_property name props), s2) ∧
        (s2 = s ∨ s2 = s1).
Proof.
  unfold allProperties, getProperty. unfold bind at 1 3. unfold deref.
  destruct (heap s !! this) as [self|] eqn:HT; [|done].
  destruct (DBType.hasExtendTypes self) eqn:Hext; cbn [negb].
  - unfold bind at 1 2.
    destruct (getCombineTypesList fuel this s) as [[[extend|] s']|] eqn:HC;
      [|done..].
    intros HL. destruct (allProperties_loop_spec _ _ _ _ _ HL)
      as (-> & Ts & HF & ->).
    destruct (getCombineTypesList_head _ _ _ _ _ _ HT HC)
      as (rest & -> & HT').
    inversion HF as [|a T l1 l2 HTa HF']; subst.
    rewrite HT' in HTa. inversion HTa; subst T.
    cbn [app map concat]. unfold find_property at 2.
    rewrite find_app_first. fold (find_property name (DBType.properties self)).
    destruct (find_property name (DBType.properties self)) as [p|] eqn:Hown.
    + exists s. split; [done|by left].
    + exists s'. split; [|by right].
      rewrite HC, (getProperty_search_spec name _ _ _ HF).
      cbn [map concat]. unfold find_property in *.
      by rewrite find_app_first, Hown.
  - intros [= <- <-]. exists s. split; [|by left].
    by destruct (find_property name (DBType.properties self)).
Qed.

Lemma getProperty_first_of_allProperties_witness :
  ∃ s2, getProperty 5 0 "name" true Sample.shapes =
          Some (Normal (find_property "name"
                          (DBType.properties Sample.Circle ++
                           DBType.properties Sample.Shape)%list), s2) ∧
        (s2 = Sample.shapes ∨ s2 = Sample.shapes).
Proof.
  exact (getProperty_first_of_allProperties 5 0 "name" Sample.shapes _ _
           eq_refl).
Defined.

Lemma allMethods_type_first type methods names out all :
  (∀ n, is_Some (names !! n) → is_Some (find_method n out)) →
  (∀ n, find_method n out = find_method n all) →
  ∃ names' out',
    allMethods_type type methods names out = (names', out') ∧
    (∀ n, is_Some (names' !! n) → is_Some (find_method n out')) ∧
    (∀ n, find_method n out' = find_method n (all ++ methods)%list).
Proof.
  revert names out all.
  induction methods as [|mth rest IH]; intros names out all Hn Hf.
  - exists names, out. split_and!; [done|done|]. by rewrite app_nil_r.
  - cbn [allMethods_type].
    assert (Hadd :
      ∃ names' out',
        allMethods_type type rest (<[DBMethod.name mth := type]> names)
          (out ++ [mth])%list = (names', out') ∧
        (∀ n, is_Some (names' !! n) → is_Some (find_method n out')) ∧
        (∀ n, find_method n out' = find_method n (all ++ mth :: rest)%list)).
    { destruct (IH (<[DBMethod.name mth := type]> names) (out ++ [mth])%list
                  (all ++ [mth])%list) as (names' & out' & HA & Hn' & Hf').
      - intros n. unfold find_method. rewrite find_app_first.
        fold (find_method n out).
        destruct (decide (n = DBMethod.name mth)) as [->|Hne].
        + intros _. destruct (find_method _ out); [done|].
          cbn [List.find]. by rewrite String.eqb_refl.
        + rewrite lookup_insert_ne by done. intros Hs.
          destruct (Hn n Hs) as [x ->]. done.
      - intros n. unfold find_method. rewrite !find_app_first.
        fold (find_method n out). fold (find_method n all). by rewrite Hf.
      - exists names', out'. split_and!; [done|done|].
        intros n. rewrite Hf'. by rewrite <- app_assoc. }
    destruct (names !! DBMethod.name mth) as [declType|] eqn:Hd; [|exact Hadd].
    destruct (bool_decide (declType ≠ type)); [|exact Hadd].
    destruct (IH names out (all ++ [mth])%list) as (names' & out' & HA & Hn' & Hf').
    + done.
    + intros n. unfold find_method. rewrite find_app_first.
      fold (find_method n all). rewrite <- Hf.
      destruct (find_method n out) eqn:Ho; [done|].
      cbn [List.find]. destruct (String.eqb_spec (DBMethod.name mth) n) as [<-|]; [|done].
      destruct (Hn (DBMethod.name mth)) as [x Hx]; [by eexists|]. congruence.
    + exists names', out'. split_and!; [done|done|].
      intros n. rewrite Hf'. by rewrite <- app_assoc.
Qed.

Lemma allMethods_loop_first extend names out all s r s1 :
  (∀ n, is_Some (names !! n) → is_Some (find_method n out)) →
  (∀ n, find_method n out = find_method n all) →
  allMethods_loop extend names out s = Some (Normal r, s1) →
  s1 = s ∧
  ∃ Ts, Forall2 (λ a T, heap s !! a = Some T) extend Ts ∧
        ∀ n, find_method n r =
             find_method n (all ++ concat (map DBType.methods Ts))%list.
Proof.
  revert names out all.
  induction extend as [|e rest IH]; intros names out all Hn Hf.
  - intros [= <- <-]. split; [done|]. exists []. split; [constructor|].
    intros n. by rewrite app_nil_r.
  - cbn [allMethods_loop]. unfold bind at 1. unfold deref.
    destruct (heap s !! e) as [T|] eqn:HT; [|done].
    destruct (allMethods_type_first e (DBType.methods T) names out all Hn Hf)
      as (names' & out' & -> & Hn' & Hf').
    intros H. destruct (IH _ _ _ Hn' Hf' H) as (-> & Ts & HF & Hr).
    split; [done|]. exists (T :: Ts). split; [by constructor|].
    intros n. rewrite Hr. cbn [map concat]. by rewrite app_assoc.
Qed.

Lemma getMethod_search_spec name extend Ts s :
  Forall2 (λ a T, heap s !! a = Some T) extend Ts →
  getMethod_search extend name s =
  Some (Normal (find_method name (concat (map DBType.methods Ts))), s).
Proof.
  induction 1 as [|a T extend Ts HT HF IH]; [done|].
  cbn [getMethod_search map concat]. unfold find_method in *.
  rewrite find_app_first. unfold getMethod_own, find_method.
  unfold_M. rewrite HT.
  by destruct (List.find _ (DBType.methods T)).
Qed.

(** X12: when the list of all methods of a type can be built, a method
    looked up by name is the first method of that name in the list. *)
Theorem getMethod_first_of_allMethods fuel this name s ms s1 :
  allMethods fuel this s = Some (Normal ms, s1) →
  ∃ s2, getMethod fuel this name true s =
          Some (Normal (find_method name ms), s2) ∧
        (s2 = s ∨ s2 = s1).
Proof.
  unfold allMethods, getMethod. unfold bind at 1 3. unfold deref.
  destruct (heap s !! this) as [self|] eqn:HT; [|done].
  destruct (DBType.hasExtendTypes self) eqn:Hext; cbn [negb].
  - unfold bind at 1 2.
    destruct (getCombineTypesList fuel this s) as [[[extend|] s']|] eqn:HC;
      [|done..].
    intros HL.
    destruct (allMethods_loop_first extend ∅ [] [] s' ms s1)
      as (-> & Ts & HF & Hr); [by intros n [x Hx]|done|done|].
    destruct (getCombineTypesList_head _ _ _ _ _ _ HT HC)
      as (rest & -> & HT').
    inversion HF as [|a T l1 l2 HTa HF']; subst.
    rewrite HT' in HTa. inversion HTa; subst T.
    rewrite Hr. cbn [app map concat]. unfold find_method at 2.
    rewrite find_app_first. fold (find_method name (DBType.methods self)).
    destruct (find_method name (DBType.methods self)) as [p|] eqn:Hown.
    + exists s. split; [done|by left].
    + exists s'. split; [|by right].
      rewrite HC, (getMethod_search_spec name _ _ _ HF).
      cbn [map concat]. unfold find_method in *.
      by rewrite find_app_first, Hown.
  - intros [= <- <-]. exists s. split; [|by left].
    by destruct (find_method name (DBType.methods self)).
Qed.

Lemma getMethod_first_of_allMethods_witness :
  ∃ s2, getMethod 5 0 "Area" true Sample.shapes =
          Some (Normal (find_method "Area"
                          (DBType.methods Sample.Circle ++
                           [Sample.method "Describe" "FString" []])%list), s2) ∧
        (s2 = Sample.shapes ∨ s2 = Sample.shapes).
Proof.
  exact (getMethod_first_of_allMethods 5 0 "Area" Sample.shapes _ _ eq_refl).
Defined.

Lemma allMethods_type_visible type methods names out (seen : list string) :
  (∀ n, n ∈ seen ↔ ∃ d, names !! n = Some d ∧ d ≠ type) →
  ∃ names',
    allMethods_type type methods names out =
      (names',
       (out ++ List.filter (λ m, negb (bool_decide (DBMethod.name m ∈ seen)))
                 methods)%list) ∧
    (∀ n d, names' !! n = Some d →
            names !! n = Some d ∨
            (d = type ∧ n ∈ DBMethod.name <$> methods)) ∧
    (∀ n, n ∈ DBMethod.name <$> methods → is_Some (names' !! n)) ∧
    (∀ n, is_Some (names !! n) → is_Some (names' !! n)).
Proof.
  revert names out.
  induction methods as [|mth rest IH]; intros names out Hseen.
  - exists names. cbn [allMethods_type List.filter]. rewrite app_nil_r.
    split_and!; [done|by left| |done].
    intros n Hn. by apply elem_of_nil in Hn.
  - cbn [allMethods_type List.filter].
    assert (Hadd : DBMethod.name mth ∉ seen →
      ∃ names',
        allMethods_type type rest (<[DBMethod.name mth := type]> names)
          (out ++ [mth])%list =
        (names',
         (out ++
          (if negb (bool_decide (DBMethod.name mth ∈ seen))
           then mth :: List.filter
                         (λ m, negb (bool_decide (DBMethod.name m ∈ seen))) rest
           else List.filter
                  (λ m, negb (bool_decide (DBMethod.name m ∈ seen))) rest))%list) ∧
        (∀ n d, names' !! n = Some d →
                names !! n = Some d ∨
                (d = type ∧ n ∈ DBMethod.name <$> mth :: rest)) ∧
        (∀ n, n ∈ DBMethod.name <$> mth :: rest → is_Some (names' !! n)) ∧
        (∀ n, is_Some (names !! n) → is_Some (names' !! n))).
    { intros Hnot. rewrite (bool_decide_eq_false_2 _ Hnot). cbn [negb].
      destruct (IH (<[DBMethod.name mth := type]> names) (out ++ [mth])%list)
        as (names' & HA & Hval & Hin & Hmono).
      - intros n. rewrite Hseen.
        destruct (decide (n = DBMethod.name mth)) as [->|Hne].
        + rewrite lookup_insert_eq. split.
          * intros Hd. by apply Hseen in Hd.
          * intros (d & [= <-] & Hd). done.
        + by rewrite lookup_insert_ne.
      - exists names'. rewrite HA, <- app_assoc. split_and!; [done| | |].
        + intros n d Hnd. destruct (Hval n d Hnd) as [Hold|[-> Hn]].
          * destruct (decide (n = DBMethod.name mth)) as [->|Hne].
            -- rewrite lookup_insert_eq in Hold. inversion Hold; subst d.
               right. split; [done|]. rewrite fmap_cons. apply list_elem_of_here.
            -- rewrite lookup_insert_ne in Hold by done. by left.
          * right. split; [done|]. rewrite fmap_cons.
            by apply list_elem_of_further.
        + intros n. rewrite fmap_cons. intros Hn.
          apply elem_of_cons in Hn as [->|Hn]; [|by apply Hin].
          apply Hmono. rewrite lookup_insert_eq. by eexists.
        + intros n Hn. apply Hmono.
          destruct (decide (n = DBMethod.name mth)) as [->|Hne].
          * rewrite lookup_insert_eq. by eexists.
          * by rewrite lookup_insert_ne. }
    destruct (names !! DBMethod.name mth) as [declType|] eqn:Hd.
    + destruct (bool_decide (declType ≠ type)) eqn:Hb.
      * apply bool_decide_eq_true_1 in Hb.
        assert (Hin : DBMethod.name mth ∈ seen)
          by (apply Hseen; by exists declType).
        rewrite (bool_decide_eq_true_2 _ Hin). cbn [negb].
        destruct (IH names out Hseen) as (names' & HA & Hval & Hin' & Hmono).
        exists names'. split_and!; [done| | |done].
        -- intros n d Hnd. destruct (Hval n d Hnd) as [Hold|[-> Hn]];
             [by left|]. right. split; [done|]. rewrite fmap_cons.
           by apply list_elem_of_further.
        -- intros n. rewrite fmap_cons. intros Hn.
           apply elem_of_cons in Hn as [->|Hn]; [|by apply Hin'].
           apply Hmono. by eexists.
      * apply bool_decide_eq_false_1 in Hb.
        apply Hadd. intros Hin. apply Hseen in Hin as (d & Hd' & Hne).
        rewrite Hd in Hd'. inversion Hd'; subst d.
        apply Hb. done.
    + apply Hadd. intros Hin. apply Hseen in Hin as (d & Hd' & _).
      congruence.
Qed.

Lemma allMethods_loop_visible extend names out (seen : list string)
    (P : list nat) s r s1 :
  (∀ n, n ∈ seen ↔ is_Some (names !! n)) →
  (∀ n d, names !! n = Some d → d ∈ P) →
  NoDup (P ++ extend)%list →
  allMethods_loop extend names out s = Some (Normal r, s1) →
  s1 = s ∧
  ∃ Ts, Forall2 (λ a T, heap s !! a = Some T) extend Ts ∧
        r = (out ++ visible_methods seen Ts)%list.
Proof.
  revert names out seen P.
  induction extend as [|e rest IH]; intros names out seen P Hseen Hval Hnd.
  - intros [= <- <-]. split; [done|]. exists []. split; [constructor|].
    cbn [visible_methods]. by rewrite app_nil_r.
  - cbn [allMethods_loop]. unfold bind at 1. unfold deref.
    destruct (heap s !! e) as [T|] eqn:HT; [|done].
    assert (HeP : e ∉ P).
    { apply NoDup_app in Hnd as (_ & Hdis & _). intros Hin.
      apply (Hdis e Hin). apply list_elem_of_here. }
    destruct (allMethods_type_visible e (DBType.methods T) names out seen)
      as (names' & -> & Hval' & Hin' & Hmono).
    { intros n. rewrite Hseen. split.
      - intros [d Hd]. exists d. split; [done|].
        intros ->. by apply HeP, (Hval n).
      - intros (d & Hd & _). by exists d. }
    intros H.
    destruct (λ H1 H2 H3,
                IH names' _ (seen ++ (DBMethod.name <$> DBType.methods T))%list
                  (P ++ [e])%list H1 H2 H3 H) as (-> & Ts & HF & ->).
    + intros n. rewrite elem_of_app. split.
      * intros [Hn|Hn]; [by apply Hmono, Hseen|by apply Hin'].
      * intros [d Hd]. destruct (Hval' n d Hd) as [Hold|[_ Hn]];
          [left; apply Hseen; by exists d|by right].
    + intros n d Hd. rewrite elem_of_app.
      destruct (Hval' n d Hd) as [Hold|[-> _]];
        [left; by apply (Hval n)|right; apply list_elem_of_here].
    + by rewrite <- app_assoc.
    + split; [done|]. exists (T :: Ts). split; [by constructor|].
      cbn [visible_methods]. by rewrite <- app_assoc.
Qed.

Lemma filter_unseen_nil (l : list DBMethod.t) :
  List.filter (λ m, negb (bool_decide (DBMethod.name m ∈ @nil string))) l = l.
Proof.
  induction l as [|x l IH]; [done|]. cbn [List.filter].
  rewrite bool_decide_eq_false_2 by apply not_elem_of_nil.
  cbn [negb]. by rewrite IH.
Qed.

Lemma getCombineTypesList_NoDup fuel this s extend s' :
  wf s → this < length (heap s) →
  getCombineTypesList fuel this s = Some (Normal extend, s') →
  NoDup extend.
Proof.
  intros Hwf Hlt HC.
  destruct (getCombineTypesList_ends s this (fuel + S (walk_bound s)) Hwf Hlt)
    as (r & s2 & HC2 & _ & _ & Hinv); [lia|].
  unfold getCombineTypesList in *.
  rewrite (combine_loop_fuel_mono fuel (fuel + S (walk_bound s)) _ _ _ _ HC)
    in HC2 by lia.
  inversion HC2; subst r s2. destruct (Hinv extend eq_refl) as (_ & _ & Hnd & _).
  done.
Qed.

(** X13: the list of all methods of a type, when it can be built, holds
    for each object of the combination list, in order, the methods whose
    name no earlier object of the list declares: every method of the type
    itself with its overloads, and of an extended type only what the
    types before it do not declare under the same name. *)
Theorem allMethods_hides_by_name fuel this s ms s1 :
  wf s →
  allMethods fuel this s = Some (Normal ms, s1) →
  ∃ self extend Ts,
    heap s !! this = Some self ∧
    (if DBType.hasExtendTypes self
     then getCombineTypesList fuel this s = Some (Normal extend, s1)
     else extend = [this] ∧ s1 = s) ∧
    Forall2 (λ a T, heap s1 !! a = Some T) extend Ts ∧
    ms = visible_methods [] Ts ∧
    DBType.methods self `prefix_of` ms.
Proof.
  intros Hwf. unfold allMethods. unfold bind at 1. unfold deref.
  destruct (heap s !! this) as [self|] eqn:HT; [|done].
  destruct (DBType.hasExtendTypes self) eqn:Hext; cbn [negb].
  - unfold bind at 1.
    destruct (getCombineTypesList fuel this s) as [[[extend|] s']|] eqn:HC;
      [|done..].
    intros HL.
    pose proof (getCombineTypesList_NoDup _ _ _ _ _ Hwf
                  (lookup_lt_Some _ _ _ HT) HC) as Hnd.
    destruct (allMethods_loop_visible extend ∅ [] [] [] s' ms s1)
      as (-> & Ts & HF & ->); [| |done|done|].
    { intros n. split; [intros Hn; by apply elem_of_nil in Hn|].
      intros [x Hx]. done. }
    { intros n d Hd. done. }
    destruct (getCombineTypesList_head _ _ _ _ _ _ HT HC)
      as (rest & -> & HT').
    exists self, (this :: rest), Ts. rewrite Hext.
    split_and!; [done|done|done|done|].
    inversion HF as [|a T l1 l2 HTa HF']; subst.
    rewrite HT' in HTa. inversion HTa; subst T.
    cbn [app visible_methods].
    rewrite (filter_unseen_nil (DBType.methods self)). by eexists.
  - intros [= <- <-]. exists self, [this], [self]. rewrite Hext.
    split_and!; [done|done|done|by repeat constructor| |].
    + cbn [visible_methods]. by rewrite filter_unseen_nil, app_nil_r.
    + done.
Qed.

Lemma wf_sample_shapes : wf Sample.shapes.
Proof.
  intros k a. cbn [Sample.shapes database heap length].
  rewrite lookup_insert. case_decide; [intros [= <-]; lia|].
  rewrite lookup_singleton. case_decide; [intros [= <-]; lia|done].
Qed.

Lemma allMethods_hides_by_name_witness :
  ∃ self extend Ts,
    heap Sample.shapes !! 0 = Some self ∧
    (if DBType.hasExtendTypes self
     then getCombineTypesList 5 0 Sample.shapes =
            Some (Normal extend, Sample.shapes)
     else extend = [0] ∧ Sample.shapes = Sample.shapes) ∧
    Forall2 (λ a T, heap Sample.shapes !! a = Some T) extend Ts ∧
    (DBType.methods Sample.Circle ++ [Sample.method "Describe" "FString" []])%list
      = visible_methods [] Ts ∧
    DBType.methods self `prefix_of`
      (DBType.methods Sample.Circle ++
       [Sample.method "Describe" "FString" []])%list.
Proof.
  exact (allMethods_hides_by_name 5 0 Sample.shapes _ _ wf_sample_shapes
           eq_refl).
Defined.

(** ** Inheritance *)

Lemma GetType_miss_inv name s s' :
  GetType name s = Some (Normal None, s') →
  s' = s ∧ database s !! CleanTypeName name = None.
Proof.
  intros HG. destruct (GetType_cases name s) as (r & s1 & HG' & Hout).
  rewrite HG in HG'. inversion HG'; subst r s1; clear HG'.
  inversion Hout; subst; done.
Qed.

Lemma inheritsFrom_loop_extends fuel it c s r s' :
  inheritsFrom_loop fuel it c s = Some (r, s') →
  heap s `prefix_of` heap s' ∧ database s ⊆ database s'.
Proof.
  revert it s. induction fuel as [|fuel IH]; intros [i|] s; cbn [inheritsFrom_loop];
    try (intros [= <- <-]; done); try done.
  unfold bind at 1. unfold deref at 1.
  destruct (heap s !! i) as [itT|]; [|by intros [= <- <-]].
  unfold bind at 1. unfold deref at 1.
  destruct (heap s !! c) as [C|]; [|by intros [= <- <-]].
  destruct (String.eqb _ _); [by intros [= <- <-]|].
  destruct (inheritsFrom_next itT) as [name|]; [|by intros [= <- <-]].
  unfold bind at 1.
  destruct (GetType name s) as [[[next|] s1]|] eqn:HG; [| |done].
  - intros HL. destruct (GetType_extends _ _ _ _ HG) as [Hh Hd].
    destruct (IH _ _ HL) as [Hh' Hd'].
    split; [by etrans|by etrans].
  - intros [= <- <-]. by apply (GetType_extends _ _ _ _ HG).
Qed.

Lemma inheritsFrom_loop_decides fuel i c C s b s' :
  heap s !! c = Some C →
  inheritsFrom_loop fuel (Some i) c s = Some (Normal b, s') →
  b = true ↔
  ∃ j T, rtc (parent_of s') i j ∧ heap s' !! j = Some T ∧
         DBType.typename T = DBType.typename C.
Proof.
  revert i s. induction fuel as [|fuel IH]; intros i s HC; [done|].
  cbn [inheritsFrom_loop]. unfold bind at 1. unfold deref at 1.
  destruct (heap s !! i) as [itT|] eqn:Hi; [|done].
  unfold bind at 1. unfold deref at 1. rewrite HC.
  destruct (String.eqb_spec (DBType.typename itT) (DBType.typename C))
    as [Heq|Hne].
  { intros [= <- <-]. split; [|done]. intros _. by exists i, itT. }
  assert (Hstay : ∀ s2 j T,
            heap s `prefix_of` heap s2 →
            rtc (parent_of s2) i j → heap s2 !! j = Some T →
            DBType.typename T = DBType.typename C →
            ∃ k, parent_of s2 i k ∧ rtc (parent_of s2) k j).
  { intros s2 j T Hpre Hrtc HT HTC.
    destruct (rtc_inv _ _ Hrtc) as [<-|(k & Hstep & Hrest)]; [|by exists k].
    destruct Hpre as [l Hl]. rewrite Hl in HT.
    rewrite (lookup_app_l_Some _ _ _ _ Hi) in HT. by inversion HT; subst. }
  destruct (inheritsFrom_next itT) as [name|] eqn:Hnext.
  - unfold bind at 1.
    destruct (GetType name s) as [[[[k|]|] s1]|] eqn:HG; [| |done|done].
    + intros HL.
      destruct (GetType_extends _ _ _ _ HG) as [Hh Hd].
      destruct (inheritsFrom_loop_extends _ _ _ _ _ _ HL) as [Hh' Hd'].
      assert (HC1 : heap s1 !! c = Some C).
      { destruct Hh as [l ->]. by apply lookup_app_l_Some. }
      assert (Hi' : heap s' !! i = Some itT).
      { destruct Hh as [l Hl]. destruct Hh' as [l' Hl']. rewrite Hl', Hl.
        by apply lookup_app_l_Some, lookup_app_l_Some. }
      assert (Hk : database s' !! CleanTypeName name = Some k).
      { eapply lookup_weaken; [|exact Hd']. by eapply GetType_hit_after. }
      rewrite (IH k s1 HC1 HL). split.
      * intros (j & T & Hrtc & HT & HTC). exists j, T. split; [|done].
        eapply rtc_l; [|exact Hrtc]. by exists itT, name.
      * intros (j & T & Hrtc & HT & HTC).
        destruct (Hstay s' j T) as (k' & Hstep & Hrest); [by etrans|done..|].
        destruct Hstep as (T' & name' & HT' & Hn' & Hk').
        rewrite Hi' in HT'. inversion HT'; subst T'.
        rewrite Hnext in Hn'. inversion Hn'; subst name'.
        rewrite Hk in Hk'. inversion Hk'; subst k'. by exists j, T.
    + destruct (GetType_miss_inv _ _ _ HG) as [-> Hmiss].
      assert (Hend : inheritsFrom_loop fuel None c s = Some (Normal false, s))
        by (by destruct fuel).
      rewrite Hend. intros [= <- <-]. split; [done|].
      intros (j & T & Hrtc & HT & HTC).
      destruct (Hstay s j T) as (k' & Hstep & _); [done..|].
      destruct Hstep as (T' & name' & HT' & Hn' & Hk').
      rewrite Hi in HT'. inversion HT'; subst T'.
      rewrite Hnext in Hn'. inversion Hn'; subst name'. congruence.
  - intros [= <- <-]. split; [done|].
    intros (j & T & Hrtc & HT & HTC).
    destruct (Hstay s j T) as (k' & Hstep & _); [done..|].
    destruct Hstep as (T' & name' & HT' & Hn' & Hk').
    rewrite Hi in HT'. inversion HT'; subst T'. congruence.
Qed.

(** X14: when [inheritsFrom] returns, it returns true exactly when the
    candidate name is bound to an object and some object reached from
    the type by following the name of the supertype (or, where that is
    empty, of the engine's super class) has the [typename] of that
    object: names are compared, not objects. *)
Theorem inheritsFrom_decides_ancestry fuel this checktype s b s' :
  inheritsFrom fuel this checktype s = Some (Normal b, s') →
  b = true ↔ has_ancestor_named s' this checktype.
Proof.
  unfold inheritsFrom. unfold bind at 1.
  destruct (GetType checktype s) as [[[[c|]|] s0]|] eqn:HG; [| |done|done].
  - intros HL.
    destruct (inheritsFrom_loop_extends _ _ _ _ _ _ HL) as [Hh Hd].
    assert (Hc : database s' !! CleanTypeName checktype = Some c).
    { eapply lookup_weaken; [|exact Hd]. by eapply GetType_hit_after. }
    destruct (heap s0 !! c) as [C|] eqn:HC.
    + rewrite (inheritsFrom_loop_decides _ _ _ _ _ _ _ HC HL).
      assert (HC' : heap s' !! c = Some C).
      { destruct Hh as [l ->]. by apply lookup_app_l_Some. }
      split.
      * intros (j & T & Hrtc & HT & HTC). by exists c, C, j, T.
      * intros (c' & C' & j & T & Hc' & HC'' & Hrtc & HT & HTC).
        rewrite Hc in Hc'. inversion Hc'; subst c'.
        rewrite HC' in HC''. inversion HC''; subst C'. by exists j, T.
    + destruct fuel as [|fuel]; [done|]. cbn [inheritsFrom_loop] in HL.
      unfold bind at 1 in HL. unfold deref at 1 in HL.
      destruct (heap s0 !! this); [|done].
      unfold bind at 1 in HL. unfold deref at 1 in HL.
      by rewrite HC in HL.
  - destruct (GetType_miss_inv _ _ _ HG) as [-> Hmiss].
    intros [= <- <-]. split; [done|].
    intros (c & C & j & T & Hc & _). congruence.
Qed.

(** X15: [inheritsFrom] has no guard against cycles: when the names it
    follows from the type lead around a cycle of objects none of which
    has the [typename] of the candidate, it never returns. *)
Theorem inheritsFrom_cycle_diverges (P : addr → Prop) this checktype c C s s0 :
  GetType checktype s = Some (Normal (Some c), s0) →
  heap s0 !! c = Some C →
  P this →
  (∀ i, P i →
        ∃ T name j, heap s0 !! i = Some T ∧
                    DBType.typename T ≠ DBType.typename C ∧
                    inheritsFrom_next T = Some name ∧
                    GetType name s0 = Some (Normal (Some j), s0) ∧
                    P j) →
  ∀ fuel, inheritsFrom fuel this checktype s = None.
Proof.
  intros HG HC HP Hcyc fuel. unfold inheritsFrom. unfold bind at 1.
  rewrite HG. clear HG. revert this HP.
  induction fuel as [|fuel IH]; intros this HP; [done|].
  destruct (Hcyc this HP) as (T & name & j & HT & Hne & Hnext & HG & HPj).
  cbn [inheritsFrom_loop]. unfold bind at 1. unfold deref at 1. rewrite HT.
  unfold bind at 1. unfold deref at 1. rewrite HC.
  destruct (String.eqb_spec (DBType.typename T) (DBType.typename C)); [done|].
  rewrite Hnext. unfold bind at 1. rewrite HG. by apply IH.
Qed.

Lemma inheritsFrom_decides_ancestry_witness :
  (true = true ↔ has_ancestor_named Sample.shapes 0 "Shape") ∧
  (false = true ↔ has_ancestor_named Sample.shapes 1 "Circle").
Proof.
  split.
  - exact (inheritsFrom_decides_ancestry 5 0 "Shape" Sample.shapes true
             Sample.shapes eq_refl).
  - exact (inheritsFrom_decides_ancestry 5 1 "Circle" Sample.shapes false
             Sample.shapes eq_refl).
Defined.

Lemma inheritsFrom_cycle_diverges_witness :
  inheritsFrom 1000 0 "Z" Sample.cyclic_and_other = None.
Proof.
  generalize 1000.
  apply (inheritsFrom_cycle_diverges (λ i, i = 0 ∨ i = 1) 0 "Z" 2
           (Sample.plain "Z") Sample.cyclic_and_other Sample.cyclic_and_other).
  - reflexivity.
  - reflexivity.
  - left. reflexivity.
  - intros i [->| ->].
    + exists (Sample.derived "A" (Some "B") None []), "B", 1.
      split; [reflexivity|]. split; [discriminate|].
      split; [reflexivity|]. split; [reflexivity|]. right. reflexivity.
    + exists (Sample.derived "B" (Some "A") (Some ["B"; "A"]) []), "A", 0.
      split; [reflexivity|]. split; [discriminate|].
      split; [reflexivity|]. split; [reflexivity|]. left. reflexivity.
Defined.

(** ** Directly extended types *)

Lemma getExtendTypes_siblings_visit siblings e1 e2 s r1 s1 :
  (∀ a, a ∈ e1 → a ∈ e2) →
  getExtendTypes_siblings siblings e1 s = Some (Normal r1, s1) →
  ∃ r2, visit_siblings siblings e2 s = Some (Normal r2, s1) ∧
        ∀ a, a ∈ r1 → a ∈ r2.
Proof.
  revert e1 e2 s. induction siblings as [|sib rest IH]; intros e1 e2 s Hsub.
  - intros [= <- <-]. by exists e2.
  - cbn [getExtendTypes_siblings visit_siblings]. unfold visit_name.
    unfold bind at 1 2 3.
    destruct (GetType sib s) as [[[db|] s']|]; [|done..].
    intros H. apply (IH (push_resolved e1 db) (push_unique e2 db) s'); [|done].
    intros a Ha.
    destruct db as [d|]; cbn [push_resolved push_unique] in *; [|by apply Hsub].
    apply elem_of_app in Ha as [Ha|Ha].
    + case_bool_decide; [by apply Hsub|]. apply elem_of_app. left. by apply Hsub.
    + apply list_elem_of_singleton in Ha as ->.
      case_bool_decide; [done|]. apply elem_of_app. right.
      apply list_elem_of_here.
Qed.

(** X16: the types a type extends directly, as [getExtendTypes] returns
    them, are all members of its combination list, and the walk for the
    combination list starts with the very lookups [getExtendTypes]
    makes. *)
Theorem getExtendTypes_in_combination fuel this s ext s1 extend s2 :
  getExtendTypes this s = Some (Normal ext, s1) →
  getCombineTypesList fuel this s = Some (Normal extend, s2) →
  (∀ a, a ∈ ext → a ∈ extend) ∧ this ∈ extend ∧
  heap s1 `prefix_of` heap s2.
Proof.
  unfold getExtendTypes. unfold bind at 1. unfold deref.
  destruct (heap s !! this) as [self|] eqn:HT; [|done].
  destruct fuel as [|fuel]; [done|].
  rewrite (getCombineTypesList_first_turn fuel this self s HT).
  unfold resolve_supertype. unfold bind at 1 3.
  set (dbsuper :=
         match DBType.supertype self with
         | Some supertype =>
             if DBType.truthy_string (Some supertype) then GetType supertype
             else ret None
         | None => ret None
         end).
  assert (Hsuper :
    match DBType.supertype self with
    | Some supertype =>
        if DBType.truthy_string (Some supertype)
        then let* dbsuper := GetType supertype in ret (push_resolved [] dbsuper)
        else ret []
    | None => ret []
    end s =
    match dbsuper s with
    | Some (Normal d, s') => Some (Normal (push_resolved [] d), s')
    | Some (TypeError, s') => Some (TypeError, s')
    | None => None
    end).
  { unfold dbsuper. destruct (DBType.supertype self) as [sup|]; [|done].
    destruct (DBType.truthy_string (Some sup)); [|done].
    unfold_M. by destruct (GetType sup s) as [[[?|] ?]|]. }
  rewrite Hsuper. destruct (dbsuper s) as [[[d|] s']|]; [|done..].
  assert (Hsub : ∀ a, a ∈ push_resolved [] d → a ∈ push_unique [this] d).
  { intros a. destruct d as [d|]; cbn [push_resolved push_unique].
    - rewrite app_nil_l. intros Ha. apply list_elem_of_singleton in Ha as ->.
      case_bool_decide; [done|]. apply elem_of_app. right.
      apply list_elem_of_here.
    - intros Ha. by apply elem_of_nil in Ha. }
  assert (Hthis : this ∈ push_unique [this] d).
  { destruct d as [d|]; cbn [push_unique]; [|apply list_elem_of_here].
    case_bool_decide; [apply list_elem_of_here|].
    apply elem_of_app. left. apply list_elem_of_here. }
  assert (Hfin : ∀ (r1 r2 : list nat) sa,
            (∀ a, a ∈ r1 → a ∈ r2) → this ∈ r2 →
            combine_loop fuel r2 1 sa = Some (Normal extend, s2) →
            (∀ a, a ∈ r1 → a ∈ extend) ∧ this ∈ extend ∧
            heap sa `prefix_of` heap s2).
  { intros r1 r2 sa Hr Hin HL.
    destruct (combine_loop_extends fuel r2 1 sa _ _ HL) as [Hpre Hext].
    destruct (Hext extend eq_refl) as [l ->].
    split_and!; [|by apply elem_of_app; left|done].
    intros a Ha. apply elem_of_app. left. by apply Hr. }
  destruct (DBType.siblingTypes self) as [siblings|].
  - intros HE. unfold bind at 1.
    destruct (getExtendTypes_siblings_visit _ _ _ _ _ _ Hsub HE)
      as (r2 & Hv & Hr).
    rewrite Hv. apply Hfin; [done|].
    destruct (visit_siblings_extends siblings (push_unique [this] d) s' _ _ Hv)
      as [_ Hpre].
    destruct (Hpre r2 eq_refl) as [l ->]. apply elem_of_app. by left.
  - intros [= <- <-]. unfold bind at 1. cbn [ret]. by apply Hfin.
Qed.

Lemma getExtendTypes_in_combination_witness :
  (∀ a, a ∈ [1; 2; 3] → a ∈ [0; 1; 2; 3]) ∧ 0 ∈ [0; 1; 2; 3] ∧
  heap Sample.mixins_plain `prefix_of` heap Sample.mixins_plain.
Proof.
  exact (getExtendTypes_in_combination 5 0 Sample.mixins_plain [1; 2; 3]
           Sample.mixins_plain [0; 1; 2; 3] Sample.mixins_plain
           eq_refl eq_refl).
Defined.

(** ** Display strings *)

Lemma format_args_rest (i : nat) args :
  (0 < i)%nat →
  ∀ skipFirstArg,
    format_args skipFirstArg i args =
    match args with
    | [] => ""
    | _ => ", " ++ String.concat ", " (map DBArg_format args)
    end.
Proof.
  revert i. induction args as [|a rest IH]; intros i Hi skip; [done|].
  cbn [format_args].
  destruct i as [|i]; [lia|].
  cbn [Nat.eqb Nat.ltb Nat.leb andb orb].
  rewrite andb_false_r. rewrite (IH (S (S i))) by lia.
  destruct rest as [|b rest]; cbn [map String.concat].
  - by rewrite string_app_nil_r.
  - done.
Qed.

(** X17: for a method without argument string, the display lists the
    arguments separated by [, ]; with [skipFirstArg] the first argument
    is left out, but the separator in front of the second one is not:
    the list of the remaining arguments starts with [, ]. *)
Theorem DBMethod_format_structured this prefix skipFirstArg skipReturn
    replaceName :
  DBType.truthy_string (DBMethod.argumentStr this) = false →
  DBMethod_format this prefix skipFirstArg skipReturn replaceName =
  (if negb skipReturn then DBMethod.returnType this ++ " " else "")
  ++ default "" prefix
  ++ (if DBType.truthy_string replaceName then default "" replaceName
      else DBMethod.name this)
  ++ "("
  ++ (if skipFirstArg
      then match DBMethod.args this with
           | _ :: (_ :: _) as rest =>
               ", " ++ String.concat ", " (map DBArg_format rest)
           | _ => ""
           end
      else String.concat ", " (map DBArg_format (DBMethod.args this)))
  ++ ")"
  ++ (if DBMethod.isConst this then " const" else "").
Proof.
  intros Hstr. unfold DBMethod_format.
  assert (Hargs :
    match DBMethod.argumentStr this with
    | Some argStr =>
        if DBType.truthy_string (Some argStr) then
          if skipFirstArg then
            match after_first_comma argStr with
            | Some rest => trim rest
            | None => ""
            end
          else argStr
        else format_args skipFirstArg 0 (DBMethod.args this)
    | None => format_args skipFirstArg 0 (DBMethod.args this)
    end = format_args skipFirstArg 0 (DBMethod.args this)).
  { destruct (DBMethod.argumentStr this) as [a|]; [|done]. by rewrite Hstr. }
  rewrite Hargs.
  assert (Hname :
    match replaceName with
    | Some r => if DBType.truthy_string (Some r) then r else DBMethod.name this
    | None => DBMethod.name this
    end = if DBType.truthy_string replaceName then default "" replaceName
          else DBMethod.name this).
  { destruct replaceName as [r|]; [|done]. cbn [default].
    by destruct (DBType.truthy_string (Some r)). }
  rewrite Hname.
  assert (Hprefix : match prefix with Some p => p | None => "" end
                    = default "" prefix) by (by destruct prefix).
  rewrite Hprefix. do 4 f_equal.
  destruct (DBMethod.args this) as [|a0 rest].
  { by destruct skipFirstArg. }
  cbn [format_args]. destruct skipFirstArg; cbn [andb orb Nat.eqb Nat.ltb Nat.leb].
  - rewrite (format_args_rest 1 rest) by lia. by destruct rest.
  - rewrite (format_args_rest 1 rest) by lia. rewrite string_app_nil_l.
    destruct rest as [|a1 rest]; cbn [map String.concat]; [|done].
    by rewrite string_app_nil_r.
Qed.

Lemma DBMethod_format_structured_witness :
  DBMethod_format
    (Sample.method "Scale" "void"
       [ {| DBArg.name := Some "x"; DBArg.typename := "float";
            DBArg.defaultvalue := None |};
         {| DBArg.name := Some "y"; DBArg.typename := "float";
            DBArg.defaultvalue := Some "1.0" |} ])
    None true false None
  = "void Scale(, float y = 1.0)".
Proof.
  etrans; [apply DBMethod_format_structured; reflexivity|].
  vm_compute. reflexivity.
Defined.

(** X18: the display of the members of a template instance. A property
    of the instance shows its substituted type, the prefix and its name,
    without the [protected] or [private] mark of the base. A method of
    the instance that has an argument string shows the text of the base
    between the parentheses, placeholders included, and no [const] mark:
    without the return type its display is the display of the base's
    method up to that mark. *)
Theorem instance_display subs actual :
  (∀ p p' prefix,
     DBProperty.createTemplateInstance subs actual p = Some p' →
     ∃ ty, ReplaceTemplateType (DBProperty.typename p) subs actual = Some ty ∧
           DBProperty_format p' prefix =
           ty ++ " "
           ++ (if DBType.truthy_string prefix then default "" prefix else "")
           ++ DBProperty.name p) ∧
  (∀ m m' prefix skipFirstArg replaceName,
     DBMethod.createTemplateInstance subs actual m = Some m' →
     DBType.truthy_string (DBMethod.argumentStr m) = true →
     DBMethod_format m prefix skipFirstArg true replaceName =
       DBMethod_format m' prefix skipFirstArg true replaceName
       ++ (if DBMethod.isConst m then " const" else "") ∧
     ∃ rt, ReplaceTemplateType (DBMethod.returnType m) subs actual = Some rt ∧
           DBMethod_format m' prefix skipFirstArg false replaceName =
           rt ++ " " ++ DBMethod_format m' prefix skipFirstArg true replaceName).
Proof.
  split.
  - intros p p' prefix. unfold DBProperty.createTemplateInstance.
    destruct (ReplaceTemplateType _ _ _) as [ty|]; [|done]. cbn.
    intros [= <-]. exists ty. split; [done|].
    unfold DBProperty_format. cbn. rewrite !string_app_nil_l.
    do 2 f_equal. destruct prefix as [q|]; [|done].
    cbn [default DBType.truthy_string]. by destruct (negb _).
  - intros m m' prefix skipFirstArg replaceName.
    unfold DBMethod.createTemplateInstance.
    destruct (ReplaceTemplateType _ _ _) as [rt|]; [|done]. cbn.
    destruct (mapM _ _) as [args'|]; [|done]. cbn.
    intros [= <-] Hstr. unfold DBMethod_format.
    cbn [DBMethod.name DBMethod.returnType DBMethod.argumentStr
         DBMethod.isConst DBMethod.args negb].
    destruct (DBMethod.argumentStr m) as [argStr|]; [|done].
    rewrite Hstr. rewrite !string_app_nil_l. split.
    + rewrite !string_app_assoc. by do 4 f_equal.
    + exists rt. split; [done|]. by rewrite !string_app_assoc.
Qed.

(** ** Documentation comments *)

Lemma trimStart_idem s : trimStart (trimStart s) = trimStart s.
Proof.
  induction s as [|c s IH]; [done|]. cbn [trimStart].
  destruct (is_ws c) eqn:Hc; [done|]. cbn [trimStart]. by rewrite Hc.
Qed.

Lemma trimEnd_idem s : trimEnd (trimEnd s) = trimEnd s.
Proof.
  induction s as [|c s IH]; [done|]. cbn [trimEnd].
  destruct (trimEnd s) as [|d r] eqn:Hr.
  - destruct (is_ws c) eqn:Hc; [done|]. cbn [trimEnd]. by rewrite Hc.
  - cbn [trimEnd]. cbn [trimEnd] in IH. by rewrite IH.
Qed.

Lemma trimEnd_trimStart s : trimEnd (trimStart s) = trimStart (trimEnd s).
Proof.
  induction s as [|c s IH]; [done|]. cbn [trimStart trimEnd].
  destruct (is_ws c) eqn:Hc.
  - rewrite IH. destruct (trimEnd s) as [|d r]; [done|].
    cbn [trimStart]. by rewrite Hc.
  - cbn [trimEnd]. destruct (trimEnd s) as [|d r].
    + rewrite Hc. cbn [trimStart]. by rewrite Hc.
    + cbn [trimStart]. by rewrite Hc.
Qed.

Lemma trim_idem s : trim (trim s) = trim s.
Proof.
  unfold trim. by rewrite trimEnd_trimStart, trimEnd_idem, trimStart_idem.
Qed.

Lemma span_is_star_none s :
  str_all (λ c, negb (is_star c)) s = true → span is_star s = ("", s).
Proof.
  destruct s as [|c s]; [done|]. cbn [str_all span].
  intros [Hc _]%andb_prop. apply negb_true_iff in Hc. by rewrite Hc.
Qed.

Lemma span_rest_all (p q : ascii → bool) s a b :
  str_all q s = true → span p s = (a, b) → str_all q b = true.
Proof.
  intros Hs Hsp. destruct (span_spec p s a b Hsp) as [-> _].
  rewrite str_all_app in Hs. by apply andb_prop in Hs as [_ ?].
Qed.

Lemma re_comment_star_end_at_no_star s :
  str_all (λ c, negb (is_star c)) s = true →
  re_comment_star_end_at s = None.
Proof.
  intros Hs. unfold re_comment_star_end_at.
  destruct (span is_newline s) as [nl r1] eqn:H1.
  destruct (span is_blank r1) as [b1 r2] eqn:H2.
  pose proof (span_rest_all _ _ _ _ _ Hs H1) as Hr1.
  pose proof (span_rest_all _ _ _ _ _ Hr1 H2) as Hr2.
  rewrite (span_is_star_none _ Hr2).
  destruct (span is_blank r2) as [b2 r4].
  by rewrite orb_true_r.
Qed.

Lemma replace_star_end_no_star s :
  str_all (λ c, negb (is_star c)) s = true → replace_star_end 0 s = s.
Proof.
  induction s as [|c s IH]; [done|]. intros Hs.
  cbn [replace_star_end]. rewrite (re_comment_star_end_at_no_star _ Hs).
  cbn [str_all] in Hs. apply andb_prop in Hs as [_ Hs]. by rewrite (IH Hs).
Qed.

Lemma replace_star_start_no_star s :
  str_all (λ c, negb (is_star c)) s = true → replace_star_start s = s.
Proof.
  intros Hs. unfold replace_star_start.
  destruct (span is_blank s) as [b1 r1] eqn:H1.
  pose proof (span_rest_all _ _ _ _ _ Hs H1) as Hr1.
  rewrite (span_is_star_none _ Hr1).
  destruct (span is_blank r1) as [b2 r3].
  by destruct (span is_newline r3).
Qed.

(** X19: a formatted documentation comment has no white space at either
    end, and a comment without any asterisk is only trimmed. *)
Theorem FormatDocumentationComment_trimmed doc :
  trim (FormatDocumentationComment doc) = FormatDocumentationComment doc ∧
  (str_all (λ c, negb (is_star c)) doc = true →
   FormatDocumentationComment doc = trim doc).
Proof.
  unfold FormatDocumentationComment. split; [apply trim_idem|].
  intros Hs. by rewrite (replace_star_end_no_star _ Hs),
                        (replace_star_start_no_star _ Hs).
Qed.

(** ** File names *)

Lemma slashes_no_backslash s : contains_char "\" (slashes s) = false.
Proof.
  induction s as [|c s IH]; [done|]. cbn [slashes contains_char].
  rewrite IH, orb_false_r.
  destruct (Ascii.eqb_spec c "\") as [->|Hne]; [done|].
  destruct (Ascii.eqb_spec "\"%char c); [by subst|done].
Qed.

Lemma slashes_id s : contains_char "\" s = false → slashes s = s.
Proof.
  induction s as [|c s IH]; [done|]. cbn [slashes contains_char].
  intros [Hc Hs]%orb_false_elim. rewrite (IH Hs).
  rewrite Ascii.eqb_sym in Hc. by rewrite Hc.
Qed.

Lemma contains_char_app c a b :
  contains_char c (a ++ b) = contains_char c a || contains_char c b.
Proof.
  induction a as [|d a IH]; [done|].
  rewrite string_app_cons. cbn [contains_char]. by rewrite IH, orb_assoc.
Qed.

(** X20: the URI of a path name starts with [file:///], holds no
    backslash, and is the same for a path written with backslashes and
    with slashes; a path that starts with a slash and has no backslash
    is kept as it is behind [file://]. *)
Theorem getFileUri_shape pathname :
  startsWith "file:///" (getFileUri pathname) = true ∧
  contains_char "\" (getFileUri pathname) = false ∧
  getFileUri (slashes pathname) = getFileUri pathname ∧
  (startsWith "/" pathname = true → contains_char "\" pathname = false →
   getFileUri pathname = "file://" ++ pathname).
Proof.
  unfold getFileUri. cbv zeta.
  pose proof (slashes_no_backslash pathname) as Hno.
  split_and!.
  - destruct (startsWith "/" (slashes pathname)) eqn:Hs; cbn [negb];
      [|by destruct (slashes pathname)].
    destruct (slashes pathname) as [|c u]; [done|].
    unfold startsWith in Hs. cbn [String.prefix] in Hs.
    destruct (ascii_dec "/" c) as [<-|]; [by destruct u|done].
  - destruct (negb (startsWith "/" (slashes pathname)));
      by rewrite !contains_char_app, Hno.
  - by rewrite (slashes_id _ Hno).
  - intros Hs Hb. rewrite (slashes_id _ Hb). by rewrite Hs.
Qed.

(** ** Engine types *)

(** X21: a type ingested from the engine's dump keeps the dump's
    [supertype] as its [unrealsuper], and only the dump's [inherits] as
    its [supertype]. Without [inherits] the type extends nothing for the
    member queries: they answer from the type's own members, at once and
    without touching the registry, while [inheritsFrom] still follows
    the engine's super class. *)
Theorem engine_type_members_are_its_own s a key desc :
  heap s !! a = Some (DBType_fromJSON key desc) →
  DBType.truthy_string (JSON.t_inherits desc) = false →
  ∀ fuel name,
    getMethod fuel a name true s =
      Some (Normal (find_method name
                      (map (λ kv, DBMethod_fromJSON kv.2)
                           (JSON.t_methods desc))), s) ∧
    getProperty fuel a name true s =
      Some (Normal (find_property name
                      (map (λ kv, DBProperty_fromJSON kv.1 kv.2)
                           (JSON.t_properties desc))), s) ∧
    allMethods fuel a s =
      Some (Normal (map (λ kv, DBMethod_fromJSON kv.2)
                        (JSON.t_methods desc)), s) ∧
    allProperties fuel a s =
      Some (Normal (map (λ kv, DBProperty_fromJSON kv.1 kv.2)
                        (JSON.t_properties desc)), s) ∧
    getExtendTypes a s = Some (Normal [], s) ∧
    inheritsFrom_next (DBType_fromJSON key desc) =
      (if DBType.truthy_string (JSON.t_supertype desc)
       then JSON.t_supertype desc else None).
Proof.
  intros Ha Hinh fuel name.
  assert (Hext : DBType.hasExtendTypes (DBType_fromJSON key desc) = false).
  { unfold DBType.hasExtendTypes. cbn [DBType_fromJSON DBType.supertype
      DBType.siblingTypes]. by rewrite Hinh. }
  split_and!.
  - unfold getMethod. unfold bind, deref. rewrite Ha, Hext. cbn [negb].
    cbn [DBType_fromJSON DBType.methods].
    by destruct (find_method name _).
  - unfold getProperty. unfold bind, deref. rewrite Ha, Hext. cbn [negb].
    cbn [DBType_fromJSON DBType.properties].
    by destruct (find_property name _).
  - unfold allMethods. unfold bind, deref. by rewrite Ha, Hext.
  - unfold allProperties. unfold bind, deref. by rewrite Ha, Hext.
  - unfold getExtendTypes. unfold bind at 1. unfold deref. rewrite Ha.
    cbn [DBType_fromJSON DBType.supertype DBType.siblingTypes].
    destruct (JSON.t_inherits desc) as [inh|]; [|done].
    by rewrite Hinh.
  - unfold inheritsFrom_next.
    cbn [DBType_fromJSON DBType.supertype DBType.unrealsuper].
    by rewrite Hinh.
Qed.

Lemma engine_type_members_are_its_own_witness :
  getMethod 0 0 "GetName" true Sample.ingested =
    Some (Normal (find_method "GetName"
                    (map (λ kv, DBMethod_fromJSON kv.2)
                         (JSON.t_methods Sample.AActor_desc))),
          Sample.ingested) ∧
  getExtendTypes 0 Sample.ingested = Some (Normal [], Sample.ingested) ∧
  inheritsFrom_next (DBType_fromJSON "AActor" Sample.AActor_desc) =
    Some "UObject".
Proof.
  pose proof (engine_type_members_are_its_own Sample.ingested 0 "AActor"
                Sample.AActor_desc eq_refl eq_refl 0 "GetName")
    as (H1 & _ & _ & _ & H5 & H6).
  split; [exact H1|]. split; [exact H5|exact H6].
Defined.

(** ** Names that cannot be resolved *)

Lemma re_template_at_base_word s base args :
  re_template_at s = Some (base, args) → str_all is_word base = true.
Proof.
  unfold re_template_at. destruct (span is_word s) as [w r] eqn:Hs.
  apply span_spec in Hs as [_ Hw].
  destruct (String.eqb w ""); [done|].
  destruct r as [|c r]; [done|].
  destruct (ascii_dec c "<") as [->|Hne].
  - destruct (span is_targ r) as [a r''].
    destruct (String.eqb a ""); [done|].
    destruct r'' as [|d r'']; [done|].
    destruct (ascii_dec d ">") as [->|Hne]; [by intros [= <- <-]|].
    by destruct d as [[] [] [] [] [] [] [] []].
  - by destruct c as [[] [] [] [] [] [] [] []].
Qed.

Lemma re_template_match_base_word s base args :
  re_template_match s = Some (base, args) → str_all is_word base = true.
Proof.
  induction s as [|c s IH]; cbn [re_template_match];
    (destruct (re_template_at _) as [[??]|] eqn:H;
     [intros [= <- <-]; by eapply re_template_at_base_word|]); [done|].
  exact IH.
Qed.

Lemma GetType_miss_unresolvable name s :
  GetType name s = Some (Normal None, s) ↔
  unresolvable s (CleanTypeName name).
Proof.
  unfold unresolvable. split.
  - intros HG. destruct (GetType_miss_inv _ _ _ HG) as [_ Hk].
    split; [done|].
    destruct (re_template_match (CleanTypeName name)) as [[base args]|] eqn:Hm;
      [|done].
    destruct (database s !! base) as [b|] eqn:Hbase; [|done].
    by destruct (GetType_base_present _ _ _ _ _ s Hk Hm Hbase).
  - intros [Hk Hm]. unfold GetType. rewrite GetType_fuel_unfold. cbv zeta.
    rewrite Hk. destruct (contains_char "<" (CleanTypeName name)); [|done].
    destruct (re_template_match (CleanTypeName name)) as [[base args]|];
      [|done].
    by rewrite Hm.
Qed.

Lemma unresolvable_step k s s2 :
  unresolvable s k → lookup_step s s2 → unresolvable s2 k.
Proof.
  intros [Hk Hm] (name & r & HG).
  destruct (GetType_cases name s) as (r1 & s1 & HG' & Hout).
  rewrite HG in HG'. inversion HG'; subst r1 s1; clear HG'.
  inversion Hout as [| | |base' args' b B inst Hk' Hm' Hbase' HB Hinst];
    subst; try done.
  unfold unresolvable. cbn [database].
  assert (Hne : k ≠ CleanTypeName name).
  { intros ->. rewrite Hm' in Hm. congruence. }
  split; [by rewrite lookup_insert_ne|].
  destruct (re_template_match k) as [[base args]|] eqn:Hmk; [|done].
  rewrite lookup_insert_ne; [done|]. intros Heq.
  pose proof (re_template_match_base_word _ _ _ Hmk) as Hw.
  pose proof (re_template_match_lt _ _ _ Hm') as Hlt.
  rewrite Heq in Hlt. by rewrite (word_no_lt _ Hw) in Hlt.
Qed.

Lemma unresolvable_steps k s s2 :
  unresolvable s k → rtc lookup_step s s2 → unresolvable s2 k.
Proof.
  intros Hu Hsteps. induction Hsteps as [s|s s1 s2 Hstep _ IH]; [done|].
  apply IH. by eapply unresolvable_step.
Qed.

(** X22: once [GetType] has returned nothing for a name, every later
    lookup of that name returns nothing as well, whatever other names
    have been looked up, and perhaps instantiated, in between. *)
Theorem GetType_miss_is_stable name s s1 s2 :
  GetType name s = Some (Normal None, s1) →
  rtc lookup_step s1 s2 →
  GetType name s2 = Some (Normal None, s2).
Proof.
  intros HG Hsteps. destruct (GetType_miss_inv _ _ _ HG) as [-> _].
  apply GetType_miss_unresolvable.
  eapply unresolvable_steps; [|exact Hsteps].
  by apply GetType_miss_unresolvable.
Qed.

Lemma GetType_miss_is_stable_witness :
  GetType "Map<int>" Sample.instantiated =
    Some (Normal None, Sample.instantiated).
Proof.
  apply (GetType_miss_is_stable "Map<int>" Sample.generic Sample.generic
           Sample.instantiated).
  - reflexivity.
  - apply rtc_once. exists "Array<int>", (Normal (Some 2)). reflexivity.
Defined.

(** ** The combination list as a closure *)

Lemma visit_type_names T extend s :
  visit_type T extend s = visit_siblings (extend_names T) extend s.
Proof.
  unfold visit_type, extend_names.
  destruct (DBType.supertype T) as [sup|]; cbn [DBType.truthy_string].
  - destruct (negb (String.eqb sup ""));
      destruct (DBType.siblingTypes T); reflexivity.
  - destruct (DBType.siblingTypes T); reflexivity.
Qed.

Lemma visit_siblings_closure names extend s e' s' :
  visit_siblings names extend s = Some (Normal e', s') →
  rtc lookup_step s s' ∧ extend `prefix_of` e' ∧
  (∀ n, n ∈ names →
        (∃ j, database s' !! CleanTypeName n = Some j ∧ j ∈ e') ∨
        unresolvable s' (CleanTypeName n)) ∧
  (∀ j, j ∈ e' →
        j ∈ extend ∨
        ∃ n, n ∈ names ∧ database s' !! CleanTypeName n = Some j).
Proof.
  revert extend s. induction names as [|n rest IH]; intros extend s.
  - intros [= <- <-]. split_and!; [done|done| |by left].
    intros n Hn. by apply elem_of_nil in Hn.
  - cbn [visit_siblings]. unfold visit_name. unfold bind at 1 2. unfold ret at 1.
    destruct (GetType n s) as [[[db|] s1]|] eqn:HG; [|done..].
    intros HV. destruct (IH _ _ HV) as (Hsteps & Hpre & Hclo & Hsnd).
    assert (Hstep : lookup_step s s1) by (by exists n, (Normal db)).
    destruct (lookup_steps_extend _ _ Hsteps) as [_ Hdb].
    split_and!.
    + by eapply rtc_l.
    + etrans; [apply push_unique_prefix|exact Hpre].
    + intros m Hm. apply elem_of_cons in Hm as [->|Hm]; [|by apply Hclo].
      destruct db as [d|].
      * left. exists d. split.
        -- eapply lookup_weaken; [|exact Hdb]. by eapply GetType_hit_after.
        -- destruct Hpre as [l ->]. apply elem_of_app. left.
           cbn [push_unique]. case_bool_decide; [done|].
           apply elem_of_app. right. apply list_elem_of_here.
      * right. destruct (GetType_miss_inv _ _ _ HG) as [-> _].
        eapply unresolvable_steps; [|exact Hsteps].
        by apply GetType_miss_unresolvable.
    + intros j Hj. destruct (Hsnd j Hj) as [Hin|(m & Hm & Hjm)].
      * destruct db as [d|]; cbn [push_unique] in Hin; [|by left].
        case_bool_decide; [by left|].
        apply elem_of_app in Hin as [Hin|Hin]; [by left|].
        apply list_elem_of_singleton in Hin as ->. right. exists n.
        split; [apply list_elem_of_here|].
        eapply lookup_weaken; [|exact Hdb]. by eapply GetType_hit_after.
      * right. exists m. split; [by apply list_elem_of_further|done].
Qed.

Lemma extends_to_mono s s' i j :
  heap s `prefix_of` heap s' → database s ⊆ database s' →
  extends_to s i j → extends_to s' i j.
Proof.
  intros [l Hl] Hdb (T & name & HT & Hn & Hj). exists T, name.
  split_and!; [|done|by eapply lookup_weaken].
  rewrite Hl. by apply lookup_app_l_Some.
Qed.

Lemma extends_to_rtc_mono s s' i j :
  heap s `prefix_of` heap s' → database s ⊆ database s' →
  rtc (extends_to s) i j → rtc (extends_to s') i j.
Proof.
  intros Hh Hdb. apply rtc_subrel. intros x y. by apply extends_to_mono.
Qed.

Lemma combine_loop_closure fuel this extend k s e' s' :
  (∀ i a, (i < k)%nat → extend !! i = Some a →
          ∃ T, heap s !! a = Some T ∧
               ∀ n, n ∈ extend_names T →
                    (∃ j, database s !! CleanTypeName n = Some j ∧ j ∈ extend) ∨
                    unresolvable s (CleanTypeName n)) →
  (∀ j, j ∈ extend → rtc (extends_to s) this j) →
  combine_loop fuel extend k s = Some (Normal e', s') →
  extend `prefix_of` e' ∧
  (∀ a j, a ∈ e' → extends_to s' a j → j ∈ e') ∧
  (∀ j, j ∈ e' → rtc (extends_to s') this j).
Proof.
  revert extend k s.
  induction fuel as [|fuel IH]; intros extend k s Hclo Hsnd;
    cbn [combine_loop];
    destruct (extend !! k) as [a|] eqn:Hk; try done.
  - intros [= <- <-]. split_and!; [done| |done].
    intros a j Ha (T & n & HT & Hn & Hj).
    apply list_elem_of_lookup in Ha as [i Hi].
    destruct (Hclo i a) as (T' & HT' & Hnames); [|done|].
    { apply lookup_ge_None in Hk. apply lookup_lt_Some in Hi. lia. }
    rewrite HT in HT'. inversion HT'; subst T'.
    destruct (Hnames n Hn) as [(j' & Hj' & Hin)|[Hnone _]]; [|congruence].
    rewrite Hj in Hj'. by inversion Hj'; subst.
  - unfold bind at 1. unfold deref.
    destruct (heap s !! a) as [T|] eqn:HT; [|done].
    unfold bind at 1. rewrite visit_type_names.
    destruct (visit_siblings (extend_names T) extend s)
      as [[[e1|] s1]|] eqn:HV; [|done..].
    destruct (visit_siblings_closure _ _ _ _ _ HV)
      as (Hsteps & Hpre & Hclo1 & Hsnd1).
    destruct (lookup_steps_extend _ _ Hsteps) as [Hh Hdb].
    intros HL. destruct (IH e1 (S k) s1) as (Hpre' & Hclo' & Hsnd'); [| |exact HL|].
    + intros i b Hi Hb.
      destruct (decide (i = k)) as [->|Hne].
      * assert (b = a) as ->.
        { destruct Hpre as [l ->]. rewrite (lookup_app_l_Some _ _ _ _ Hk) in Hb.
          by inversion Hb. }
        exists T. split; [|exact Hclo1].
        destruct Hh as [l ->]. by apply lookup_app_l_Some.
      * assert (Hb' : extend !! i = Some b).
        { destruct Hpre as [l Hl]. rewrite Hl in Hb.
          rewrite lookup_app_l in Hb; [done|].
          apply lookup_lt_Some in Hk. lia. }
        destruct (Hclo i b) as (Tb & HTb & Hnames); [lia|done|].
        exists Tb. split.
        { destruct Hh as [l ->]. by apply lookup_app_l_Some. }
        intros n Hn. destruct (Hnames n Hn) as [(j & Hj & Hin)|Hun].
        -- left. exists j. split; [by eapply lookup_weaken|].
           destruct Hpre as [l ->]. apply elem_of_app. by left.
        -- right. by eapply unresolvable_steps.
    + intros j Hj. destruct (Hsnd1 j Hj) as [Hin|(n & Hn & Hjn)].
      * eapply extends_to_rtc_mono; [done|done|]. by apply Hsnd.
      * eapply rtc_r.
        -- eapply extends_to_rtc_mono; [done|done|]. apply Hsnd.
           by eapply list_elem_of_lookup_2.
        -- exists T, n. split_and!; [|done|done].
           destruct Hh as [l ->]. by apply lookup_app_l_Some.
    + split_and!; [by etrans|done|done].
  - intros [= <- <-]. split_and!; [done| |done].
    intros a j Ha (T & n & HT & Hn & Hj).
    apply list_elem_of_lookup in Ha as [i Hi].
    destruct (Hclo i a) as (T' & HT' & Hnames); [|done|].
    { apply lookup_ge_None in Hk. apply lookup_lt_Some in Hi. lia. }
    rewrite HT in HT'. inversion HT'; subst T'.
    destruct (Hnames n Hn) as [(j' & Hj' & Hin)|[Hnone _]]; [|congruence].
    rewrite Hj in Hj'. by inversion Hj'; subst.
Qed.

(** X23: the combination list of a type holds exactly the objects that
    can be reached from the type by going, any number of times, from an
    object to what the name of its supertype or of one of its siblings is
    bound to. *)
Theorem getCombineTypesList_is_closure fuel this s extend s' :
  getCombineTypesList fuel this s = Some (Normal extend, s') →
  ∀ j, j ∈ extend ↔ rtc (extends_to s') this j.
Proof.
  intros HC.
  destruct (combine_loop_closure fuel this [this] 0 s extend s')
    as (Hpre & Hclo & Hsnd); [| |exact HC|].
  - intros i a Hi. lia.
  - intros j Hj. apply list_elem_of_singleton in Hj as ->. done.
  - intros j. split; [apply Hsnd|].
    assert (Hthis : this ∈ extend).
    { destruct Hpre as [l ->]. apply list_elem_of_here. }
    revert Hthis. generalize this. intros a Ha Hrtc.
    induction Hrtc as [a|a b c Hab _ IH]; [done|].
    apply IH. by eapply Hclo.
Qed.

Lemma getCombineTypesList_is_closure_witness :
  (3 ∈ [0; 1; 2; 3] ↔ rtc (extends_to Sample.mixins_plain) 0 3) ∧
  (0 ∈ [1] ↔ rtc (extends_to Sample.mixins_plain) 1 0).
Proof.
  split.
  - exact (getCombineTypesList_is_closure 5 0 Sample.mixins_plain
             [0; 1; 2; 3] Sample.mixins_plain eq_refl 3).
  - exact (getCombineTypesList_is_closure 5 1 Sample.mixins_plain
             [1] Sample.mixins_plain eq_refl 0).
Defined.

(** ** Termination of the member queries *)

Lemma allMethods_loop_ends extend names out s :
  (∀ a, a ∈ extend → a < length (heap s)) →
  ∃ r, allMethods_loop extend names out s = Some (Normal r, s).
Proof.
  revert names out. induction extend as [|e rest IH]; intros names out Hlt.
  - by eexists.
  - cbn [allMethods_loop]. unfold bind at 1. unfold deref.
    destruct (lookup_lt_is_Some_2 (heap s) e) as [T ->];
      [apply Hlt, list_elem_of_here|].
    destruct (allMethods_type e (DBType.methods T) names out) as [names' out'].
    apply IH. intros a Ha. by apply Hlt, list_elem_of_further.
Qed.

Lemma allProperties_loop_ends extend props s :
  (∀ a, a ∈ extend → a < length (heap s)) →
  ∃ r, allProperties_loop extend props s = Some (Normal r, s).
Proof.
  revert props. induction extend as [|e rest IH]; intros props Hlt.
  - by eexists.
  - cbn [allProperties_loop]. unfold bind at 1. unfold deref.
    destruct (lookup_lt_is_Some_2 (heap s) e) as [T ->];
      [apply Hlt, list_elem_of_here|].
    apply IH. intros a Ha. by apply Hlt, list_elem_of_further.
Qed.

Lemma getProperty_search_ends name extend s :
  (∀ a, a ∈ extend → a < length (heap s)) →
  ∃ r, getProperty_search extend name s = Some (Normal r, s).
Proof.
  induction extend as [|e rest IH]; intros Hlt.
  - by eexists.
  - cbn [getProperty_search]. unfold getProperty_own. unfold_M.
    destruct (lookup_lt_is_Some_2 (heap s) e) as [T ->];
      [apply Hlt, list_elem_of_here|].
    destruct (find_property name (DBType.properties T)); [by eexists|].
    apply IH. intros a Ha. by apply Hlt, list_elem_of_further.
Qed.

(** X24: on a well-formed registry the queries for all methods, for all
    properties and for one property of a type in the heap always return,
    cyclic references or not, once the fuel exceeds the number of objects
    plus the number of names still to be instantiated. *)
Theorem member_queries_terminate fuel this s :
  wf s → this < length (heap s) → (walk_bound s < fuel)%nat →
  (∃ r s', allMethods fuel this s = Some (r, s')) ∧
  (∃ r s', allProperties fuel this s = Some (r, s')) ∧
  (∀ name recurse, ∃ r s', getProperty fuel this name recurse s = Some (r, s')).
Proof.
  intros Hwf Hlt Hfuel.
  destruct (lookup_lt_is_Some_2 (heap s) this Hlt) as [self HT].
  destruct (getCombineTypesList_ends s this fuel Hwf Hlt Hfuel)
    as (r & s' & HC & _ & _ & Hinv).
  split_and!.
  - unfold allMethods. unfold bind at 1. unfold deref. rewrite HT.
    destruct (negb (DBType.hasExtendTypes self)); [by eexists _, _|].
    unfold bind at 1. rewrite HC. destruct r as [e|]; [|by eexists _, _].
    destruct (Hinv e eq_refl) as (_ & _ & _ & Hin).
    destruct (allMethods_loop_ends e ∅ [] s' Hin) as [ms ->]. by eexists _, _.
  - unfold allProperties. unfold bind at 1. unfold deref. rewrite HT.
    destruct (negb (DBType.hasExtendTypes self)); [by eexists _, _|].
    unfold bind at 1. rewrite HC. destruct r as [e|]; [|by eexists _, _].
    destruct (Hinv e eq_refl) as (_ & _ & _ & Hin).
    destruct (allProperties_loop_ends e [] s' Hin) as [ps ->]. by eexists _, _.
  - intros name recurse. unfold getProperty. unfold bind at 1. unfold deref.
    rewrite HT.
    destruct (find_property name (DBType.properties self)); [by eexists _, _|].
    destruct (negb recurse); [by eexists _, _|].
    destruct (negb (DBType.hasExtendTypes self)); [by eexists _, _|].
    unfold bind at 1. rewrite HC. destruct r as [e|]; [|by eexists _, _].
    destruct (Hinv e eq_refl) as (_ & _ & _ & Hin).
    destruct (getProperty_search_ends name e s' Hin) as [p ->]. by eexists _, _.
Qed.

Lemma member_queries_terminate_witness :
  (∃ r s', allMethods 5 0 Sample.cyclic = Some (r, s')) ∧
  (∃ r s', allProperties 5 0 Sample.cyclic = Some (r, s')) ∧
  (∃ r s', getProperty 5 0 "x" true Sample.cyclic = Some (r, s')).
Proof.
  destruct (member_queries_terminate 5 0 Sample.cyclic wf_sample_cyclic)
    as (H1 & H2 & H3).
  - cbn. lia.
  - vm_compute. lia.
  - split; [exact H1|]. split; [exact H2|]. exact (H3 "x" true).
Defined.
